(** * SSDFS: page lifecycle, leak accounting, bounded copies and checksums

    A shallow embedding of [fs/ssdfs/ssdfs_inline.h] (and of the page vector
    API declared in [fs/ssdfs/page_vector.h]) together with the properties
    that the design document states about them.

    The inline functions that the properties are about are translated one
    by one, with the preprocessor switches as a parameter.  They run in a
    small monad over a model of the kernel state: byte-addressed memory,
    the [struct page] array, the free list of the page allocator, the live
    slab objects, the leak counters and the kernel log.  A computation ends
    normally, or with a kernel oops ([BUG_ON], invalid access), or it goes
    to sleep on a lock that is held; no other task runs in the model, so a
    sleeping computation does not wake up. *)

From Stdlib Require Import ZArith List Bool Lia.
From stdpp Require Import base list gmap strings.

Local Open Scope Z_scope.

(** ** Machine integers *)

(** Wrap-around of the integer types used by the header. *)
Definition u8 (z : Z) : Z := z mod 2 ^ 8.
Definition u16 (z : Z) : Z := z mod 2 ^ 16.
Definition u32 (z : Z) : Z := z mod 2 ^ 32.
Definition s32 (z : Z) : Z := (z + 2 ^ 31) mod 2 ^ 32 - 2 ^ 31.
Definition s64 (z : Z) : Z := (z + 2 ^ 63) mod 2 ^ 64 - 2 ^ 63.
Definition u64 (z : Z) : Z := z mod 2 ^ 64.

(** ** Build configuration *)

(** The two preprocessor switches that the header tests with [#ifdef]. *)
Record config : Type := Config {
  CONFIG_SSDFS_DEBUG : bool;
  CONFIG_SSDFS_MEMORY_LEAKS_ACCOUNTING : bool
}.

(** ** Kernel constants *)

(** Error numbers of [include/uapi/asm-generic/errno-base.h]. *)
Definition E2BIG : Z := 7.
Definition ENOMEM : Z := 12.
Definition EINVAL : Z := 22.
Definition ERANGE : Z := 34.

(** [PAGE_SIZE] for 4 KiB pages, [PAGEVEC_SIZE] of [linux/pagevec.h] and the
    allocation flags of [linux/gfp_types.h] that the header mentions. *)
Definition PAGE_SHIFT : Z := 12.
Definition PAGE_SIZE : Z := 2 ^ PAGE_SHIFT.
Definition PAGEVEC_SIZE : Z := 15.
Definition __GFP_ZERO : Z := 0x100.
Definition GFP_KERNEL : Z := 0xcc0.

(** ** Pointers *)

(** A C pointer as the header uses it: null, an errno encoded by
    [ERR_PTR], or the address of an object.  A [struct page *] is the page
    frame number of the page it designates. *)
Inductive pointer : Type :=
| NULL
| ERR_PTR (err : Z)
| Addr (a : Z).

Global Instance pointer_eq_dec : EqDecision pointer.
Proof. solve_decision. Defined.

Definition IS_ERR_OR_NULL (p : pointer) : bool :=
  match p with
  | Addr _ => false
  | _ => true
  end.

Definition PTR_ERR (p : pointer) : Z :=
  match p with
  | ERR_PTR e => e
  | NULL => 0
  | Addr a => a
  end.

(** ** Kernel state *)

Inductive loglevel : Type := KERN_CRIT | KERN_ERR | KERN_WARNING
                             | KERN_NOTICE | KERN_INFO | KERN_DEBUG.

Global Instance loglevel_eq_dec : EqDecision loglevel.
Proof. solve_decision. Defined.

(** The fields of [struct page] that the header reads or writes. *)
Record page : Type := Page {
  _refcount : Z;
  PG_locked : bool
}.

Record kstate : Type := KState {
  memory : Z -> Z;                  (* byte at each address *)
  mem_map : Z -> page;              (* struct page of each frame *)
  free_area : list Z;               (* frames held by the page allocator *)
  slab_objs : list Z;               (* live kmalloc/kvmalloc objects *)
  ssdfs_allocated_pages : Z;        (* atomic64_t, accounting builds *)
  ssdfs_memory_leaks : Z;
  ssdfs_locked_pages : Z;
  page_leaks : gmap string Z;       (* ssdfs_<name>_page_leaks *)
  memory_leaks : gmap string Z;     (* ssdfs_<name>_memory_leaks *)
  klog : list (loglevel * string)   (* printk records, oldest first *)
}.

Definition set_memory (f : (Z -> Z) -> Z -> Z) (st : kstate) : kstate :=
  KState (f (memory st)) (mem_map st) (free_area st) (slab_objs st)
         (ssdfs_allocated_pages st) (ssdfs_memory_leaks st)
         (ssdfs_locked_pages st) (page_leaks st) (memory_leaks st) (klog st).

Definition set_mem_map (f : (Z -> page) -> Z -> page) (st : kstate) : kstate :=
  KState (memory st) (f (mem_map st)) (free_area st) (slab_objs st)
         (ssdfs_allocated_pages st) (ssdfs_memory_leaks st)
         (ssdfs_locked_pages st) (page_leaks st) (memory_leaks st) (klog st).

Definition set_free_area (f : list Z -> list Z) (st : kstate) : kstate :=
  KState (memory st) (mem_map st) (f (free_area st)) (slab_objs st)
         (ssdfs_allocated_pages st) (ssdfs_memory_leaks st)
         (ssdfs_locked_pages st) (page_leaks st) (memory_leaks st) (klog st).

Definition set_slab_objs (f : list Z -> list Z) (st : kstate) : kstate :=
  KState (memory st) (mem_map st) (free_area st) (f (slab_objs st))
         (ssdfs_allocated_pages st) (ssdfs_memory_leaks st)
         (ssdfs_locked_pages st) (page_leaks st) (memory_leaks st) (klog st).

Definition set_allocated_pages (f : Z -> Z) (st : kstate) : kstate :=
  KState (memory st) (mem_map st) (free_area st) (slab_objs st)
         (f (ssdfs_allocated_pages st)) (ssdfs_memory_leaks st)
         (ssdfs_locked_pages st) (page_leaks st) (memory_leaks st) (klog st).

Definition set_memory_leaks_total (f : Z -> Z) (st : kstate) : kstate :=
  KState (memory st) (mem_map st) (free_area st) (slab_objs st)
         (ssdfs_allocated_pages st) (f (ssdfs_memory_leaks st))
         (ssdfs_locked_pages st) (page_leaks st) (memory_leaks st) (klog st).


Definition set_page_leaks (f : gmap string Z -> gmap string Z)
    (st : kstate) : kstate :=
  KState (memory st) (mem_map st) (free_area st) (slab_objs st)
         (ssdfs_allocated_pages st) (ssdfs_memory_leaks st)
         (ssdfs_locked_pages st) (f (page_leaks st)) (memory_leaks st)
         (klog st).

Definition set_memory_leaks (f : gmap string Z -> gmap string Z)
    (st : kstate) : kstate :=
  KState (memory st) (mem_map st) (free_area st) (slab_objs st)
         (ssdfs_allocated_pages st) (ssdfs_memory_leaks st)
         (ssdfs_locked_pages st) (page_leaks st) (f (memory_leaks st))
         (klog st).

Definition set_klog (f : list (loglevel * string) -> list (loglevel * string))
    (st : kstate) : kstate :=
  KState (memory st) (mem_map st) (free_area st) (slab_objs st)
         (ssdfs_allocated_pages st) (ssdfs_memory_leaks st)
         (ssdfs_locked_pages st) (page_leaks st) (memory_leaks st)
         (f (klog st)).

(** ** The monad of kernel code *)

Inductive outcome (A : Type) : Type :=
| Done (a : A) (st : kstate)
| Oops (why : string)
| Sleeps (on : string).
Arguments Done {A} a st.
Arguments Oops {A} why.
Arguments Sleeps {A} on.

Definition kernel (A : Type) : Type := kstate -> outcome A.

Global Instance kernel_ret : MRet kernel := fun A a st => Done a st.
Global Instance kernel_bind : MBind kernel := fun A B f m st =>
  match m st with
  | Done a st' => f a st'
  | Oops why => Oops why
  | Sleeps on => Sleeps on
  end.

Definition get_state : kernel kstate := fun st => Done st st.
Definition modify (f : kstate -> kstate) : kernel unit :=
  fun st => Done tt (f st).
Definition BUG (why : string) {A : Type} : kernel A := fun _ => Oops why.
Definition when (b : bool) (m : kernel unit) : kernel unit :=
  if b then m else mret tt.
Definition BUG_ON (b : bool) (why : string) : kernel unit :=
  when b (BUG why).

(** ** Kernel primitives

    The functions below stand for the Linux services that the header calls.
    They follow the documented contract of each service. *)

Definition printk (lvl : loglevel) (msg : string) : kernel unit :=
  modify (set_klog (fun l => l ++ [(lvl, msg)])).

Definition fn_upd {A : Type} (k : Z) (v : A) (f : Z -> A) : Z -> A :=
  fun q => if Z.eqb q k then v else f q.

Definition page_address (pfn : Z) : Z := pfn * PAGE_SIZE.

(** [memset]: the value is converted to [unsigned char]. *)
Definition memset (dst : Z) (value : Z) (n : Z) (m : Z -> Z) : Z -> Z :=
  fun a => if (dst <=? a) && (a <? dst + n) then u8 value else m a.

(** [memmove]: the source range is read before the destination is written. *)
Definition memmove (dst src : Z) (n : Z) (m : Z -> Z) : Z -> Z :=
  fun a => if (dst <=? a) && (a <? dst + n) then m (src + (a - dst)) else m a.

(** [memcpy]: bytes are copied in ascending order, one at a time. *)
Fixpoint memcpy_bytes (dst src : Z) (n : nat) (m : Z -> Z) : Z -> Z :=
  match n with
  | O => m
  | S n' => memcpy_bytes (dst + 1) (src + 1) n' (fn_upd dst (m src) m)
  end.

Definition memcpy (dst src : Z) (n : Z) (m : Z -> Z) : Z -> Z :=
  memcpy_bytes dst src (Z.to_nat n) m.

Definition page_ref_count (p : Z) : kernel Z :=
  fun st => Done (_refcount (mem_map st p)) st.

Definition PageLocked (p : Z) : kernel bool :=
  fun st => Done (PG_locked (mem_map st p)) st.

Definition set_page_refcount (p : Z) (c : Z) (mm : Z -> page) : Z -> page :=
  fn_upd p (Page c (PG_locked (mm p))) mm.

(** [page_ref_inc] and [page_ref_dec_and_test] of [linux/page_ref.h]; the
    count is an [int]. *)
Definition page_ref_inc (p : Z) : kernel unit :=
  modify (set_mem_map (fun mm =>
    set_page_refcount p (s32 (_refcount (mm p) + 1)) mm)).

Definition page_ref_dec_and_test (p : Z) : kernel bool :=
  modify (set_mem_map (fun mm =>
    set_page_refcount p (s32 (_refcount (mm p) - 1)) mm));;
  c ← page_ref_count p;
  mret (c =? 0).

(** The frame goes back to the page allocator. *)
Definition free_the_page (p : Z) : kernel unit :=
  modify (set_free_area (fun l => p :: l)).

(** [put_page_testzero]: drop one reference, tell whether it was the last. *)
Definition put_page_testzero (p : Z) : kernel bool := page_ref_dec_and_test p.

Definition get_page (p : Z) : kernel unit := page_ref_inc p.

Definition put_page (p : Z) : kernel unit :=
  z ← put_page_testzero p; when z (free_the_page p).

(** [__free_pages(page, 0)]: frees the frame when the last reference goes. *)
Definition __free_pages (p : Z) : kernel unit :=
  z ← put_page_testzero p; when z (free_the_page p).




(** [alloc_page]: takes a frame from the allocator, or returns null when none
    is left.  The new page has one reference and clear flags; its bytes are
    zeroed when [__GFP_ZERO] is requested and stale otherwise. *)
Definition alloc_page (gfp_mask : Z) : kernel pointer := fun st =>
  match free_area st with
  | [] => Done NULL st
  | p :: rest =>
      let st1 := set_free_area (fun _ => rest) st in
      let st2 := set_mem_map (fn_upd p (Page 1 false)) st1 in
      let st3 := if Z.land gfp_mask __GFP_ZERO =? 0 then st2
                 else set_memory (memset (page_address p) 0 PAGE_SIZE) st2 in
      Done (Addr p) st3
  end.

Definition remove_obj (a : Z) (l : list Z) : list Z :=
  filter (fun b => b ≠ a) l.

Definition kfree (a : Z) : kernel unit := modify (set_slab_objs (remove_obj a)).
Definition kvfree (a : Z) : kernel unit := modify (set_slab_objs (remove_obj a)).

Definition atomic64_inc (v : Z) : Z := s64 (v + 1).
Definition atomic64_dec (v : Z) : Z := s64 (v - 1).

(** [struct pagevec] of [linux/pagevec.h]: a counter and a fixed array. *)
Record pagevec : Type := PageVec {
  nr : Z;
  pages : list pointer
}.

Definition pagevec_count (pvec : pagevec) : Z := nr pvec.
Definition pagevec_space (pvec : pagevec) : Z := u32 (PAGEVEC_SIZE - nr pvec).
Definition pagevec_reinit (pvec : pagevec) : pagevec := PageVec 0 (pages pvec).

(** Array accesses: an index outside the array is an invalid access. *)
Definition slot_read (pvec : pagevec) (i : Z) : kernel pointer :=
  match pages pvec !! Z.to_nat i with
  | Some p => mret p
  | None => BUG "array index out of bounds"
  end.

Definition slot_write (pvec : pagevec) (i : Z) (p : pointer) : kernel pagevec :=
  if (Z.to_nat i <? length (pages pvec))%nat
  then mret (PageVec (nr pvec) (<[Z.to_nat i := p]> (pages pvec)))
  else BUG "array index out of bounds".

(** [pagevec_add]: [pvec->pages[pvec->nr++] = page]. *)
Definition pagevec_add (pvec : pagevec) (p : pointer) : kernel pagevec :=
  pv ← slot_write pvec (nr pvec) p;
  mret (PageVec (u8 (nr pv + 1)) (pages pv)).

(** Dereferencing a pointer that is null or an encoded errno faults. *)
Definition deref (p : pointer) : kernel Z :=
  match p with
  | Addr a => mret a
  | _ => BUG "invalid pointer dereference"
  end.

Definition deref_obj {A : Type} (p : option A) : kernel A :=
  match p with
  | Some a => mret a
  | None => BUG "NULL pointer dereference"
  end.

(** ** [ssdfs_inline.h]: memory and page lifecycle *)

Section Inline.
Context (cfg : config).

Definition SSDFS_CRIT (fmt : string) : kernel unit := printk KERN_CRIT fmt.
Definition SSDFS_ERR (fmt : string) : kernel unit := printk KERN_ERR fmt.
(* pr_warn followed by dump_stack *)
Definition SSDFS_WARN (fmt : string) : kernel unit := printk KERN_WARNING fmt.
Definition SSDFS_NOTICE (fmt : string) : kernel unit := printk KERN_NOTICE fmt.
Definition SSDFS_INFO (fmt : string) : kernel unit := printk KERN_INFO fmt.
Definition SSDFS_DBG (fmt : string) : kernel unit :=
  when (CONFIG_SSDFS_DEBUG cfg) (printk KERN_DEBUG fmt).

Definition ifdef_DEBUG (m : kernel unit) : kernel unit :=
  when (CONFIG_SSDFS_DEBUG cfg) m.
Definition ifdef_ACCOUNTING (m : kernel unit) : kernel unit :=
  when (CONFIG_SSDFS_MEMORY_LEAKS_ACCOUNTING cfg) m.

Definition ssdfs_memory_leaks_increment (kaddr : pointer) : kernel unit :=
  ifdef_ACCOUNTING (
    modify (set_memory_leaks_total atomic64_inc);;
    SSDFS_DBG "memory %p, allocation count %lld").

Definition ssdfs_memory_leaks_decrement (kaddr : pointer) : kernel unit :=
  ifdef_ACCOUNTING (
    modify (set_memory_leaks_total atomic64_dec);;
    SSDFS_DBG "memory %p, allocation count %lld").

Definition ssdfs_kfree (kaddr : pointer) : kernel unit :=
  match kaddr with
  | NULL => mret tt
  | _ =>
      ssdfs_memory_leaks_decrement kaddr;;
      a ← deref kaddr; kfree a
  end.

Definition ssdfs_kvfree (kaddr : pointer) : kernel unit :=
  match kaddr with
  | NULL => mret tt
  | _ =>
      ssdfs_memory_leaks_decrement kaddr;;
      a ← deref kaddr; kvfree a
  end.

Definition ssdfs_get_page (page : Z) : kernel unit :=
  get_page page;;
  ifdef_DEBUG (SSDFS_DBG "page %p, count %d, flags %#lx").

Definition ssdfs_put_page (page : Z) : kernel unit :=
  ifdef_DEBUG (SSDFS_DBG "page %p, count %d");;
  put_page page;;
  ifdef_DEBUG (SSDFS_DBG "page %p, count %d");;
  c ← page_ref_count page;
  when (c <? 1) (SSDFS_WARN "page %p, count %d").

Definition ssdfs_alloc_page (gfp_mask : Z) : kernel pointer :=
  page ← alloc_page gfp_mask;
  match page with
  | NULL =>
      SSDFS_ERR "unable to allocate memory page";;
      mret (ERR_PTR (- ENOMEM))
  | _ =>
      p ← deref page;
      ssdfs_get_page p;;
      ifdef_DEBUG (SSDFS_DBG "page %p, count %d, flags %#lx, page_index %lu");;
      ifdef_ACCOUNTING (
        modify (set_allocated_pages atomic64_inc);;
        SSDFS_DBG "page %p, allocated_pages %lld");;
      mret page
  end.

Definition ssdfs_account_page (page : pointer) : kernel unit := mret tt.
Definition ssdfs_forget_page (page : pointer) : kernel unit := mret tt.

(** Returns the page pointer (or the encoded errno) and the page vector as
    the call leaves it. *)
Definition ssdfs_add_pagevec_page (pvec : option pagevec)
    : kernel (pointer * pagevec) :=
  ifdef_DEBUG (BUG_ON (bool_decide (pvec = None)) "BUG_ON(!pvec)");;
  pv ← deref_obj pvec;
  if pagevec_space pv =? 0 then
    SSDFS_ERR "pagevec hasn't space";;
    mret (ERR_PTR (- E2BIG), pv)
  else
    page ← ssdfs_alloc_page (Z.lor GFP_KERNEL __GFP_ZERO);
    if IS_ERR_OR_NULL page then
      let err := if bool_decide (page = NULL) then - ENOMEM
                 else PTR_ERR page in
      SSDFS_ERR "unable to allocate memory page";;
      mret (ERR_PTR err, pv)
    else
      pv' ← pagevec_add pv page;
      ifdef_DEBUG (
        SSDFS_DBG "pvec %p, pagevec count %u";;
        SSDFS_DBG "page %p, count %d");;
      mret (page, pv').

Definition ssdfs_free_page (page : pointer) : kernel unit :=
  match page with
  | NULL => mret tt
  | _ =>
      p ← deref page;
      ifdef_ACCOUNTING (
        locked ← PageLocked p;
        when locked (SSDFS_WARN "page %p is still locked"));;
      ssdfs_put_page p;;
      ifdef_DEBUG (SSDFS_DBG "page %p, count %d");;
      c ← page_ref_count p;
      when ((c <=? 0) || (1 <? c)) (SSDFS_WARN "page %p, count %d");;
      ifdef_ACCOUNTING (
        modify (set_allocated_pages atomic64_dec);;
        SSDFS_DBG "page %p, allocated_pages %lld");;
      __free_pages p;;
      ifdef_DEBUG (SSDFS_DBG "page %p, count %d, flags %#lx, page_index %lu")
  end.

(** The body of the loop of [ssdfs_pagevec_release], from index [i], for
    the [n] indices that remain below [pagevec_count]. *)
Fixpoint ssdfs_pagevec_release_loop (n : nat) (i : Z) (pv : pagevec)
    : kernel pagevec :=
  match n with
  | O => mret pv
  | S n' =>
      page ← slot_read pv i;
      match page with
      | NULL => ssdfs_pagevec_release_loop n' (i + 1) pv
      | _ =>
          ssdfs_free_page page;;
          pv' ← slot_write pv i NULL;
          ssdfs_pagevec_release_loop n' (i + 1) pv'
      end
  end.

Definition ssdfs_pagevec_release (pvec : option pagevec)
    : kernel (option pagevec) :=
  ifdef_DEBUG (SSDFS_DBG "pvec %p");;
  match pvec with
  | None => mret None
  | Some pv =>
      ifdef_DEBUG (SSDFS_DBG "pvec count %u");;
      pv' ← ssdfs_pagevec_release_loop (Z.to_nat (pagevec_count pv)) 0 pv;
      mret (Some (pagevec_reinit pv'))
  end.

End Inline.

(** ** [ssdfs_inline.h]: slab allocation wrappers

    [kmalloc], [kzalloc], [kvzalloc] and [kcalloc] belong to the kernel:
    whether a call succeeds, and at which address, is the allocator's
    choice.  The wrappers are translated over the allocator they call. *)

Section Allocation.
Context (cfg : config).
Context (kmalloc kzalloc kvzalloc : Z -> Z -> kernel pointer).
Context (kcalloc : Z -> Z -> Z -> kernel pointer).

Definition ssdfs_kmalloc (size flags : Z) : kernel pointer :=
  kaddr ← kmalloc size flags;
  match kaddr with
  | NULL => mret tt
  | _ => ssdfs_memory_leaks_increment cfg kaddr
  end;;
  mret kaddr.

Definition ssdfs_kzalloc (size flags : Z) : kernel pointer :=
  kaddr ← kzalloc size flags;
  match kaddr with
  | NULL => mret tt
  | _ => ssdfs_memory_leaks_increment cfg kaddr
  end;;
  mret kaddr.

Definition ssdfs_kvzalloc (size flags : Z) : kernel pointer :=
  kaddr ← kvzalloc size flags;
  match kaddr with
  | NULL => mret tt
  | _ => ssdfs_memory_leaks_increment cfg kaddr
  end;;
  mret kaddr.

Definition ssdfs_kcalloc (n size flags : Z) : kernel pointer :=
  kaddr ← kcalloc n size flags;
  match kaddr with
  | NULL => mret tt
  | _ => ssdfs_memory_leaks_increment cfg kaddr
  end;;
  mret kaddr.

End Allocation.

(** ** [ssdfs_inline.h]: page locking *)

Section Locking.
Context (cfg : config).





End Locking.

(** ** Per-subsystem function families

    [SSDFS_MEMORY_LEAKS_CHECKER_FNS(name)] and
    [SSDFS_MEMORY_ALLOCATOR_FNS(name)] generate one family of wrappers per
    subsystem [name].  The counters [ssdfs_<name>_page_leaks] and
    [ssdfs_<name>_memory_leaks] are the entries for [name] of the maps
    [page_leaks] and [memory_leaks]. *)

Definition counter (name : string) (m : gmap string Z) : Z :=
  default 0 (m !! name).

Definition counter_upd (f : Z -> Z) (name : string) (m : gmap string Z)
    : gmap string Z :=
  <[name := f (counter name m)]> m.

Module SSDFS_MEMORY_LEAKS_CHECKER_FNS.
Section Fns.
Context (cfg : config) (name : string).
Context (kmalloc kzalloc kvzalloc : Z -> Z -> kernel pointer).
Context (kcalloc : Z -> Z -> Z -> kernel pointer).

Definition ssdfs_name_kmalloc (size flags : Z) : kernel pointer :=
  kaddr ← ssdfs_kmalloc cfg kmalloc size flags;
  match kaddr with
  | NULL => mret tt
  | _ =>
      modify (set_memory_leaks (counter_upd atomic64_inc name));;
      SSDFS_DBG cfg "memory %p, allocation count %lld"
  end;;
  mret kaddr.

Definition ssdfs_name_kzalloc (size flags : Z) : kernel pointer :=
  kaddr ← ssdfs_kzalloc cfg kzalloc size flags;
  match kaddr with
  | NULL => mret tt
  | _ =>
      modify (set_memory_leaks (counter_upd atomic64_inc name));;
      SSDFS_DBG cfg "memory %p, allocation count %lld"
  end;;
  mret kaddr.

Definition ssdfs_name_kvzalloc (size flags : Z) : kernel pointer :=
  kaddr ← ssdfs_kvzalloc cfg kvzalloc size flags;
  match kaddr with
  | NULL => mret tt
  | _ =>
      modify (set_memory_leaks (counter_upd atomic64_inc name));;
      SSDFS_DBG cfg "memory %p, allocation count %lld"
  end;;
  mret kaddr.

Definition ssdfs_name_kcalloc (n size flags : Z) : kernel pointer :=
  kaddr ← ssdfs_kcalloc cfg kcalloc n size flags;
  match kaddr with
  | NULL => mret tt
  | _ =>
      modify (set_memory_leaks (counter_upd atomic64_inc name));;
      SSDFS_DBG cfg "memory %p, allocation count %lld"
  end;;
  mret kaddr.

Definition ssdfs_name_kfree (kaddr : pointer) : kernel unit :=
  match kaddr with
  | NULL => mret tt
  | _ =>
      modify (set_memory_leaks (counter_upd atomic64_dec name));;
      SSDFS_DBG cfg "memory %p, allocation count %lld"
  end;;
  ssdfs_kfree cfg kaddr.

Definition ssdfs_name_kvfree (kaddr : pointer) : kernel unit :=
  match kaddr with
  | NULL => mret tt
  | _ =>
      modify (set_memory_leaks (counter_upd atomic64_dec name));;
      SSDFS_DBG cfg "memory %p, allocation count %lld"
  end;;
  ssdfs_kvfree cfg kaddr.

Definition ssdfs_name_alloc_page (gfp_mask : Z) : kernel pointer :=
  page ← ssdfs_alloc_page cfg gfp_mask;
  when (negb (IS_ERR_OR_NULL page)) (
    modify (set_page_leaks (counter_upd atomic64_inc name));;
    SSDFS_DBG cfg "page %p, allocated_pages %lld");;
  mret page.

Definition ssdfs_name_account_page (page : pointer) : kernel unit :=
  match page with
  | NULL => mret tt
  | _ =>
      modify (set_page_leaks (counter_upd atomic64_inc name));;
      SSDFS_DBG cfg "page %p, allocated_pages %lld"
  end.

Definition ssdfs_name_forget_page (page : pointer) : kernel unit :=
  match page with
  | NULL => mret tt
  | _ =>
      modify (set_page_leaks (counter_upd atomic64_dec name));;
      SSDFS_DBG cfg "page %p, allocated_pages %lld"
  end.

Definition ssdfs_name_add_pagevec_page (pvec : option pagevec)
    : kernel (pointer * pagevec) :=
  r ← ssdfs_add_pagevec_page cfg pvec;
  when (negb (IS_ERR_OR_NULL r.1)) (
    modify (set_page_leaks (counter_upd atomic64_inc name));;
    SSDFS_DBG cfg "page %p, allocated_pages %lld");;
  mret r.

Definition ssdfs_name_free_page (page : pointer) : kernel unit :=
  match page with
  | NULL => mret tt
  | _ =>
      modify (set_page_leaks (counter_upd atomic64_dec name));;
      SSDFS_DBG cfg "page %p, allocated_pages %lld"
  end;;
  ssdfs_free_page cfg page.

Fixpoint ssdfs_name_pagevec_release_loop (n : nat) (i : Z) (pv : pagevec)
    : kernel unit :=
  match n with
  | O => mret tt
  | S n' =>
      page ← slot_read pv i;
      match page with
      | NULL => ssdfs_name_pagevec_release_loop n' (i + 1) pv
      | _ =>
          modify (set_page_leaks (counter_upd atomic64_dec name));;
          SSDFS_DBG cfg "page %p, allocated_pages %lld";;
          ssdfs_name_pagevec_release_loop n' (i + 1) pv
      end
  end.

Definition ssdfs_name_pagevec_release (pvec : option pagevec)
    : kernel (option pagevec) :=
  match pvec with
  | None => mret tt
  | Some pv =>
      ssdfs_name_pagevec_release_loop (Z.to_nat (pagevec_count pv)) 0 pv
  end;;
  ssdfs_pagevec_release cfg pvec.

End Fns.
End SSDFS_MEMORY_LEAKS_CHECKER_FNS.

Module SSDFS_MEMORY_ALLOCATOR_FNS.
Section Fns.
Context (cfg : config) (name : string).
Context (kmalloc kzalloc kvzalloc : Z -> Z -> kernel pointer).
Context (kcalloc : Z -> Z -> Z -> kernel pointer).

Definition ssdfs_name_cache_leaks_increment (kaddr : pointer) : kernel unit :=
  ssdfs_memory_leaks_increment cfg kaddr.
Definition ssdfs_name_cache_leaks_decrement (kaddr : pointer) : kernel unit :=
  ssdfs_memory_leaks_decrement cfg kaddr.
Definition ssdfs_name_kmalloc (size flags : Z) : kernel pointer :=
  ssdfs_kmalloc cfg kmalloc size flags.
Definition ssdfs_name_kzalloc (size flags : Z) : kernel pointer :=
  ssdfs_kzalloc cfg kzalloc size flags.
Definition ssdfs_name_kvzalloc (size flags : Z) : kernel pointer :=
  ssdfs_kvzalloc cfg kvzalloc size flags.
Definition ssdfs_name_kcalloc (n size flags : Z) : kernel pointer :=
  ssdfs_kcalloc cfg kcalloc n size flags.
Definition ssdfs_name_kfree (kaddr : pointer) : kernel unit :=
  ssdfs_kfree cfg kaddr.
Definition ssdfs_name_kvfree (kaddr : pointer) : kernel unit :=
  ssdfs_kvfree cfg kaddr.
Definition ssdfs_name_alloc_page (gfp_mask : Z) : kernel pointer :=
  ssdfs_alloc_page cfg gfp_mask.
Definition ssdfs_name_account_page (page : pointer) : kernel unit :=
  ssdfs_account_page page.
Definition ssdfs_name_forget_page (page : pointer) : kernel unit :=
  ssdfs_forget_page page.
Definition ssdfs_name_add_pagevec_page (pvec : option pagevec)
    : kernel (pointer * pagevec) :=
  ssdfs_add_pagevec_page cfg pvec.
Definition ssdfs_name_free_page (page : pointer) : kernel unit :=
  ssdfs_free_page cfg page.
Definition ssdfs_name_pagevec_release (pvec : option pagevec)
    : kernel (option pagevec) :=
  ssdfs_pagevec_release cfg pvec.

End Fns.
End SSDFS_MEMORY_ALLOCATOR_FNS.

(** ** [ssdfs_inline.h]: bounded copy primitives

    Offsets, sizes and lengths are [u32] parameters, so the sums in the
    checks are computed modulo [2 ^ 32].  A raw buffer is given by its
    address and a page by its frame number. *)

(** [memcpy_page], [memcpy_from_page], [memcpy_to_page], [memset_page] and
    [memzero_page] of [linux/highmem.h] map the page and work on its bytes. *)
Definition memcpy_page (dst_page dst_off src_page src_off len : Z)
    : kernel unit :=
  modify (set_memory
    (memcpy (page_address dst_page + dst_off)
            (page_address src_page + src_off) len)).

Definition memcpy_from_page (to page offset len : Z) : kernel unit :=
  modify (set_memory (memcpy to (page_address page + offset) len)).

Definition memcpy_to_page (page offset from len : Z) : kernel unit :=
  modify (set_memory (memcpy (page_address page + offset) from len)).

Definition memset_page (page offset val len : Z) : kernel unit :=
  modify (set_memory (memset (page_address page + offset) val len)).

Definition memzero_page (page offset len : Z) : kernel unit :=
  modify (set_memory (memset (page_address page + offset) 0 len)).

Section BoundedCopy.
Context (cfg : config).

(** The range checks shared by the copy and move wrappers.  The whole
    block, return statements included, is inside [#ifdef
    CONFIG_SSDFS_DEBUG]; [report] is [SSDFS_WARN] or [SSDFS_ERR]. *)
Definition checked_range (report : string -> kernel unit)
    (dst_off dst_size src_off src_size size : Z)
    (body : kernel Z) : kernel Z :=
  if CONFIG_SSDFS_DEBUG cfg then
    if src_size <? u32 (src_off + size) then
      report "src_off %u, size %u, src_size %u";;
      mret (- ERANGE)
    else if dst_size <? u32 (dst_off + size) then
      report "dst_off %u, size %u, dst_size %u";;
      mret (- ERANGE)
    else
      SSDFS_DBG cfg "dst_off %u, dst_size %u, src_off %u, src_size %u";;
      body
  else body.

Definition checked_dst_range (dst_off dst_size set_size : Z)
    (body : kernel Z) : kernel Z :=
  if CONFIG_SSDFS_DEBUG cfg then
    if dst_size <? u32 (dst_off + set_size) then
      SSDFS_ERR "dst_off %u, set_size %u, dst_size %u";;
      mret (- ERANGE)
    else
      SSDFS_DBG cfg "dst_off %u, dst_size %u, set_size %u";;
      body
  else body.

Definition ssdfs_memcpy (dst dst_off dst_size src src_off src_size
                         copy_size : Z) : kernel Z :=
  checked_range SSDFS_WARN dst_off dst_size src_off src_size copy_size (
    modify (set_memory (memcpy (dst + dst_off) (src + src_off) copy_size));;
    mret 0).

Definition ssdfs_memcpy_page (dst_page dst_off dst_size
                              src_page src_off src_size copy_size : Z)
    : kernel Z :=
  checked_range SSDFS_ERR dst_off dst_size src_off src_size copy_size (
    memcpy_page dst_page dst_off src_page src_off copy_size;;
    mret 0).

Definition ssdfs_memcpy_from_page (dst dst_off dst_size
                                   page src_off src_size copy_size : Z)
    : kernel Z :=
  checked_range SSDFS_ERR dst_off dst_size src_off src_size copy_size (
    memcpy_from_page (dst + dst_off) page src_off copy_size;;
    mret 0).

Definition ssdfs_memcpy_to_page (page dst_off dst_size
                                 src src_off src_size copy_size : Z)
    : kernel Z :=
  checked_range SSDFS_ERR dst_off dst_size src_off src_size copy_size (
    memcpy_to_page page dst_off (src + src_off) copy_size;;
    mret 0).

Definition ssdfs_memmove (dst dst_off dst_size src src_off src_size
                          move_size : Z) : kernel Z :=
  checked_range SSDFS_ERR dst_off dst_size src_off src_size move_size (
    modify (set_memory (memmove (dst + dst_off) (src + src_off) move_size));;
    mret 0).

Definition ssdfs_memmove_page (dst_page dst_off dst_size
                               src_page src_off src_size move_size : Z)
    : kernel Z :=
  checked_range SSDFS_ERR dst_off dst_size src_off src_size move_size (
    memcpy_page dst_page dst_off src_page src_off move_size;;
    mret 0).

Definition ssdfs_memset_page (page dst_off dst_size value set_size : Z)
    : kernel Z :=
  checked_dst_range dst_off dst_size set_size (
    memset_page page dst_off value set_size;;
    mret 0).

Definition ssdfs_memzero_page (page dst_off dst_size set_size : Z)
    : kernel Z :=
  checked_dst_range dst_off dst_size set_size (
    memzero_page page dst_off set_size;;
    mret 0).

End BoundedCopy.

(** ** [ssdfs_inline.h]: checksum and signature *)

(** [crc32_le] of [lib/crc32.c], bit by bit, without final inversion. *)
Definition CRCPOLY_LE : Z := 0xedb88320.

Definition crc32_le_bit (crc : Z) : Z :=
  Z.lxor (Z.shiftr crc 1) (if Z.testbit crc 0 then CRCPOLY_LE else 0).

Definition crc32_le_byte (crc : Z) (b : Z) : Z :=
  Nat.iter 8 crc32_le_bit (Z.lxor crc (u8 b)).

Definition crc32_le (crc : Z) (p : list Z) : Z := fold_left crc32_le_byte p crc.

(** The [n] bytes of memory that start at address [a]. *)
Definition read_bytes (m : Z -> Z) (a : Z) (n : nat) : list Z :=
  map (fun j => m (a + Z.of_nat j)) (seq 0 n).

(** [crc32(seed, data, len)] runs [crc32_le] over the [len] bytes at
    [data]; no byte is read when [len] is 0. *)
Definition crc32 (seed : Z) (data : pointer) (len : Z) : kernel Z :=
  if len =? 0 then mret seed
  else
    a ← deref data;
    st ← get_state;
    mret (crc32_le seed (read_bytes (memory st) a (Z.to_nat len))).

(** On-disk fields lie in memory least significant byte first.  A load
    yields the number that the bytes of the field encode and a store writes
    the bytes of a number, so the byte-order conversions are the identity
    on what is loaded and stored. *)
Definition cpu_to_le32 (x : Z) : Z := x.
Definition le16_to_cpu (x : Z) : Z := x.
Definition le32_to_cpu (x : Z) : Z := x.

Definition get_le16 (m : Z -> Z) (a : Z) : Z :=
  u8 (m a) + 2 ^ 8 * u8 (m (a + 1)).

Definition get_le32 (m : Z -> Z) (a : Z) : Z :=
  u8 (m a) + 2 ^ 8 * u8 (m (a + 1)) + 2 ^ 16 * u8 (m (a + 2))
  + 2 ^ 24 * u8 (m (a + 3)).

Definition put_le32 (a v : Z) (m : Z -> Z) : Z -> Z :=
  fun q => if (a <=? q) && (q <? a + 4)
           then u8 (Z.shiftr v (8 * (q - a))) else m q.

Definition load_le16 (a : Z) : kernel Z :=
  st ← get_state; mret (get_le16 (memory st) a).
Definition load_le32 (a : Z) : kernel Z :=
  st ← get_state; mret (get_le32 (memory st) a).
Definition store_le32 (a v : Z) : kernel unit :=
  modify (set_memory (put_le32 a v)).

(** [struct ssdfs_metadata_check] of [ssdfs_fs.h]: [__le16 bytes],
    [__le16 flags], [__le32 csum], eight bytes that lie inside the on-disk
    structure they protect.  The record type is what is read of it;
    [bytes_of], [flags_of] and [csum_of] are the addresses of the fields
    of the record at [check]. *)
Record ssdfs_metadata_check : Type := MetadataCheck {
  bytes : Z;
  flags : Z;
  csum : Z
}.

Global Instance ssdfs_metadata_check_eq_dec : EqDecision ssdfs_metadata_check.
Proof. solve_decision. Defined.

Definition set_csum (c : Z) (check : ssdfs_metadata_check)
    : ssdfs_metadata_check :=
  MetadataCheck (bytes check) (flags check) c.

Definition bytes_of (check : Z) : Z := check + 0.
Definition flags_of (check : Z) : Z := check + 2.
Definition csum_of (check : Z) : Z := check + 4.

(** [struct ssdfs_signature] with its [struct ssdfs_revision]. *)
Record ssdfs_revision : Type := Revision { major : Z; minor : Z }.
Record ssdfs_signature : Type := Signature {
  common : Z;
  key : Z;
  version : ssdfs_revision
}.

Section OnDisk.
(** The constants below are defined in [ssdfs_fs.h]; the functions are
    parametric in them. *)
Context (cfg : config).
Context (SSDFS_CRC32 : Z).
Context (SSDFS_SUPER_MAGIC SSDFS_MAJOR_REVISION SSDFS_MINOR_REVISION : Z).

Definition ssdfs_crc32_le (data : pointer) (len : Z) : kernel Z :=
  c ← crc32 (u32 (Z.lnot 0)) data len; mret (cpu_to_le32 c).

(** The record is in memory, at [check]; it may lie inside the bytes at
    [buf] that the checksum covers. *)
Definition ssdfs_calculate_csum (check buf : pointer) (buf_size : Z)
    : kernel Z :=
  ifdef_DEBUG cfg (
    BUG_ON (bool_decide (check = NULL) || bool_decide (buf = NULL))
           "BUG_ON(!check || !buf)");;
  chk ← deref check;
  bytes ← load_le16 (bytes_of chk);
  flags ← load_le16 (flags_of chk);
  if buf_size <? le16_to_cpu bytes then
    SSDFS_ERR "corrupted size %d of checked data";;
    mret (- EINVAL)
  else if negb (Z.land (le16_to_cpu flags) SSDFS_CRC32 =? 0) then
    store_le32 (csum_of chk) 0;;
    c ← ssdfs_crc32_le buf (le16_to_cpu bytes);
    store_le32 (csum_of chk) c;;
    mret 0
  else
    SSDFS_ERR "unknown flags set %#x";;
    mret (- EINVAL).

Definition is_csum_valid (check buf : pointer) (buf_size : Z) : kernel bool :=
  ifdef_DEBUG cfg (BUG_ON (bool_decide (check = NULL)) "BUG_ON(!check)");;
  chk ← deref check;
  old_csum ← load_le32 (csum_of chk);
  err ← ssdfs_calculate_csum check buf buf_size;
  if negb (err =? 0) then
    SSDFS_ERR "fail to calculate checksum";;
    mret false
  else
    calc_csum ← load_le32 (csum_of chk);
    store_le32 (csum_of chk) old_csum;;
    if negb (old_csum =? calc_csum) then
      SSDFS_ERR "old_csum %#x != calc_csum %#x";;
      mret false
    else mret true.

Definition is_ssdfs_magic_valid (magic : option ssdfs_signature)
    : kernel bool :=
  ifdef_DEBUG cfg (BUG_ON (bool_decide (magic = None)) "BUG_ON(!magic)");;
  m ← deref_obj magic;
  if negb (le32_to_cpu (common m) =? SSDFS_SUPER_MAGIC) then mret false
  else if (SSDFS_MAJOR_REVISION <? major (version m))
          || (SSDFS_MINOR_REVISION <? minor (version m)) then
    SSDFS_INFO "Volume has unsupported %u.%u version. Driver expects %u.%u version.";;
    mret false
  else mret true.

End OnDisk.

(** ** [ssdfs_inline.h]: mount options

    [SSDFS_MOUNT_<opt>] is [1 << k]; [ssdfs_set_opt] and [ssdfs_clear_opt]
    assign to their first argument, so they return its new value. *)

Inductive mount_opt : Type :=
| COMPR_MODE_NONE | COMPR_MODE_ZLIB | COMPR_MODE_LZO
| ERRORS_CONT | ERRORS_RO | ERRORS_PANIC
| IGNORE_FS_STATE.

Definition SSDFS_MOUNT (opt : mount_opt) : Z :=
  match opt with
  | COMPR_MODE_NONE => Z.shiftl 1 0
  | COMPR_MODE_ZLIB => Z.shiftl 1 1
  | COMPR_MODE_LZO => Z.shiftl 1 2
  | ERRORS_CONT => Z.shiftl 1 3
  | ERRORS_RO => Z.shiftl 1 4
  | ERRORS_PANIC => Z.shiftl 1 5
  | IGNORE_FS_STATE => Z.shiftl 1 6
  end.

Definition ssdfs_clear_opt (o : Z) (opt : mount_opt) : Z :=
  Z.land o (Z.lnot (SSDFS_MOUNT opt)).
Definition ssdfs_set_opt (o : Z) (opt : mount_opt) : Z :=
  Z.lor o (SSDFS_MOUNT opt).
Definition ssdfs_test_opt (o : Z) (opt : mount_opt) : Z :=
  Z.land o (SSDFS_MOUNT opt).

(** ** [ssdfs_inline.h]: physical pages and memory pages

    [pgoff_t] is [unsigned long], 64 bits wide here.  A shift by the width
    or more is undefined in C; the functions below are stated for shift
    counts below the width. *)

Definition BITS_PER_LONG : Z := 64.
Definition ulong (z : Z) : Z := z mod 2 ^ BITS_PER_LONG.
Definition U32_MAX : Z := 2 ^ 32 - 1.
Definition U64_MAX : Z := 2 ^ 64 - 1.

(** The fields of [struct ssdfs_fs_info] that the conversions read. *)
Record ssdfs_fs_info : Type := FsInfo {
  log_pagesize : Z;
  pagesize : Z
}.

Section PageUnits.
Context (cfg : config).

Definition ssdfs_phys_page_to_mem_page_count (fsi : ssdfs_fs_info)
    (phys_page_count : Z) : kernel Z :=
  let bytes_count := u64 (u64 (pagesize fsi) * phys_page_count) in
  let mem_page_count := Z.shiftr bytes_count PAGE_SHIFT in
  ifdef_DEBUG cfg (
    BUG_ON (U32_MAX <=? mem_page_count) "BUG_ON(mem_page_count >= U32_MAX)");;
  mret (u32 mem_page_count).

Definition ssdfs_mem_page_to_phys_page_count (fsi : ssdfs_fs_info)
    (mem_page_count : Z) : kernel Z :=
  let bytes_count := u64 (u64 PAGE_SIZE * mem_page_count) in
  let phys_page_count := Z.shiftr bytes_count (log_pagesize fsi) in
  ifdef_DEBUG cfg (
    BUG_ON (U32_MAX <=? phys_page_count)
           "BUG_ON(phys_page_count >= U32_MAX)");;
  mret (u32 phys_page_count).

End PageUnits.

Definition ssdfs_phys_page_to_mem_page (fsi : ssdfs_fs_info) (index : Z) : Z :=
  if log_pagesize fsi =? PAGE_SHIFT then index
  else if PAGE_SHIFT <? log_pagesize fsi then
    ulong (Z.shiftl index (log_pagesize fsi - PAGE_SHIFT))
  else Z.shiftr index (PAGE_SHIFT - log_pagesize fsi).

Definition ssdfs_mem_page_to_phys_page (fsi : ssdfs_fs_info) (index : Z) : Z :=
  if log_pagesize fsi =? PAGE_SHIFT then index
  else if PAGE_SHIFT <? log_pagesize fsi then
    Z.shiftr index (log_pagesize fsi - PAGE_SHIFT)
  else ulong (Z.shiftl index (PAGE_SHIFT - log_pagesize fsi)).

Definition SSDFS_MEMPAGE2BYTES (index : Z) : Z :=
  ulong (Z.shiftl (ulong index) PAGE_SHIFT).
Definition SSDFS_BYTES2MEMPAGE (offset : Z) : Z :=
  Z.shiftr (ulong offset) PAGE_SHIFT.

(** [start_page] is a [u16] and [write_offset] a [u32]; the local
    [page_off] is a [u32], so both assignments to it truncate. *)
Definition ssdfs_write_offset_to_mem_page_index (fsi : ssdfs_fs_info)
    (start_page write_offset : Z) : Z :=
  let page_off := u32 (ssdfs_phys_page_to_mem_page fsi start_page) in
  let page_off := u32 (ulong (SSDFS_MEMPAGE2BYTES page_off + write_offset)) in
  SSDFS_BYTES2MEMPAGE page_off.

(** ** [ssdfs_inline.h]: pages of one extent *)

(** What [can_be_merged_into_extent] reads of a page: the inode number of
    [page->mapping->host] (a page without mapping has none),
    [page_index(page)] and the flag [PG_checked]. *)
Record cached_page : Type := CachedPage {
  host_i_ino : option Z;
  page_index : Z;
  PG_checked : bool
}.

Definition PageChecked (page : cached_page) : bool := PG_checked page.

Definition can_be_merged_into_extent (page1 page2 : cached_page)
    : kernel bool :=
  ino1 ← deref_obj (host_i_ino page1);
  ino2 ← deref_obj (host_i_ino page2);
  let index1 := page_index page1 in
  let index2 := page_index page2 in
  let has_identical_type :=
    (PageChecked page1 && PageChecked page2)
    || (negb (PageChecked page1) && negb (PageChecked page2)) in
  let has_identical_ino := ino1 =? ino2 in
  let diff_index :=
    if index2 <=? index1 then ulong (index1 - index2)
    else ulong (index2 - index1) in
  mret (has_identical_type && has_identical_ino && (diff_index =? 1)).

(** ** [ssdfs_inline.h]: name hash *)

Section NameHash.
Context (cfg : config).
(** [full_name_hash] of [fs/namei.c] called with a null salt, as a function
    of the bytes it is given (it takes their number as an [unsigned int]),
    and [SSDFS_NAME_HASH] of [ssdfs_fs.h]. *)
Context (full_name_hash : list Z -> Z).
Context (SSDFS_NAME_HASH : Z -> Z -> Z).

(** The loop [for (i = 1; i < len; i++)] over the name at address [name],
    for the [n] indices that remain below [len]; [i] is an [int] and
    [hash32_hi] and [diff] are [u32]. *)
Fixpoint ssdfs_generate_name_hash_loop (n : nat) (i : Z) (name : Z)
    (hash32_hi : Z) : kernel Z :=
  match n with
  | O => mret hash32_hi
  | S n' =>
      st ← get_state;
      let symbol1 := u8 (memory st (name + (i - 1))) in
      let symbol2 := u8 (memory st (name + i)) in
      let diff :=
        if symbol2 <? symbol1 then u32 (symbol1 - symbol2)
        else u32 (symbol2 - symbol1) in
      let hash32_hi := u32 (hash32_hi + u32 (diff * symbol1)) in
      ifdef_DEBUG cfg (
        SSDFS_DBG cfg "hash32_hi %x, symbol1 %x, symbol2 %x, index %d, diff %u");;
      ssdfs_generate_name_hash_loop n' (i + 1) name hash32_hi
  end.

Definition __ssdfs_generate_name_hash (name : pointer)
    (len inline_name_max_len : Z) : kernel Z :=
  ifdef_DEBUG cfg (
    BUG_ON (bool_decide (name = NULL)) "BUG_ON(!name)";;
    SSDFS_DBG cfg "name %s, len %zu, inline_name_max_len %zu");;
  if len =? 0 then
    SSDFS_ERR "invalid len %zu";;
    mret U64_MAX
  else
    let copy_len := Z.min len inline_name_max_len in
    a ← deref name;
    st ← get_state;
    let hash32_lo :=
      u32 (full_name_hash
             (read_bytes (memory st) a (Z.to_nat (u32 copy_len)))) in
    hash32_hi ←
      (if len <=? inline_name_max_len then
         ssdfs_generate_name_hash_loop (Z.to_nat (len - 1)) 1 a (u32 len)
       else
         mret (u32 (full_name_hash
                      (read_bytes (memory st) (a + inline_name_max_len)
                                  (Z.to_nat (u32 (len - copy_len)))))));
    let name_hash := SSDFS_NAME_HASH hash32_lo hash32_hi in
    ifdef_DEBUG cfg (SSDFS_DBG cfg "name %s, len %zu, name_hash %llx");;
    mret name_hash.

End NameHash.

(** ** Page vector ([page_vector.h])

    The header declares the API of [struct ssdfs_page_vector]; the bodies
    are in [page_vector.c]. *)

Module page_vector.

(** Modelled from the spec: the error kinds that the page vector operations
    return, as section 7 of the design document names them (the return
    statements are in [page_vector.c]). *)
Inductive error : Type :=
| OutOfMemory | CapacityExceeded | IndexOutOfRange | InvalidArgument.

(** [struct ssdfs_page_vector]: [u8 count], [u8 capacity] and the slot
    array. *)
Record ssdfs_page_vector : Type := PageVector {
  count : Z;
  capacity : Z;
  pages : list pointer
}.

(** Modelled from the spec: the body of [ssdfs_page_vector_create] is in
    [page_vector.c].  The capacity must be in 1..255, else
    [InvalidArgument]; the slot array has exactly [capacity] slots and
    [count] is 0; [OutOfMemory] when the slot array cannot be allocated
    ([slots_allocated] tells whether the allocation succeeds). *)
Definition ssdfs_page_vector_create (capacity : Z) (slots_allocated : bool)
    : error + ssdfs_page_vector :=
  if (1 <=? capacity) && (capacity <=? 255) then
    if slots_allocated
    then inr (PageVector 0 capacity (replicate (Z.to_nat capacity) NULL))
    else inl OutOfMemory
  else inl InvalidArgument.

(** Modelled from the spec: [ssdfs_page_vector_count] returns the current
    occupancy and [ssdfs_page_vector_space] returns capacity - count. *)
Definition ssdfs_page_vector_count (array : ssdfs_page_vector) : Z :=
  count array.
Definition ssdfs_page_vector_space (array : ssdfs_page_vector) : Z :=
  capacity array - count array.

(** Modelled from the spec: the body of [ssdfs_page_vector_add] is in
    [page_vector.c].  It requires count < capacity, places the handle at
    slot [count] and then increments [count]; a full vector gives
    [CapacityExceeded] and is left as it was. *)
Definition ssdfs_page_vector_add (array : ssdfs_page_vector)
    (page : pointer) : option error * ssdfs_page_vector :=
  if count array <? capacity array then
    (None, PageVector (count array + 1) (capacity array)
                      (<[Z.to_nat (count array) := page]> (pages array)))
  else (Some CapacityExceeded, array).

(** The handles that the vector owns: those of the slots below [count]. *)
Definition owned (array : ssdfs_page_vector) : list pointer :=
  take (Z.to_nat (count array)) (pages array).

(** Modelled from the spec: the body of [ssdfs_page_vector_allocate] is in
    [page_vector.c].  It acquires a zero-filled page and attempts [add];
    when [add] fails the page is freed before the error is returned.
    [OutOfMemory] when the acquisition fails. *)
Definition ssdfs_page_vector_allocate (cfg : config)
    (array : ssdfs_page_vector)
    : kernel ((error + pointer) * ssdfs_page_vector) :=
  page ← ssdfs_alloc_page cfg (Z.lor GFP_KERNEL __GFP_ZERO);
  if IS_ERR_OR_NULL page then mret (inl OutOfMemory, array)
  else
    let '(e, array') := ssdfs_page_vector_add array page in
    match e with
    | Some err => ssdfs_free_page cfg page;; mret (inl err, array)
    | None => mret (inr page, array')
    end.

(** A vector as the operations keep it: the count within the capacity and
    one slot per unit of capacity. *)
Definition wf (v : ssdfs_page_vector) : Prop :=
  0 <= count v <= capacity v
  /\ length (pages v) = Z.to_nat (capacity v).

(** The vector after a sequence of [add] calls, whether they succeed or
    not. *)
Definition add_all (v : ssdfs_page_vector) (hs : list pointer)
    : ssdfs_page_vector :=
  fold_left (fun v h => (ssdfs_page_vector_add v h).2) hs v.

End page_vector.

(** * Vocabulary of the statements *)

Module CHK := SSDFS_MEMORY_LEAKS_CHECKER_FNS.

Definition is_u32 (c : Z) : Prop := 0 <= c < 2 ^ 32.
Definition is_s64 (c : Z) : Prop := - 2 ^ 63 <= c < 2 ^ 63.

(** A state to run examples in: memory holds the low byte of each address,
    no page is in use, the allocator holds [frames], the counters are 0. *)
Definition sample_state (frames : list Z) : kstate :=
  KState (fun a => u8 a) (fun _ => Page 0 false) frames [] 0 0 0 ∅ ∅ [].

(** State changes that the statements name. *)
Definition log_err (msg : string) (st : kstate) : kstate :=
  set_klog (fun l => l ++ [(KERN_ERR, msg)]) st.

Definition log_when (b : bool) (lvl : loglevel) (msg : string) (st : kstate)
    : kstate :=
  set_klog (fun l => l ++ (if b then [(lvl, msg)] else [])) st.

Definition free_when (b : bool) (p : Z) (st : kstate) : kstate :=
  set_free_area (fun l => (if b then [p] else []) ++ l) st.

Definition debug_note (cfg : config) (msg : string) (st : kstate) : kstate :=
  log_when (CONFIG_SSDFS_DEBUG cfg) KERN_DEBUG msg st.

(** [st'] differs from [st] in the log at most: no frame left or joined the
    allocator, no page, byte or counter changed. *)
Definition same_but_log (st st' : kstate) : Prop :=
  free_area st' = free_area st
  /\ mem_map st' = mem_map st
  /\ memory st' = memory st
  /\ slab_objs st' = slab_objs st
  /\ ssdfs_allocated_pages st' = ssdfs_allocated_pages st
  /\ ssdfs_memory_leaks st' = ssdfs_memory_leaks st
  /\ page_leaks st' = page_leaks st
  /\ memory_leaks st' = memory_leaks st
  /\ ssdfs_locked_pages st' = ssdfs_locked_pages st.

(** The value returned by a call that hands back a pair. *)
Definition retval {A B : Type} (o : outcome (A * B)) : option A :=
  match o with
  | Done r _ => Some r.1
  | Oops _ => None
  | Sleeps _ => None
  end.

(** A log record that is a diagnostic: a warning or a debug message. *)
Definition diagnostic (e : loglevel * string) : Prop :=
  e.1 = KERN_WARNING \/ e.1 = KERN_DEBUG.

Definition is_warning (e : loglevel * string) : Prop := e.1 = KERN_WARNING.

(** The signatures that a driver for [MAGIC], [MAJOR] and [MINOR]
    supports. *)
Definition supported (MAGIC MAJOR MINOR : Z) (m : ssdfs_signature) : Prop :=
  common m = MAGIC /\ major (version m) <= MAJOR /\ minor (version m) <= MINOR.

(** The CRC32, seeded with [~0], of the [len] bytes of [m] at [a]. *)
Definition crc_of (m : Z -> Z) (a len : Z) : Z :=
  crc32_le (u32 (Z.lnot 0)) (read_bytes m a (Z.to_nat len)).

(** The value that a call returns. *)
Definition result {A : Type} (o : outcome A) : option A :=
  match o with
  | Done r _ => Some r
  | _ => None
  end.

(** The check record that memory [m] holds at [check]. *)
Definition metadata_check_at (m : Z -> Z) (check : Z) : ssdfs_metadata_check :=
  MetadataCheck (get_le16 m (bytes_of check)) (get_le16 m (flags_of check))
                (get_le32 m (csum_of check)).

(** The state in which the checksum field of the record at [check] has been
    set to [c]. *)
Definition with_csum (check c : Z) (st : kstate) : kstate :=
  set_memory (put_le32 (csum_of check) c) st.

(** The checksum of the record at [check] over the buffer at [a]: the CRC32
    of the declared length of the buffer, read with the checksum field of
    the record set to 0. *)
Definition covered_crc (m : Z -> Z) (check a : Z) : Z :=
  crc_of (put_le32 (csum_of check) 0 m) a (bytes (metadata_check_at m check)).

(** [q] is one of the four bytes of the checksum field of the record at
    [check]. *)
Definition in_csum (check q : Z) : Prop :=
  csum_of check <= q < csum_of check + 4.

(** The checksum field of the record at [check] lies outside the [len]
    bytes at [a]. *)
Definition csum_outside (check a len : Z) : Prop :=
  csum_of check + 4 <= a \/ a + len <= csum_of check.

(** Every cell of [m'] is the cell of [m], or it belongs to the checksum
    field of the record at [check] and holds the byte that the cell of [m]
    holds. *)
Definition bytes_kept (m m' : Z -> Z) (check : Z) : Prop :=
  forall q, m' q = m q \/ (in_csum check q /\ m' q = u8 (m q)).

(** A state whose memory holds the bytes of [image] from address 0 on, and
    0 elsewhere. *)
Definition image_memory (image : list Z) : Z -> Z :=
  fun q => if q <? 0 then 0 else nth (Z.to_nat q) image 0.

Definition image_state (image : list Z) : kstate :=
  set_memory (fun _ => image_memory image) (sample_state []).

(** What a refused copy leaves behind: the error code and a state that
    differs from the initial one by one log record at most. *)
Definition refused (o : outcome Z) (st : kstate) : Prop :=
  exists st', o = Done (- ERANGE) st'
              /\ memory st' = memory st
              /\ set_klog (fun _ => klog st) st' = st.

Definition zero_filled (st : kstate) (p : Z) : Prop :=
  forall off, 0 <= off < PAGE_SIZE -> memory st (page_address p + off) = 0.

(** A [struct pagevec] as the kernel keeps it. *)
Definition pagevec_wf (pv : pagevec) : Prop :=
  0 <= nr pv <= PAGEVEC_SIZE /\ length (pages pv) = Z.to_nat PAGEVEC_SIZE.

(** What a call that adds a fresh page to [pv] in state [st] leaves when it
    returns [r], the vector [pv'] and the state [st']: on success the page
    came from the allocator and sits in the slot that was the first free
    one; on failure the error is [-ENOMEM] (no frame available) or [-E2BIG]
    (vector full), the vector is as it was and the state differs in the log
    at most. *)
Definition add_outcome (pv : pagevec) (st : kstate) (r : pointer)
    (pv' : pagevec) (st' : kstate) : Prop :=
  match r with
  | Addr p =>
      nr pv < PAGEVEC_SIZE
      /\ free_area st = p :: free_area st'
      /\ pv' = PageVec (nr pv + 1) (<[Z.to_nat (nr pv) := Addr p]> (pages pv))
  | ERR_PTR e =>
      (e = - ENOMEM /\ nr pv < PAGEVEC_SIZE /\ free_area st = []
       \/ e = - E2BIG /\ nr pv = PAGEVEC_SIZE)
      /\ pv' = pv
      /\ same_but_log st st'
  | NULL => False
  end.

(** Free the pages of a list, first to last. *)
Fixpoint free_all (cfg : config) (l : list pointer) : kernel unit :=
  match l with
  | [] => mret tt
  | p :: l' => ssdfs_free_page cfg p;; free_all cfg l'
  end.

Definition non_null (l : list pointer) : list pointer :=
  filter (fun p => p ≠ NULL) l.

(** ** Vocabulary of the further properties *)

(** [st'] is [st] with debug messages added to the log, if any: no error
    and no warning was written. *)
Definition debug_only (st st' : kstate) : Prop :=
  exists added, klog st' = klog st ++ added
                /\ Forall (fun e => e.1 = KERN_DEBUG) added.

(** The contract of a slab allocation: it fails, returning null and
    changing nothing, or it returns the address of an object that was not
    live, which becomes live; it may have written to memory (the zeroing
    variants do). *)
Definition slab_allocation (alloc : kernel pointer) : Prop :=
  forall st,
    alloc st = Done NULL st
    \/ exists a m,
         (a ∉ slab_objs st)
         /\ alloc st = Done (Addr a)
                         (set_slab_objs (cons a)
                            (set_memory (fun _ => m) st)).

(** An allocator for examples: the new object follows every live one. *)
Definition bump_allocator : kernel pointer := fun st =>
  Done (Addr (1 + foldr Z.max 0 (slab_objs st)))
       (set_slab_objs (cons (1 + foldr Z.max 0 (slab_objs st)))
          (set_memory (fun _ => memory st) st)).

(** An allocation [alloc] and the release [free] of its result, run one
    after the other from [st]: a failed allocation changes nothing; a
    successful one counts one object in an accounting build; and after
    the release the live objects and the counter are what they were. *)
Definition alloc_free_balanced (cfg : config) (alloc : kernel pointer)
    (free : pointer -> kernel unit) (st : kstate) : Prop :=
  exists r st1 st2,
    alloc st = Done r st1
    /\ free r st1 = Done tt st2
    /\ (r = NULL -> st1 = st)
    /\ (r <> NULL ->
        ssdfs_memory_leaks st1
        = if CONFIG_SSDFS_MEMORY_LEAKS_ACCOUNTING cfg
          then atomic64_inc (ssdfs_memory_leaks st)
          else ssdfs_memory_leaks st)
    /\ slab_objs st2 = slab_objs st
    /\ ssdfs_memory_leaks st2 = ssdfs_memory_leaks st.

(** The same for the wrappers of subsystem [name], which count in
    [ssdfs_<name>_memory_leaks] in every build. *)
Definition subsystem_alloc_free_balanced (name : string)
    (alloc : kernel pointer) (free : pointer -> kernel unit) (st : kstate)
    : Prop :=
  exists r st1 st2,
    alloc st = Done r st1
    /\ free r st1 = Done tt st2
    /\ (r = NULL -> st1 = st)
    /\ (r <> NULL ->
        counter name (memory_leaks st1)
        = atomic64_inc (counter name (memory_leaks st)))
    /\ slab_objs st2 = slab_objs st
    /\ ssdfs_memory_leaks st2 = ssdfs_memory_leaks st
    /\ counter name (memory_leaks st2) = counter name (memory_leaks st)
    /\ (forall other, other <> name ->
        counter other (memory_leaks st2) = counter other (memory_leaks st)).

(** What one regular step of the page lifecycle does to the state: the
    page [p] is left with [count] references and unlocked, every other
    page is as it was, the page counter moved by [delta] in an accounting
    build, the subsystem counters did not move, and only debug messages
    were written. *)
Definition page_step (cfg : config) (st st' : kstate) (p count delta : Z)
    : Prop :=
  mem_map st' p = Page count false
  /\ (forall q, q <> p -> mem_map st' q = mem_map st q)
  /\ ssdfs_allocated_pages st'
     = (if CONFIG_SSDFS_MEMORY_LEAKS_ACCOUNTING cfg
        then s64 (ssdfs_allocated_pages st + delta)
        else ssdfs_allocated_pages st)
  /\ page_leaks st' = page_leaks st
  /\ debug_only st st'.

(** [n] calls of [ssdfs_add_pagevec_page], each on the vector that the
    call before it left. *)
Fixpoint add_pages (cfg : config) (n : nat) (pv : pagevec) : kernel pagevec :=
  match n with
  | O => mret pv
  | S n' => r ← ssdfs_add_pagevec_page cfg (Some pv); add_pages cfg n' r.2
  end.

(** Where [k] successful additions of a page to the vector [PageVec 0 slots]
    lead from the state [st]: the vector holds the first [k] frames of the
    allocator of [st], which left the allocator and have two references
    each. *)
Definition filled_to (cfg : config) (slots : list pointer) (st : kstate)
    (k : nat) (pv : pagevec) (st' : kstate) : Prop :=
  pv = PageVec (Z.of_nat k)
               (map Addr (take k (free_area st)) ++ drop k slots)
  /\ free_area st' = drop k (free_area st)
  /\ (forall p, p ∈ take k (free_area st) -> mem_map st' p = Page 2 false)
  /\ ssdfs_allocated_pages st'
     = (if CONFIG_SSDFS_MEMORY_LEAKS_ACCOUNTING cfg
        then s64 (ssdfs_allocated_pages st + Z.of_nat k)
        else ssdfs_allocated_pages st)
  /\ debug_only st st'.

(** [n] calls of [ssdfs_<name>_add_pagevec_page], each on the vector that
    the call before it left. *)
Fixpoint add_pages_of (cfg : config) (name : string) (n : nat) (pv : pagevec)
    : kernel pagevec :=
  match n with
  | O => mret pv
  | S n' =>
      r ← CHK.ssdfs_name_add_pagevec_page cfg name (Some pv);
      add_pages_of cfg name n' r.2
  end.

(** [filled_to] for the additions of subsystem [name], which count the
    [k] pages in [ssdfs_<name>_page_leaks] as well. *)
Definition filled_to_of (cfg : config) (name : string) (slots : list pointer)
    (st : kstate) (k : nat) (pv : pagevec) (st' : kstate) : Prop :=
  filled_to cfg slots st k pv st'
  /\ counter name (page_leaks st')
     = s64 (counter name (page_leaks st) + Z.of_nat k)
  /\ (forall other, other <> name ->
      counter other (page_leaks st') = counter other (page_leaks st)).

(** [st'] is [st] but for the counter [ssdfs_<name>_page_leaks], which
    holds [c], and for debug messages added to the log. *)
Definition page_leaks_set (name : string) (c : Z) (st st' : kstate) : Prop :=
  counter name (page_leaks st') = c
  /\ (forall other, other <> name ->
      counter other (page_leaks st') = counter other (page_leaks st))
  /\ same_but_log (set_page_leaks (fun _ => page_leaks st') st) st'
  /\ debug_only st st'.

(** Memory [m'] is memory [m] after the [n] bytes at [src] were copied to
    [dst]: the destination holds what the source held, every other byte is
    as it was. *)
Definition copied (m m' : Z -> Z) (dst src n : Z) : Prop :=
  (forall i, 0 <= i < n -> m' (dst + i) = m (src + i))
  /\ (forall a, ~ (dst <= a < dst + n) -> m' a = m a).

(** Memory [m'] is memory [m] after the [n] bytes at [dst] were set to the
    byte [v]. *)
Definition filled (m m' : Z -> Z) (dst v n : Z) : Prop :=
  (forall i, 0 <= i < n -> m' (dst + i) = v)
  /\ (forall a, ~ (dst <= a < dst + n) -> m' a = m a).

(** Two ranges of [n] bytes that do not overlap. *)
Definition ranges_apart (a b n : Z) : Prop := a + n <= b \/ b + n <= a.

(** [st'] differs from [st] in memory and in the log at most. *)
Definition same_but_memory_and_log (st st' : kstate) : Prop :=
  same_but_log st (set_memory (fun _ => memory st) st').

(** What an in-range copy of [n] bytes from [s] to [d] returns, and what
    an in-range fill of [n] bytes at [d] with the byte [v] returns. *)
Definition copy_done (o : outcome Z) (st : kstate) (d s n : Z) : Prop :=
  exists st', o = Done 0 st'
              /\ copied (memory st) (memory st') d s n
              /\ same_but_memory_and_log st st'.

Definition fill_done (o : outcome Z) (st : kstate) (d v n : Z) : Prop :=
  exists st', o = Done 0 st'
              /\ filled (memory st) (memory st') d v n
              /\ same_but_memory_and_log st st'.

(** The bit that stands for a mount option. *)
Definition mount_opt_bit (opt : mount_opt) : Z :=
  match opt with
  | COMPR_MODE_NONE => 0 | COMPR_MODE_ZLIB => 1 | COMPR_MODE_LZO => 2
  | ERRORS_CONT => 3 | ERRORS_RO => 4 | ERRORS_PANIC => 5
  | IGNORE_FS_STATE => 6
  end.

(** Two pages that one extent can hold: both of the same kind, of the same
    inode, at neighbouring indices. *)
Definition mergeable (page1 page2 : cached_page) : Prop :=
  PG_checked page1 = PG_checked page2
  /\ host_i_ino page1 = host_i_ino page2
  /\ (page_index page1 = page_index page2 + 1
      \/ page_index page2 = page_index page1 + 1).

(** The sum that the name hash takes over the neighbouring bytes of a
    name: each step from a byte to the next one weighs the distance
    between the two times the first. *)
Fixpoint symbol_steps (l : list Z) : Z :=
  match l with
  | a :: t =>
      match t with
      | b :: _ => Z.abs (a - b) * a + symbol_steps t
      | [] => 0
      end
  | [] => 0
  end.

(** The bytes of a name, as [unsigned char]. *)
Definition name_bytes (m : Z -> Z) (a len : Z) : list Z :=
  map u8 (read_bytes m a (Z.to_nat len)).

(** * Properties *)

(** ** Running monadic code *)

Lemma bind_run {A B : Type} (m : kernel A) (f : A -> kernel B) (st : kstate) :
  (m ≫= f) st = match m st with
                | Done a st' => f a st'
                | Oops why => Oops why
                | Sleeps on => Sleeps on
                end.
Proof. reflexivity. Qed.

Lemma ret_run {A : Type} (a : A) (st : kstate) :
  (mret a : kernel A) st = Done a st.
Proof. reflexivity. Qed.

Lemma when_run (b : bool) (m : kernel unit) (st : kstate) :
  when b m st = if b then m st else Done tt st.
Proof. destruct b; reflexivity. Qed.

Ltac run :=
  repeat first
    [ rewrite bind_run
    | rewrite ret_run
    | rewrite when_run
    | progress cbn [deref_obj deref fst snd negb orb andb] ].

Ltac bool_hyps :=
  repeat match goal with
  | H : (_ <? _) = true |- _ => apply Z.ltb_lt in H
  | H : (_ <? _) = false |- _ => apply Z.ltb_ge in H
  | H : (_ <=? _) = true |- _ => apply Z.leb_le in H
  | H : (_ <=? _) = false |- _ => apply Z.leb_gt in H
  | H : (_ =? _) = true |- _ => apply Z.eqb_eq in H
  | H : (_ =? _) = false |- _ => apply Z.eqb_neq in H
  | H : negb _ = true |- _ => apply negb_true_iff in H
  | H : negb _ = false |- _ => apply negb_false_iff in H
  | H : (_ || _) = true |- _ => apply orb_true_iff in H
  | H : (_ || _) = false |- _ => apply orb_false_iff in H; destruct H
  | H : (_ && _) = true |- _ => apply andb_true_iff in H; destruct H
  | H : (_ && _) = false |- _ => apply andb_false_iff in H
  end.

(** ** Machine integers and memory cells *)

Lemma u32_small (z : Z) : 0 <= z < 2 ^ 32 -> u32 z = z.
Proof. intros H. unfold u32. apply Z.mod_small, H. Qed.

Lemma u8_range (z : Z) : 0 <= u8 z < 256.
Proof. unfold u8. apply Z.mod_pos_bound. reflexivity. Qed.

Lemma u8_u8 (z : Z) : u8 (u8 z) = u8 z.
Proof. unfold u8. apply Z.mod_mod. lia. Qed.

Lemma fn_upd_other {A : Type} (k q : Z) (v : A) (f : Z -> A) :
  q <> k -> fn_upd k v f q = f q.
Proof. intros H. unfold fn_upd. destruct (Z.eqb_spec q k); congruence. Qed.

(** ** Signature check *)

Section Signature.
Context (cfg : config).
Context (MAGIC MAJOR MINOR : Z).

(** C9.  For every signature, [is_ssdfs_magic_valid] returns normally, and
    the boolean it returns is true exactly when the magic field equals
    the supported magic and both the major and the minor version are at
    most the supported revisions; everything but the log is left as it
    was. *)
Theorem is_ssdfs_magic_valid_iff_supported (m : ssdfs_signature)
    (st : kstate) :
  exists b st',
    is_ssdfs_magic_valid cfg MAGIC MAJOR MINOR (Some m) st = Done b st'
    /\ (b = true <-> supported MAGIC MAJOR MINOR m)
    /\ set_klog (fun _ => klog st) st' = st.
Proof.
  unfold is_ssdfs_magic_valid, ifdef_DEBUG, BUG_ON, SSDFS_INFO, printk,
    modify, supported, le32_to_cpu.
  run. destruct st, (CONFIG_SSDFS_DEBUG cfg); cbn.
  all: run; repeat case_match; run; eexists _, _; split; try reflexivity.
  all: bool_hyps; split; try reflexivity; split; intros; try discriminate.
  all: lia.
Qed.
End Signature.

(** ** CRC32 detects a change of one byte *)

Section Crc32.

Lemma is_u32_high_bit (c : Z) (n : Z) :
  is_u32 c -> 32 <= n -> Z.testbit c n = false.
Proof.
  intros [H0 H1] Hn. rewrite Z.testbit_odd, Z.shiftr_div_pow2 by lia.
  rewrite Z.div_small; [reflexivity|].
  split; [lia|]. apply Z.lt_le_trans with (2 ^ 32); [lia|].
  apply Z.pow_le_mono_r; lia.
Qed.

Lemma is_u32_of_bits (c : Z) :
  0 <= c -> (forall n, 32 <= n -> Z.testbit c n = false) -> is_u32 c.
Proof.
  intros H0 Hb. split; [lia|].
  destruct (Z.eq_dec c 0) as [->|Hne]; [lia|].
  apply Z.log2_lt_pow2; [lia|].
  destruct (Z_lt_le_dec (Z.log2 c) 32) as [|Hge]; [assumption|].
  specialize (Hb _ Hge). rewrite Z.bit_log2 in Hb by lia. discriminate.
Qed.

Lemma is_u32_lxor (a b : Z) : is_u32 a -> is_u32 b -> is_u32 (Z.lxor a b).
Proof.
  intros Ha Hb. apply is_u32_of_bits.
  - apply Z.lxor_nonneg. unfold is_u32 in *. lia.
  - intros n Hn. rewrite Z.lxor_spec, !is_u32_high_bit by assumption.
    reflexivity.
Qed.

Lemma is_u32_u8 (b : Z) : is_u32 (u8 b).
Proof.
  unfold is_u32, u8. pose proof (Z.mod_pos_bound b (2 ^ 8)). lia.
Qed.

Lemma is_u32_shiftr1 (c : Z) : is_u32 c -> is_u32 (Z.shiftr c 1).
Proof.
  unfold is_u32. intros H. rewrite Z.shiftr_div_pow2 by lia.
  change (2 ^ 1) with 2. split.
  - apply Z.div_pos; lia.
  - apply Z.div_lt_upper_bound; lia.
Qed.

Lemma lxor_cancel_r (a b p : Z) : Z.lxor a p = Z.lxor b p -> a = b.
Proof.
  intros H. apply (f_equal (fun x => Z.lxor x p)) in H.
  rewrite !Z.lxor_assoc, !Z.lxor_nilpotent, !Z.lxor_0_r in H. exact H.
Qed.

Lemma lxor_cancel_l (a b p : Z) : Z.lxor p a = Z.lxor p b -> a = b.
Proof. rewrite !(Z.lxor_comm p). apply lxor_cancel_r. Qed.

Lemma crc32_le_bit_u32 (c : Z) : is_u32 c -> is_u32 (crc32_le_bit c).
Proof.
  intros H. unfold crc32_le_bit. apply is_u32_lxor.
  - apply is_u32_shiftr1, H.
  - destruct (Z.testbit c 0); unfold is_u32, CRCPOLY_LE; lia.
Qed.

(** The top bit of the result tells which branch was taken, because the
    polynomial has its top bit set and the shifted value does not. *)
Lemma crc32_le_bit_top (c : Z) :
  is_u32 c -> Z.testbit (crc32_le_bit c) 31 = Z.testbit c 0.
Proof.
  intros H. unfold crc32_le_bit.
  rewrite Z.lxor_spec, Z.shiftr_spec by lia.
  rewrite (is_u32_high_bit c (31 + 1)) by (assumption || lia).
  destruct (Z.testbit c 0); reflexivity.
Qed.

Lemma crc32_le_bit_inj (c1 c2 : Z) :
  is_u32 c1 -> is_u32 c2 -> crc32_le_bit c1 = crc32_le_bit c2 -> c1 = c2.
Proof.
  intros H1 H2 Heq.
  assert (Hb : Z.testbit c1 0 = Z.testbit c2 0).
  { rewrite <- !crc32_le_bit_top by assumption. now rewrite Heq. }
  unfold crc32_le_bit in Heq. rewrite Hb in Heq.
  apply lxor_cancel_r in Heq.
  rewrite <- !Z.div2_spec in Heq. rewrite !Z.bit0_odd in Hb.
  rewrite (Z.div2_odd c1), (Z.div2_odd c2), Heq, Hb. reflexivity.
Qed.

Lemma iter_bit_u32 (n : nat) (c : Z) :
  is_u32 c -> is_u32 (Nat.iter n crc32_le_bit c).
Proof. induction n; cbn; auto using crc32_le_bit_u32. Qed.

Lemma iter_bit_inj (n : nat) (c1 c2 : Z) :
  is_u32 c1 -> is_u32 c2 ->
  Nat.iter n crc32_le_bit c1 = Nat.iter n crc32_le_bit c2 -> c1 = c2.
Proof.
  intros H1 H2. induction n as [|n IH]; cbn; intros Heq; [assumption|].
  apply IH, crc32_le_bit_inj; auto using iter_bit_u32.
Qed.

Lemma crc32_le_byte_eq (c b : Z) :
  crc32_le_byte c b = Nat.iter 8 crc32_le_bit (Z.lxor c (u8 b)).
Proof. reflexivity. Qed.

Lemma crc32_le_byte_u32 (c b : Z) : is_u32 c -> is_u32 (crc32_le_byte c b).
Proof.
  intros H. rewrite crc32_le_byte_eq.
  apply iter_bit_u32, is_u32_lxor; [assumption|apply is_u32_u8].
Qed.

Lemma crc32_le_byte_inj_crc (c1 c2 b : Z) :
  is_u32 c1 -> is_u32 c2 ->
  crc32_le_byte c1 b = crc32_le_byte c2 b -> c1 = c2.
Proof.
  intros H1 H2 Heq. rewrite !crc32_le_byte_eq in Heq.
  apply iter_bit_inj in Heq.
  - eapply lxor_cancel_r, Heq.
  - apply is_u32_lxor; [assumption|apply is_u32_u8].
  - apply is_u32_lxor; [assumption|apply is_u32_u8].
Qed.

Lemma crc32_le_byte_inj_byte (c b1 b2 : Z) :
  is_u32 c -> crc32_le_byte c b1 = crc32_le_byte c b2 -> u8 b1 = u8 b2.
Proof.
  intros H Heq. rewrite !crc32_le_byte_eq in Heq.
  apply iter_bit_inj in Heq.
  - eapply lxor_cancel_l, Heq.
  - apply is_u32_lxor; [assumption|apply is_u32_u8].
  - apply is_u32_lxor; [assumption|apply is_u32_u8].
Qed.

Lemma crc32_le_cons (c b : Z) (l : list Z) :
  crc32_le c (b :: l) = crc32_le (crc32_le_byte c b) l.
Proof. reflexivity. Qed.

Lemma crc32_le_u32 (l : list Z) (c : Z) : is_u32 c -> is_u32 (crc32_le c l).
Proof.
  revert c. induction l as [|b l IH]; intros c H; [assumption|].
  rewrite crc32_le_cons. apply IH, crc32_le_byte_u32, H.
Qed.

Lemma crc32_le_inj_seed (l : list Z) (c1 c2 : Z) :
  is_u32 c1 -> is_u32 c2 -> crc32_le c1 l = crc32_le c2 l -> c1 = c2.
Proof.
  revert c1 c2. induction l as [|b l IH]; intros c1 c2 H1 H2 Heq.
  - assumption.
  - rewrite !crc32_le_cons in Heq.
    apply (crc32_le_byte_inj_crc c1 c2 b); [assumption..|].
    apply IH; auto using crc32_le_byte_u32.
Qed.

(** Replacing one byte of the input by a different byte changes the CRC. *)
Lemma crc32_le_byte_changed (l : list Z) (i : nat) (v v' c : Z) :
  is_u32 c -> l !! i = Some v -> u8 v <> u8 v' ->
  crc32_le c (<[i := v']> l) <> crc32_le c l.
Proof.
  revert i c. induction l as [|b l IH]; intros i c Hc Hl Hne.
  - discriminate.
  - destruct i as [|i].
    + injection Hl as ->. intros Heq. apply Hne. symmetry.
      change (<[0%nat := v']> (v :: l)) with (v' :: l) in Heq.
      rewrite !crc32_le_cons in Heq.
      apply (crc32_le_byte_inj_byte c v' v); [assumption|].
      apply (crc32_le_inj_seed l); auto using crc32_le_byte_u32.
    + change (<[S i := v']> (b :: l)) with (b :: <[i := v']> l).
      rewrite !crc32_le_cons.
      apply IH; [exact (crc32_le_byte_u32 c b Hc)|assumption..].
Qed.

Lemma flip_bit_u8 (v k : Z) :
  0 <= k < 8 -> u8 (Z.lxor v (2 ^ k)) <> u8 v.
Proof.
  intros Hk Heq. apply (f_equal (fun x => Z.testbit x k)) in Heq.
  unfold u8 in Heq.
  rewrite !Z.mod_pow2_bits_low, Z.lxor_spec, Z.pow2_bits_true in Heq by lia.
  destruct (Z.testbit v k); discriminate.
Qed.

Lemma read_bytes_length (m : Z -> Z) (a : Z) (n : nat) :
  length (read_bytes m a n) = n.
Proof. unfold read_bytes. now rewrite length_map, length_seq. Qed.

Lemma read_bytes_lookup (m : Z -> Z) (a : Z) (n i : nat) :
  (i < n)%nat -> read_bytes m a n !! i = Some (m (a + Z.of_nat i)).
Proof.
  intros H. unfold read_bytes.
  rewrite list_lookup_fmap, lookup_seq_lt by assumption. reflexivity.
Qed.

(** Writing one byte inside the range that is read changes exactly that
    element of what is read. *)
Lemma read_bytes_upd (m : Z -> Z) (a : Z) (n i : nat) (v : Z) :
  read_bytes (fn_upd (a + Z.of_nat i) v m) a n = <[i := v]> (read_bytes m a n).
Proof.
  apply list_eq. intros j.
  destruct (decide (j < n)%nat) as [Hj|Hj].
  - rewrite read_bytes_lookup by assumption.
    destruct (decide (i = j)) as [->|Hij].
    + rewrite list_lookup_insert_eq by (rewrite read_bytes_length; lia).
      unfold fn_upd. now rewrite Z.eqb_refl.
    + rewrite list_lookup_insert_ne, read_bytes_lookup by assumption.
      unfold fn_upd. destruct (Z.eqb_spec (a + Z.of_nat j) (a + Z.of_nat i)).
      * lia.
      * reflexivity.
  - rewrite !lookup_ge_None_2; try reflexivity.
    + rewrite length_insert, read_bytes_length. lia.
    + rewrite read_bytes_length. lia.
Qed.

End Crc32.

(** ** Little-endian fields in memory *)

Lemma le32_recombine (v : Z) :
  u8 v + 2 ^ 8 * u8 (Z.shiftr v 8) + 2 ^ 16 * u8 (Z.shiftr v 16)
  + 2 ^ 24 * u8 (Z.shiftr v 24) = u32 v.
Proof.
  unfold u8, u32. rewrite !Z.shiftr_div_pow2 by lia.
  change (2 ^ 32) with (2 ^ 8 * (2 ^ 8 * (2 ^ 8 * 2 ^ 8))).
  rewrite (Z.rem_mul_r v (2 ^ 8)) by lia.
  rewrite (Z.rem_mul_r (v / 2 ^ 8) (2 ^ 8)) by lia.
  rewrite (Z.rem_mul_r (v / 2 ^ 8 / 2 ^ 8) (2 ^ 8)) by lia.
  rewrite !Z.div_div by lia.
  change (2 ^ 8 * 2 ^ 8) with (2 ^ 16). change (2 ^ 16 * 2 ^ 8) with (2 ^ 24).
  lia.
Qed.

Lemma put_le32_in (a v q : Z) (m : Z -> Z) :
  a <= q < a + 4 -> put_le32 a v m q = u8 (Z.shiftr v (8 * (q - a))).
Proof.
  intros H. unfold put_le32.
  destruct (Z.leb_spec a q); [|lia]. destruct (Z.ltb_spec q (a + 4)); [|lia].
  reflexivity.
Qed.

Lemma put_le32_out (a v q : Z) (m : Z -> Z) :
  ~ (a <= q < a + 4) -> put_le32 a v m q = m q.
Proof.
  intros H. unfold put_le32.
  destruct (Z.leb_spec a q); [|reflexivity].
  destruct (Z.ltb_spec q (a + 4)); [lia|reflexivity].
Qed.

Lemma get_le32_put_le32 (a v : Z) (m : Z -> Z) :
  get_le32 (put_le32 a v m) a = u32 v.
Proof.
  unfold get_le32. rewrite !put_le32_in by lia. rewrite !u8_u8.
  replace (8 * (a - a)) with 0 by lia.
  replace (8 * (a + 1 - a)) with 8 by lia.
  replace (8 * (a + 2 - a)) with 16 by lia.
  replace (8 * (a + 3 - a)) with 24 by lia.
  rewrite Z.shiftr_0_r. apply le32_recombine.
Qed.

Lemma put_le32_put_le32 (a v w q : Z) (m : Z -> Z) :
  put_le32 a v (put_le32 a w m) q = put_le32 a v m q.
Proof.
  unfold put_le32. destruct (_ && _); reflexivity.
Qed.

Lemma get_le32_range (m : Z -> Z) (a : Z) : is_u32 (get_le32 m a).
Proof.
  unfold get_le32, is_u32.
  pose proof (u8_range (m a)). pose proof (u8_range (m (a + 1))).
  pose proof (u8_range (m (a + 2))). pose proof (u8_range (m (a + 3))). lia.
Qed.

Lemma put_le32_get_le32 (a q : Z) (m : Z -> Z) :
  put_le32 a (get_le32 m a) m q
  = if (a <=? q) && (q <? a + 4) then u8 (m q) else m q.
Proof.
  unfold put_le32. destruct (Z.leb_spec a q); [|reflexivity].
  destruct (Z.ltb_spec q (a + 4)); [|reflexivity]. cbn [andb].
  unfold get_le32.
  pose proof (u8_range (m a)). pose proof (u8_range (m (a + 1))).
  pose proof (u8_range (m (a + 2))). pose proof (u8_range (m (a + 3))).
  assert (Hq : q = a \/ q = a + 1 \/ q = a + 2 \/ q = a + 3) by lia.
  destruct Hq as [ -> | [ -> | [ -> | -> ] ] ].
  - replace (8 * (a - a)) with 0 by lia. rewrite Z.shiftr_0_r.
    unfold u8 at 1. rewrite <- (Z.mod_small (u8 (m a)) (2 ^ 8)) at 2 by lia.
    rewrite <- !Z.add_assoc.
    replace (2 ^ 8 * u8 (m (a + 1)) + (2 ^ 16 * u8 (m (a + 2)) + 2 ^ 24 * u8 (m (a + 3))))
      with ((u8 (m (a + 1)) + 2 ^ 8 * u8 (m (a + 2)) + 2 ^ 16 * u8 (m (a + 3))) * 2 ^ 8) by lia.
    apply Z.mod_add. lia.
  - replace (8 * (a + 1 - a)) with 8 by lia. rewrite Z.shiftr_div_pow2 by lia.
    unfold u8 at 1.
    replace (u8 (m a) + 2 ^ 8 * u8 (m (a + 1)) + 2 ^ 16 * u8 (m (a + 2)) + 2 ^ 24 * u8 (m (a + 3)))
      with (u8 (m a) + (u8 (m (a + 1)) + 2 ^ 8 * u8 (m (a + 2)) + 2 ^ 16 * u8 (m (a + 3))) * 2 ^ 8) by lia.
    rewrite Z.div_add by lia. rewrite (Z.div_small (u8 (m a))) by lia.
    rewrite Z.add_0_l.
    replace (u8 (m (a + 1)) + 2 ^ 8 * u8 (m (a + 2)) + 2 ^ 16 * u8 (m (a + 3)))
      with (u8 (m (a + 1)) + (u8 (m (a + 2)) + 2 ^ 8 * u8 (m (a + 3))) * 2 ^ 8) by lia.
    rewrite Z.mod_add by lia. apply Z.mod_small. lia.
  - replace (8 * (a + 2 - a)) with 16 by lia. rewrite Z.shiftr_div_pow2 by lia.
    unfold u8 at 1.
    replace (u8 (m a) + 2 ^ 8 * u8 (m (a + 1)) + 2 ^ 16 * u8 (m (a + 2)) + 2 ^ 24 * u8 (m (a + 3)))
      with (u8 (m a) + 2 ^ 8 * u8 (m (a + 1)) + (u8 (m (a + 2)) + 2 ^ 8 * u8 (m (a + 3))) * 2 ^ 16) by lia.
    rewrite Z.div_add by lia. rewrite (Z.div_small (u8 (m a) + 2 ^ 8 * u8 (m (a + 1)))) by lia.
    rewrite Z.add_0_l.
    replace (u8 (m (a + 2)) + 2 ^ 8 * u8 (m (a + 3)))
      with (u8 (m (a + 2)) + u8 (m (a + 3)) * 2 ^ 8) by lia.
    rewrite Z.mod_add by lia. apply Z.mod_small. lia.
  - replace (8 * (a + 3 - a)) with 24 by lia. rewrite Z.shiftr_div_pow2 by lia.
    unfold u8 at 1.
    replace (u8 (m a) + 2 ^ 8 * u8 (m (a + 1)) + 2 ^ 16 * u8 (m (a + 2)) + 2 ^ 24 * u8 (m (a + 3)))
      with (u8 (m a) + 2 ^ 8 * u8 (m (a + 1)) + 2 ^ 16 * u8 (m (a + 2)) + u8 (m (a + 3)) * 2 ^ 24) by lia.
    rewrite Z.div_add by lia.
    rewrite (Z.div_small (u8 (m a) + 2 ^ 8 * u8 (m (a + 1)) + 2 ^ 16 * u8 (m (a + 2)))) by lia.
    rewrite Z.add_0_l. apply Z.mod_small. lia.
Qed.

(** ** Checksum computation and verification *)

Lemma read_bytes_ext (m m' : Z -> Z) (a : Z) (n : nat) :
  (forall q, a <= q < a + Z.of_nat n -> m q = m' q) ->
  read_bytes m a n = read_bytes m' a n.
Proof.
  intros H. unfold read_bytes. apply map_ext_in. intros j Hj.
  apply in_seq in Hj. apply H. lia.
Qed.

Lemma crc_of_ext (m m' : Z -> Z) (a len : Z) :
  (forall q, a <= q < a + len -> m q = m' q) -> crc_of m a len = crc_of m' a len.
Proof.
  intros H. unfold crc_of. f_equal. apply read_bytes_ext.
  intros q Hq. apply H. lia.
Qed.

Lemma crc_of_u32 (m : Z -> Z) (a len : Z) : is_u32 (crc_of m a len).
Proof.
  unfold crc_of. apply crc32_le_u32.
  change (u32 (Z.lnot 0)) with 4294967295. unfold is_u32. lia.
Qed.

Lemma crc_of_flip (m : Z -> Z) (a len q k : Z) :
  a <= q < a + len -> 0 <= k < 8 ->
  crc_of (fn_upd q (Z.lxor (m q) (2 ^ k)) m) a len <> crc_of m a len.
Proof.
  intros Hq Hk. unfold crc_of.
  replace q with (a + Z.of_nat (Z.to_nat (q - a))) at 1 by lia.
  rewrite read_bytes_upd.
  apply crc32_le_byte_changed with (v := m q).
  - change (u32 (Z.lnot 0)) with 4294967295. unfold is_u32. lia.
  - rewrite read_bytes_lookup by lia. do 2 f_equal. lia.
  - intros Heq. symmetry in Heq. revert Heq. apply flip_bit_u8, Hk.
Qed.

Lemma get_le32_flip (m : Z -> Z) (f q v : Z) :
  f <= q < f + 4 -> u8 v <> u8 (m q) ->
  get_le32 (fn_upd q v m) f <> get_le32 m f.
Proof.
  intros Hq Hv. unfold get_le32, fn_upd.
  assert (Hc : q = f \/ q = f + 1 \/ q = f + 2 \/ q = f + 3) by lia.
  destruct Hc as [ -> | [ -> | [ -> | -> ] ] ].
  all: repeat match goal with
       | |- context [?x =? ?y] => destruct (Z.eqb_spec x y); try lia
       end.
Qed.

Lemma get_le16_flip_other (m : Z -> Z) (f q v : Z) :
  ~ (f <= q < f + 2) -> get_le16 (fn_upd q v m) f = get_le16 m f.
Proof.
  intros Hq. unfold get_le16. now rewrite !fn_upd_other by lia.
Qed.

Lemma get_le32_flip_other (m : Z -> Z) (f q v : Z) :
  ~ (f <= q < f + 4) -> get_le32 (fn_upd q v m) f = get_le32 m f.
Proof.
  intros Hq. unfold get_le32. now rewrite !fn_upd_other by lia.
Qed.

Section Checksum.
Context (cfg : config) (CRC : Z).

Lemma ssdfs_crc32_le_run (a len : Z) (st : kstate) :
  ssdfs_crc32_le (Addr a) len st = Done (crc_of (memory st) a len) st.
Proof.
  unfold ssdfs_crc32_le, crc32, crc_of, cpu_to_le32, get_state. run.
  destruct (Z.eqb_spec len 0) as [->|Hne]; run; reflexivity.
Qed.

Lemma load_le16_run (a : Z) (st : kstate) :
  load_le16 a st = Done (get_le16 (memory st) a) st.
Proof. reflexivity. Qed.

Lemma load_le32_run (a : Z) (st : kstate) :
  load_le32 a st = Done (get_le32 (memory st) a) st.
Proof. reflexivity. Qed.

Lemma store_le32_run (a v : Z) (st : kstate) :
  store_le32 a v st = Done tt (set_memory (put_le32 a v) st).
Proof. reflexivity. Qed.

Lemma ssdfs_calculate_csum_run (check a sz : Z) (st : kstate) :
  ssdfs_calculate_csum cfg CRC (Addr check) (Addr a) sz st =
    let chk := metadata_check_at (memory st) check in
    if sz <? bytes chk then
      Done (- EINVAL) (log_err "corrupted size %d of checked data" st)
    else if Z.land (flags chk) CRC =? 0 then
      Done (- EINVAL) (log_err "unknown flags set %#x" st)
    else
      Done 0 (with_csum check (covered_crc (memory st) check a)
                        (with_csum check 0 st)).
Proof.
  unfold ssdfs_calculate_csum, ifdef_DEBUG, BUG_ON, le16_to_cpu. run.
  assert (Hpre : (if CONFIG_SSDFS_DEBUG cfg
                  then (if bool_decide (Addr check = NULL)
                           || bool_decide (Addr a = NULL)
                        then BUG "BUG_ON(!check || !buf)" st
                        else Done () st)
                  else Done () st) = Done () st).
  { destruct (CONFIG_SSDFS_DEBUG cfg); reflexivity. }
  rewrite Hpre. run. rewrite !load_le16_run. run. rewrite load_le16_run.
  cbv zeta. cbn [bytes flags metadata_check_at].
  destruct (sz <? _); [reflexivity|].
  destruct (Z.land _ CRC =? 0); run; [reflexivity|].
  rewrite store_le32_run. cbv beta iota. run.
  rewrite ssdfs_crc32_le_run. cbv beta iota. run.
  rewrite store_le32_run. reflexivity.
Qed.

Lemma metadata_check_at_with_csum (check c : Z) (m : Z -> Z) :
  metadata_check_at (put_le32 (csum_of check) c m) check
  = set_csum (u32 c) (metadata_check_at m check).
Proof.
  unfold metadata_check_at, set_csum. cbn [bytes flags].
  rewrite get_le32_put_le32. unfold get_le16, bytes_of, flags_of, csum_of.
  rewrite !put_le32_out by lia. reflexivity.
Qed.

Lemma covered_crc_with_csum (check c a : Z) (m : Z -> Z) :
  covered_crc (put_le32 (csum_of check) c m) check a = covered_crc m check a.
Proof.
  unfold covered_crc. rewrite metadata_check_at_with_csum. cbn [bytes set_csum].
  apply crc_of_ext. intros q _. apply put_le32_put_le32.
Qed.

Lemma covered_crc_u32 (m : Z -> Z) (check a : Z) : is_u32 (covered_crc m check a).
Proof. apply crc_of_u32. Qed.

Lemma covered_crc_outside (m : Z -> Z) (check a : Z) :
  csum_outside check a (bytes (metadata_check_at m check)) ->
  covered_crc m check a = crc_of m a (bytes (metadata_check_at m check)).
Proof.
  intros H. unfold covered_crc. apply crc_of_ext. intros q Hq.
  apply put_le32_out. unfold csum_outside in H. lia.
Qed.

Lemma get_le32_u32 (m : Z -> Z) (a : Z) : u32 (get_le32 m a) = get_le32 m a.
Proof. apply u32_small, get_le32_range. Qed.

Lemma with_csum_restore (check c1 c2 c3 : Z) (st : kstate) :
  set_memory (fun _ => memory st)
    (with_csum check c3 (with_csum check c2 (with_csum check c1 st))) = st.
Proof. destruct st. reflexivity. Qed.

Lemma with_csum_memory (check c1 c2 : Z) (st : kstate) (q : Z) :
  memory (with_csum check (get_le32 (memory st) (csum_of check))
            (with_csum check c2 (with_csum check c1 st))) q
  = if (csum_of check <=? q) && (q <? csum_of check + 4)
    then u8 (memory st q) else memory st q.
Proof.
  unfold with_csum. cbn [memory set_memory].
  rewrite !put_le32_put_le32. apply put_le32_get_le32.
Qed.

Lemma with_csum_bytes_kept (check c1 c2 : Z) (st : kstate) :
  bytes_kept (memory st)
    (memory (with_csum check (get_le32 (memory st) (csum_of check))
               (with_csum check c2 (with_csum check c1 st)))) check.
Proof.
  intros q. rewrite with_csum_memory. unfold in_csum.
  destruct (Z.leb_spec (csum_of check) q); [|left; reflexivity].
  destruct (Z.ltb_spec q (csum_of check + 4)); [|left; reflexivity].
  right. split; [lia|reflexivity].
Qed.

Lemma with_csum_record (check c1 c2 : Z) (st : kstate) :
  metadata_check_at
    (memory (with_csum check (get_le32 (memory st) (csum_of check))
               (with_csum check c2 (with_csum check c1 st)))) check
  = metadata_check_at (memory st) check.
Proof.
  unfold with_csum. cbn [memory set_memory].
  rewrite !metadata_check_at_with_csum. unfold set_csum, metadata_check_at.
  cbn [bytes flags]. now rewrite get_le32_u32.
Qed.

Lemma is_csum_valid_run (check a sz : Z) (st : kstate) :
  is_csum_valid cfg CRC (Addr check) (Addr a) sz st =
    let chk := metadata_check_at (memory st) check in
    if (sz <? bytes chk) || (Z.land (flags chk) CRC =? 0) then
      Done false
        (log_err "fail to calculate checksum"
           (log_err (if sz <? bytes chk
                     then "corrupted size %d of checked data"
                     else "unknown flags set %#x") st))
    else
      let st' := with_csum check (csum chk)
                   (with_csum check (covered_crc (memory st) check a)
                      (with_csum check 0 st)) in
      if csum chk =? covered_crc (memory st) check a then Done true st'
      else Done false (log_err "old_csum %#x != calc_csum %#x" st').
Proof.
  unfold is_csum_valid, ifdef_DEBUG, BUG_ON. run.
  assert (Hpre : (if CONFIG_SSDFS_DEBUG cfg
                  then (if bool_decide (Addr check = NULL)
                        then BUG "BUG_ON(!check)" st
                        else Done () st)
                  else Done () st) = Done () st).
  { destruct (CONFIG_SSDFS_DEBUG cfg); reflexivity. }
  rewrite Hpre. run. rewrite load_le32_run. cbv beta iota. run.
  rewrite ssdfs_calculate_csum_run. cbv zeta.
  cbn [bytes flags csum metadata_check_at].
  destruct (sz <? _); [reflexivity|].
  destruct (Z.land _ CRC =? 0); cbn [orb]; [reflexivity|].
  change (negb (0 =? 0)) with false. cbv beta iota. run.
  rewrite load_le32_run. cbv beta iota. run.
  rewrite store_le32_run. cbv beta iota. run.
  assert (Hcalc : get_le32
            (memory (with_csum check (covered_crc (memory st) check a)
                       (with_csum check 0 st))) (csum_of check)
          = covered_crc (memory st) check a).
  { unfold with_csum. cbn [memory set_memory]. rewrite get_le32_put_le32.
    apply u32_small, covered_crc_u32. }
  rewrite Hcalc. destruct (_ =? _); reflexivity.
Qed.

(** C8 (as the code has it).  [ssdfs_calculate_csum] on a record and a
    buffer in memory returns.  It fails with [-EINVAL] when the declared
    length exceeds [buf_size], and with the same [-EINVAL] when the flags
    do not contain [SSDFS_CRC32]; on either failure nothing but the log
    changes, so the record is as it was.  Otherwise it returns 0 and the
    checksum field of the record holds the CRC32 of the declared length of
    the buffer, computed after the checksum field was set to 0; no byte
    outside the checksum field and nothing else in the state changes.
    For a record whose checksum field lies outside the bytes covered,
    that CRC32 is the CRC32 of the buffer as it was before the call. *)
Theorem ssdfs_calculate_csum_result (check a sz : Z) (st : kstate) :
  let chk := metadata_check_at (memory st) check in
  exists r st',
    ssdfs_calculate_csum cfg CRC (Addr check) (Addr a) sz st = Done r st'
    /\ (sz < bytes chk \/ Z.land (flags chk) CRC = 0 ->
        r = - EINVAL /\ set_klog (fun _ => klog st) st' = st)
    /\ (bytes chk <= sz -> Z.land (flags chk) CRC <> 0 ->
        r = 0
        /\ metadata_check_at (memory st') check
           = set_csum (covered_crc (memory st) check a) chk
        /\ (forall q, ~ in_csum check q -> memory st' q = memory st q)
        /\ set_memory (fun _ => memory st) st' = st)
    /\ (csum_outside check a (bytes chk) ->
        covered_crc (memory st) check a = crc_of (memory st) a (bytes chk)).
Proof.
  intros chk. rewrite ssdfs_calculate_csum_run. cbv zeta. fold chk.
  assert (Hout := covered_crc_outside (memory st) check a). fold chk in Hout.
  destruct (Z.ltb_spec sz (bytes chk)).
  { eexists _, _. split; [reflexivity|]. destruct st.
    split; [intros _; split; reflexivity|]. split; [intros; lia|exact Hout]. }
  destruct (Z.eqb_spec (Z.land (flags chk) CRC) 0).
  { eexists _, _. split; [reflexivity|]. destruct st.
    split; [intros _; split; reflexivity|]. split; [intros; lia|exact Hout]. }
  eexists _, _. split; [reflexivity|].
  split; [intros [|]; lia|]. split; [|exact Hout].
  intros _ _. split; [reflexivity|]. unfold with_csum. cbn [memory set_memory].
  split; [|split].
  - rewrite !metadata_check_at_with_csum. fold chk.
    rewrite (u32_small _ (covered_crc_u32 _ _ _)). destruct chk; reflexivity.
  - intros q Hq. unfold in_csum in Hq. now rewrite !put_le32_out by assumption.
  - destruct st. reflexivity.
Qed.

(** C7.  For every record, buffer and buffer size, [is_csum_valid]
    returns a boolean without an oops; when the declared length exceeds
    [buf_size] or the flags are unsupported the boolean is false; and in
    every case the record that memory holds after the call, hence its
    stored checksum, is the record it held before.  Every cell of memory
    is as it was or, in the checksum field that is written back, holds the
    byte it held; pages, allocator and counters are as they were. *)
Theorem is_csum_valid_total (check a sz : Z) (st : kstate) :
  let chk := metadata_check_at (memory st) check in
  exists b st',
    is_csum_valid cfg CRC (Addr check) (Addr a) sz st = Done b st'
    /\ (sz < bytes chk \/ Z.land (flags chk) CRC = 0 -> b = false)
    /\ metadata_check_at (memory st') check = chk
    /\ bytes_kept (memory st) (memory st') check
    /\ set_memory (fun _ => memory st) (set_klog (fun _ => klog st) st') = st.
Proof.
  intros chk. rewrite is_csum_valid_run. cbv zeta. fold chk.
  destruct (Z.ltb_spec sz (bytes chk)); cbn [orb].
  { eexists _, _. split; [reflexivity|]. split; [reflexivity|].
    split; [reflexivity|]. split; [intros q; left; reflexivity|].
    destruct st. reflexivity. }
  destruct (Z.eqb_spec (Z.land (flags chk) CRC) 0).
  { eexists _, _. split; [reflexivity|]. split; [reflexivity|].
    split; [reflexivity|]. split; [intros q; left; reflexivity|].
    destruct st. reflexivity. }
  assert (Hrec := with_csum_record check 0 (covered_crc (memory st) check a) st).
  assert (Hkept := with_csum_bytes_kept check 0
                     (covered_crc (memory st) check a) st).
  change (get_le32 (memory st) (csum_of check)) with (csum chk) in Hrec, Hkept.
  case_match; eexists _, _; (split; [reflexivity|]).
  all: split; [intros [|]; lia|].
  all: split; [exact Hrec|]. all: split; [exact Hkept|].
  all: destruct st; reflexivity.
Qed.

Ltac cases_in_field x q :=
  destruct (Z.eqb_spec x q); [subst x|];
  repeat match goal with
  | |- context [?u <=? ?v] => destruct (Z.leb_spec u v)
  | |- context [?u <? ?v] => destruct (Z.ltb_spec u v)
  end; cbn [andb]; try reflexivity; lia.

(** C6 (as the code has it).  When [ssdfs_calculate_csum] succeeds on a
    record and a buffer, [is_csum_valid] on the same record and buffer
    returns true; and after any single bit is flipped in a byte that lies
    inside the declared length of the buffer and outside the length field
    of the record, it returns false.  The record may lie inside the bytes
    covered: a flipped bit of its flags or of its stored checksum is
    detected as well. *)
Theorem is_csum_valid_after_calculate (check a sz : Z) (st st1 : kstate) :
  ssdfs_calculate_csum cfg CRC (Addr check) (Addr a) sz st = Done 0 st1 ->
  (exists st2,
     is_csum_valid cfg CRC (Addr check) (Addr a) sz st1 = Done true st2)
  /\ (forall q k,
        a <= q < a + bytes (metadata_check_at (memory st1) check) ->
        ~ (bytes_of check <= q < bytes_of check + 2) ->
        0 <= k < 8 ->
        let flipped := fn_upd q (Z.lxor (memory st1 q) (2 ^ k)) in
        exists st3,
          is_csum_valid cfg CRC (Addr check) (Addr a) sz
                        (set_memory flipped st1)
            = Done false st3).
Proof.
  rewrite ssdfs_calculate_csum_run. cbv zeta.
  set (chk := metadata_check_at (memory st) check).
  set (crc := covered_crc (memory st) check a).
  destruct (Z.ltb_spec sz (bytes chk)) as [|Hfit]; [discriminate|].
  destruct (Z.eqb_spec (Z.land (flags chk) CRC) 0) as [|Halg]; [discriminate|].
  intros [= <-].
  set (m1 := memory (with_csum check crc (with_csum check 0 st))).
  assert (Hchk1 : metadata_check_at m1 check = set_csum crc chk).
  { unfold m1, with_csum. cbn [memory set_memory].
    rewrite !metadata_check_at_with_csum. fold chk.
    rewrite (u32_small crc) by apply covered_crc_u32. destruct chk; reflexivity. }
  assert (Hcrc1 : covered_crc m1 check a = crc).
  { unfold m1, with_csum. cbn [memory set_memory].
    now rewrite !covered_crc_with_csum. }
  split.
  - rewrite is_csum_valid_run. cbv zeta. fold m1. rewrite Hchk1, Hcrc1.
    cbn [bytes flags csum set_csum].
    destruct (Z.ltb_spec sz (bytes chk)); [lia|].
    destruct (Z.eqb_spec (Z.land (flags chk) CRC) 0); [lia|].
    cbn [orb]. rewrite Z.eqb_refl. eauto.
  - fold m1. rewrite Hchk1. cbn [bytes set_csum].
    intros q k Hq Hlen Hk. rewrite is_csum_valid_run. cbv zeta.
    cbn [memory set_memory]. fold m1.
    set (flipped := fn_upd q (Z.lxor (m1 q) (2 ^ k))).
    set (m' := flipped m1).
    assert (Hbytes : bytes (metadata_check_at m' check) = bytes chk).
    { unfold metadata_check_at at 1. cbn [bytes]. unfold m', flipped.
      rewrite get_le16_flip_other by assumption.
      change (get_le16 m1 (bytes_of check))
        with (bytes (metadata_check_at m1 check)). now rewrite Hchk1. }
    rewrite Hbytes.
    destruct (Z.ltb_spec sz (bytes chk)); [lia|]. cbn [orb].
    destruct (Z.land _ CRC =? 0); [eauto|].
    match goal with
    | |- context [?x =? ?y] => destruct (Z.eqb_spec x y) as [Heq|Hne]
    end; [exfalso|eauto].
    revert Heq. unfold covered_crc. rewrite Hbytes.
    unfold metadata_check_at at 1. cbn [csum].
    assert (Hcsum1 : get_le32 m1 (csum_of check) = crc).
    { change (get_le32 m1 (csum_of check))
        with (csum (metadata_check_at m1 check)). now rewrite Hchk1. }
    assert (Hzero1 : crc_of (put_le32 (csum_of check) 0 m1) a (bytes chk) = crc).
    { rewrite <- Hcrc1. unfold covered_crc. now rewrite Hchk1. }
    destruct (Z_lt_le_dec q (csum_of check)) as [Hlo|Hlo];
      [|destruct (Z_lt_le_dec q (csum_of check + 4)) as [Hhi|Hhi]].
    + (* below the checksum field *)
      unfold m', flipped. rewrite get_le32_flip_other, Hcsum1 by lia.
      rewrite <- Hzero1. intros Heq. symmetry in Heq. revert Heq.
      rewrite (crc_of_ext _ (fn_upd q
                 (Z.lxor (put_le32 (csum_of check) 0 m1 q) (2 ^ k))
                 (put_le32 (csum_of check) 0 m1))).
      * apply crc_of_flip; assumption.
      * intros x _. unfold put_le32, fn_upd. cases_in_field x q.
    + (* inside the checksum field *)
      rewrite (crc_of_ext _ (put_le32 (csum_of check) 0 m1)), Hzero1.
      * rewrite <- Hcsum1. unfold m', flipped. apply get_le32_flip; [lia|].
        apply flip_bit_u8, Hk.
      * intros x _. unfold put_le32, m', flipped, fn_upd. cases_in_field x q.
    + (* above the checksum field *)
      unfold m', flipped. rewrite get_le32_flip_other, Hcsum1 by lia.
      rewrite <- Hzero1. intros Heq. symmetry in Heq. revert Heq.
      rewrite (crc_of_ext _ (fn_upd q
                 (Z.lxor (put_le32 (csum_of check) 0 m1 q) (2 ^ k))
                 (put_le32 (csum_of check) 0 m1))).
      * apply crc_of_flip; assumption.
      * intros x _. unfold put_le32, fn_upd. cases_in_field x q.
Qed.

End Checksum.

(** C8, the claim as stated fails: a record whose flags select no algorithm
    and a record whose declared length exceeds the buffer size get the same
    error code, [-EINVAL]; no separate error kind exists for the flags. *)
Lemma ssdfs_calculate_csum_flags_error_is_EINVAL :
  let cfg := Config true true in
  let no_algorithm := image_state [4; 0; 0; 0; 0; 0; 0; 0] in
  let too_long := image_state [8; 0; 1; 0; 0; 0; 0; 0] in
  result (ssdfs_calculate_csum cfg 1 (Addr 0) (Addr 8) 4 no_algorithm)
    = Some (- EINVAL)
  /\ result (ssdfs_calculate_csum cfg 1 (Addr 0) (Addr 8) 4 too_long)
    = Some (- EINVAL).
Proof. split; reflexivity. Qed.

(** C6, the claim as stated fails for a record that lies inside the bytes
    it covers: the declared length is one of the covered bytes, and a
    flipped bit in it changes how many bytes the check reads.  Here the
    record heads a buffer of 12 bytes; after the checksum is computed, bit
    2 of the length byte is flipped (12 becomes 8), the check reads 8 bytes
    only, their CRC32 is the stored checksum, and [is_csum_valid] returns
    true. *)
Lemma is_csum_valid_misses_length_flip :
  let cfg := Config false false in
  let st := image_state [12; 0; 1; 0; 0; 0; 0; 0; 49; 223; 58; 4] in
  let st1 := with_csum 0 (covered_crc (memory st) 0 0) (with_csum 0 0 st) in
  let flipped := fn_upd 0 (Z.lxor (memory st1 0) (2 ^ 2)) in
  ssdfs_calculate_csum cfg 1 (Addr 0) (Addr 0) 12 st = Done 0 st1
  /\ 0 <= 0 < 0 + bytes (metadata_check_at (memory st1) 0)
  /\ result (is_csum_valid cfg 1 (Addr 0) (Addr 0) 12 (set_memory flipped st1))
     = Some true.
Proof.
  intros cfg st st1 flipped. split; [vm_compute; reflexivity|].
  split; [vm_compute; split; [discriminate|reflexivity]|].
  vm_compute. reflexivity.
Qed.

Lemma is_csum_valid_after_calculate_witness :
  let cfg := Config false false in
  let st := image_state [64; 0; 1; 0] in
  let st1 := with_csum 0 (covered_crc (memory st) 0 0) (with_csum 0 0 st) in
  ssdfs_calculate_csum cfg 1 (Addr 0) (Addr 0) 128 st = Done 0 st1
  /\ (exists st2,
        is_csum_valid cfg 1 (Addr 0) (Addr 0) 128 st1 = Done true st2)
  /\ (exists st3,
        is_csum_valid cfg 1 (Addr 0) (Addr 0) 128
          (set_memory (fn_upd 10 (Z.lxor (memory st1 10) (2 ^ 0))) st1)
          = Done false st3).
Proof.
  intros cfg st st1.
  assert (H : ssdfs_calculate_csum cfg 1 (Addr 0) (Addr 0) 128 st
              = Done 0 st1) by (vm_compute; reflexivity).
  split; [exact H|].
  destruct (is_csum_valid_after_calculate cfg 1 0 0 128 st st1 H)
    as [Hvalid Hflip].
  split; [exact Hvalid|].
  apply (Hflip 10 0).
  - vm_compute. split; [discriminate|reflexivity].
  - vm_compute. intros [_ Hlt]. discriminate Hlt.
  - lia.
Defined.

(** The record and the buffer are objects, not null pointers: a debug build
    asserts both and stops at a null buffer, where a build without the
    assertion goes on (no byte is read for a declared length of 0). *)
Example is_csum_valid_null_buffer :
  let st := image_state [0; 0; 1; 0] in
  is_csum_valid (Config true false) 1 (Addr 0) NULL 0 st
    = Oops "BUG_ON(!check || !buf)"
  /\ result (is_csum_valid (Config false false) 1 (Addr 0) NULL 0 st)
     = Some false.
Proof. split; reflexivity. Qed.

(** ** Bounded copy primitives *)

Section BoundedCopyProps.
Context (cfg : config).

Lemma checked_range_refuses (report : string -> kernel unit)
    (lvl : loglevel) (dst_off dst_size src_off src_size size : Z)
    (body : kernel Z) (st : kstate) :
  (forall msg, report msg = printk lvl msg) ->
  CONFIG_SSDFS_DEBUG cfg = true ->
  src_size < u32 (src_off + size) \/ dst_size < u32 (dst_off + size) ->
  refused (checked_range cfg report dst_off dst_size src_off src_size
                         size body st) st.
Proof.
  intros Hrep Hdbg Hover. unfold checked_range, refused. rewrite Hdbg.
  destruct st.
  destruct (Z.ltb_spec src_size (u32 (src_off + size))).
  - rewrite Hrep. eexists. split; [reflexivity|]. split; reflexivity.
  - destruct (Z.ltb_spec dst_size (u32 (dst_off + size))); [|lia].
    rewrite Hrep. eexists. split; [reflexivity|]. split; reflexivity.
Qed.

Lemma checked_dst_range_refuses (dst_off dst_size size : Z)
    (body : kernel Z) (st : kstate) :
  CONFIG_SSDFS_DEBUG cfg = true ->
  dst_size < u32 (dst_off + size) ->
  refused (checked_dst_range cfg dst_off dst_size size body st) st.
Proof.
  intros Hdbg Hover. unfold checked_dst_range, refused. rewrite Hdbg.
  destruct st.
  destruct (Z.ltb_spec dst_size (u32 (dst_off + size))); [|lia].
  eexists. split; [reflexivity|]. split; reflexivity.
Qed.

(** C1 (as the code has it).  In a build with [CONFIG_SSDFS_DEBUG], for
    offsets and a length whose sums fit in 32 bits: when
    [src_off + size > src_size] or [dst_off + size > dst_size], each of
    the six copy and move wrappers returns [-ERANGE] and leaves every
    byte of memory as it was; when [dst_off + size > dst_size], so do
    the two fill wrappers; nothing but a log record is produced.  In a
    build without [CONFIG_SSDFS_DEBUG] the wrappers contain no check: each
    runs the underlying copy or fill and returns 0. *)
Theorem bounded_ops_range_check
    (dst dst_off dst_size src src_off src_size size value : Z)
    (st : kstate) :
  (CONFIG_SSDFS_DEBUG cfg = true ->
   0 <= src_off + size < 2 ^ 32 ->
   0 <= dst_off + size < 2 ^ 32 ->
   (src_size < src_off + size \/ dst_size < dst_off + size ->
    refused (ssdfs_memcpy cfg dst dst_off dst_size src src_off src_size
                          size st) st
    /\ refused (ssdfs_memcpy_page cfg dst dst_off dst_size src src_off
                                  src_size size st) st
    /\ refused (ssdfs_memcpy_from_page cfg dst dst_off dst_size src src_off
                                       src_size size st) st
    /\ refused (ssdfs_memcpy_to_page cfg dst dst_off dst_size src src_off
                                     src_size size st) st
    /\ refused (ssdfs_memmove cfg dst dst_off dst_size src src_off src_size
                              size st) st
    /\ refused (ssdfs_memmove_page cfg dst dst_off dst_size src src_off
                                   src_size size st) st)
   /\ (dst_size < dst_off + size ->
       refused (ssdfs_memset_page cfg dst dst_off dst_size value size st) st
       /\ refused (ssdfs_memzero_page cfg dst dst_off dst_size size st) st))
  /\ (CONFIG_SSDFS_DEBUG cfg = false ->
      ssdfs_memcpy cfg dst dst_off dst_size src src_off src_size size st
        = Done 0 (set_memory
                    (memcpy (dst + dst_off) (src + src_off) size) st)
      /\ ssdfs_memcpy_page cfg dst dst_off dst_size src src_off src_size
                           size st
        = Done 0 (set_memory
                    (memcpy (page_address dst + dst_off)
                            (page_address src + src_off) size) st)
      /\ ssdfs_memcpy_from_page cfg dst dst_off dst_size src src_off
                                src_size size st
        = Done 0 (set_memory
                    (memcpy (dst + dst_off) (page_address src + src_off)
                            size) st)
      /\ ssdfs_memcpy_to_page cfg dst dst_off dst_size src src_off
                              src_size size st
        = Done 0 (set_memory
                    (memcpy (page_address dst + dst_off) (src + src_off)
                            size) st)
      /\ ssdfs_memmove cfg dst dst_off dst_size src src_off src_size size st
        = Done 0 (set_memory
                    (memmove (dst + dst_off) (src + src_off) size) st)
      /\ ssdfs_memmove_page cfg dst dst_off dst_size src src_off src_size
                            size st
        = Done 0 (set_memory
                    (memcpy (page_address dst + dst_off)
                            (page_address src + src_off) size) st)
      /\ ssdfs_memset_page cfg dst dst_off dst_size value size st
        = Done 0 (set_memory
                    (memset (page_address dst + dst_off) value size) st)
      /\ ssdfs_memzero_page cfg dst dst_off dst_size size st
        = Done 0 (set_memory
                    (memset (page_address dst + dst_off) 0 size) st)).
Proof.
  split.
  - intros Hdbg Hsrc Hdst. split.
    + intros Hover.
      assert (Hover' : src_size < u32 (src_off + size)
                       \/ dst_size < u32 (dst_off + size))
        by (rewrite !u32_small by assumption; exact Hover).
      repeat split.
      1: apply (checked_range_refuses _ KERN_WARNING); auto.
      all: apply (checked_range_refuses _ KERN_ERR); auto.
    + intros Hover. split; apply checked_dst_range_refuses; auto.
      all: rewrite u32_small by assumption; assumption.
  - intros Hdbg.
    unfold ssdfs_memcpy, ssdfs_memcpy_page, ssdfs_memcpy_from_page,
      ssdfs_memcpy_to_page, ssdfs_memmove, ssdfs_memmove_page,
      ssdfs_memset_page, ssdfs_memzero_page, checked_range,
      checked_dst_range.
    rewrite Hdbg. repeat split.
Qed.

End BoundedCopyProps.

(** C1, the claim as stated fails: in a build without [CONFIG_SSDFS_DEBUG]
    a copy of 8 bytes between two buffers of capacity 4 returns 0 and
    overwrites the bytes that follow the destination buffer. *)
Lemma ssdfs_memcpy_unchecked_without_debug :
  let cfg := Config false true in
  let st := sample_state [] in
  exists st',
    ssdfs_memcpy cfg 100 0 4 200 0 4 8 st = Done 0 st'
    /\ memory st 104 = 104
    /\ memory st' 104 = 204.
Proof. eexists. repeat split. Qed.

(** In a debug build the sums of the checks wrap around at [2 ^ 32]: a
    source offset of [2 ^ 32 - 1] with length 2 passes the check of a
    4-byte source. *)
Lemma ssdfs_memcpy_check_wraps :
  let cfg := Config true true in
  let st := sample_state [] in
  exists st',
    ssdfs_memcpy cfg 100 0 4 200 (2 ^ 32 - 1) 4 2 st = Done 0 st'
    /\ memory st 100 = 100
    /\ memory st' 100 = 199.
Proof. eexists. repeat split. Qed.

Lemma bounded_ops_range_check_witness :
  let st := sample_state [] in
  refused (ssdfs_memcpy (Config true false) 100 0 4 200 0 4 8 st) st
  /\ refused (ssdfs_memset_page (Config true false) 100 0 4 255 8 st) st
  /\ ssdfs_memcpy (Config false false) 100 0 4 200 0 4 8 st
     = Done 0 (set_memory (memcpy 100 200 8) st).
Proof.
  intros st.
  destruct (bounded_ops_range_check (Config true false)
              100 0 4 200 0 4 8 255 st) as [Hchecked _].
  destruct (bounded_ops_range_check (Config false false)
              100 0 4 200 0 4 8 255 st) as [_ Hunchecked].
  destruct Hchecked as [Hcopy Hfill]; [reflexivity|cbn; lia|cbn; lia|].
  destruct (Hcopy ltac:(left; lia)) as (H1 & _).
  destruct (Hfill ltac:(lia)) as (H7 & _).
  destruct (Hunchecked eq_refl) as (H8 & _).
  repeat split; assumption.
Defined.

(** ** Page lifecycle *)

Ltac unfold_kernel :=
  cbv [ssdfs_alloc_page ssdfs_get_page ssdfs_put_page ssdfs_free_page
       CHK.ssdfs_name_alloc_page CHK.ssdfs_name_free_page
       ssdfs_kfree ssdfs_kvfree ssdfs_memory_leaks_decrement kfree kvfree
       alloc_page get_page put_page __free_pages put_page_testzero
       page_ref_inc page_ref_dec_and_test set_page_refcount
       page_ref_count PageLocked free_the_page
       ifdef_DEBUG ifdef_ACCOUNTING SSDFS_DBG SSDFS_ERR SSDFS_WARN printk
       modify when BUG_ON BUG deref deref_obj IS_ERR_OR_NULL negb
       mbind kernel_bind mret kernel_ret
       CONFIG_SSDFS_DEBUG CONFIG_SSDFS_MEMORY_LEAKS_ACCOUNTING].

Ltac simpl_state :=
  cbn [free_area mem_map memory klog slab_objs ssdfs_allocated_pages
       ssdfs_memory_leaks ssdfs_locked_pages page_leaks memory_leaks
       set_free_area set_mem_map set_memory set_klog set_allocated_pages
       set_page_leaks set_memory_leaks set_memory_leaks_total set_slab_objs
       log_err _refcount PG_locked fst snd].

Lemma fn_upd_same {A : Type} (k : Z) (v : A) (f : Z -> A) : fn_upd k v f k = v.
Proof. unfold fn_upd. now rewrite Z.eqb_refl. Qed.

Lemma set_klog_restore (f : list (loglevel * string) -> list (loglevel * string))
    (st : kstate) :
  set_klog (fun _ => klog st) (set_klog f st) = st.
Proof. destruct st; reflexivity. Qed.

Lemma counter_upd_lookup (f : Z -> Z) (name : string) (m : gmap string Z) :
  counter name (counter_upd f name m) = f (counter name m).
Proof. unfold counter, counter_upd. now rewrite lookup_insert_eq. Qed.

Lemma memset_inside (dst value n a : Z) (m : Z -> Z) :
  dst <= a < dst + n -> memset dst value n m a = u8 value.
Proof.
  intros H. unfold memset.
  destruct (Z.leb_spec dst a); [|lia].
  destruct (Z.ltb_spec a (dst + n)); [reflexivity|lia].
Qed.

Section PageLifecycle.
Context (cfg : config) (name : string).

(** C4 (as the code has it).  When the allocator has no frame,
    [ssdfs_alloc_page] and its subsystem variant return
    [ERR_PTR(-ENOMEM)] and change nothing but the log, so no counter is
    touched.  When it has one, they return that page with a reference
    count of 2 (the allocator's reference and the one taken by
    [ssdfs_get_page]); the page is zero-filled when [gfp_mask] contains
    [__GFP_ZERO]; the global page counter is incremented in a build with
    leak accounting, and the subsystem variant increments the subsystem
    counter as well. *)
Theorem ssdfs_alloc_page_result (gfp_mask : Z) (st : kstate) :
  match free_area st with
  | [] =>
      ssdfs_alloc_page cfg gfp_mask st
        = Done (ERR_PTR (- ENOMEM))
               (log_err "unable to allocate memory page" st)
      /\ CHK.ssdfs_name_alloc_page cfg name gfp_mask st
        = Done (ERR_PTR (- ENOMEM))
               (log_err "unable to allocate memory page" st)
  | p :: rest =>
      exists st' st'',
        ssdfs_alloc_page cfg gfp_mask st = Done (Addr p) st'
        /\ CHK.ssdfs_name_alloc_page cfg name gfp_mask st = Done (Addr p) st''
        /\ mem_map st' p = Page 2 false
        /\ free_area st' = rest
        /\ (Z.land gfp_mask __GFP_ZERO <> 0 -> zero_filled st' p)
        /\ ssdfs_allocated_pages st'
           = (if CONFIG_SSDFS_MEMORY_LEAKS_ACCOUNTING cfg
              then atomic64_inc (ssdfs_allocated_pages st)
              else ssdfs_allocated_pages st)
        /\ counter name (page_leaks st'')
           = atomic64_inc (counter name (page_leaks st))
        /\ mem_map st'' = mem_map st'
        /\ memory st'' = memory st'
        /\ free_area st'' = free_area st'
        /\ ssdfs_allocated_pages st'' = ssdfs_allocated_pages st'
  end.
Proof.
  destruct cfg as [dbg acc].
  destruct (free_area st) as [|p rest] eqn:Hf.
  - unfold_kernel. rewrite Hf. split; reflexivity.
  - unfold_kernel. rewrite Hf.
    destruct (Z.eqb_spec (Z.land gfp_mask __GFP_ZERO) 0) as [Hz|Hz].
    + destruct dbg, acc; simpl_state; eexists _, _.
      all: split; [reflexivity|]; split; [reflexivity|]; simpl_state.
      all: rewrite ?fn_upd_same, ?counter_upd_lookup; simpl_state.
      all: rewrite ?fn_upd_same; repeat split; try reflexivity.
      all: intros; contradiction.
    + destruct dbg, acc; simpl_state; eexists _, _.
      all: split; [reflexivity|]; split; [reflexivity|]; simpl_state.
      all: rewrite ?fn_upd_same, ?counter_upd_lookup; simpl_state.
      all: rewrite ?fn_upd_same; repeat split; try reflexivity.
      all: intros _ off Hoff; simpl_state; apply memset_inside; lia.
Qed.

End PageLifecycle.

(** C4, the claim as stated fails: the page that [ssdfs_alloc_page] returns
    has two references, not one, and with a [gfp_mask] that lacks
    [__GFP_ZERO] its bytes are whatever the frame held before. *)
Lemma ssdfs_alloc_page_refcount_is_2 :
  let cfg := Config false true in
  let st := sample_state [7] in
  exists st',
    ssdfs_alloc_page cfg GFP_KERNEL st = Done (Addr 7) st'
    /\ _refcount (mem_map st' 7) = 2
    /\ memory st' (page_address 7 + 1) = 1.
Proof. eexists. repeat split. Qed.


(** ** Symbolic execution of the page lifecycle *)

Lemma modify_run (f : kstate -> kstate) (st : kstate) :
  modify f st = Done tt (f st).
Proof. reflexivity. Qed.

Lemma printk_run (lvl : loglevel) (msg : string) (st : kstate) :
  printk lvl msg st = Done tt (log_when true lvl msg st).
Proof. reflexivity. Qed.

Lemma when_printk_run (b : bool) (lvl : loglevel) (msg : string)
    (st : kstate) :
  when b (printk lvl msg) st = Done tt (log_when b lvl msg st).
Proof.
  destruct b, st; unfold when, printk, modify, log_when, set_klog; cbn;
    rewrite ?app_nil_r; reflexivity.
Qed.

Lemma when_free_run (b : bool) (p : Z) (st : kstate) :
  when b (free_the_page p) st = Done tt (free_when b p st).
Proof. destruct b, st; reflexivity. Qed.

Lemma page_ref_count_run (p : Z) (st : kstate) :
  page_ref_count p st = Done (_refcount (mem_map st p)) st.
Proof. reflexivity. Qed.

Lemma PageLocked_run (p : Z) (st : kstate) :
  PageLocked p st = Done (PG_locked (mem_map st p)) st.
Proof. reflexivity. Qed.

Ltac exec_step :=
  first
    [ rewrite bind_run
    | rewrite ret_run
    | rewrite when_printk_run
    | rewrite when_free_run
    | rewrite printk_run
    | rewrite modify_run
    | rewrite page_ref_count_run
    | rewrite PageLocked_run
    | rewrite when_run ].

Lemma set_page_refcount_same (p c : Z) (mm : Z -> page) :
  set_page_refcount p c mm p = Page c (PG_locked (mm p)).
Proof. apply fn_upd_same. Qed.

Ltac case_ifs :=
  repeat match goal with
  | |- context [if ?c then _ else _] => destruct c eqn:?
  end.

Ltac solve_log :=
  repeat rewrite <- app_assoc;
  first [reflexivity | symmetry; apply app_nil_r].

Ltac solve_diagnostic :=
  repeat match goal with
  | |- Forall _ [] => constructor
  | |- Forall _ (_ :: _) => constructor
  | |- diagnostic _ => first [left; reflexivity | right; reflexivity]
  end.

Ltac find_warning :=
  repeat first [apply Exists_cons_hd; reflexivity | apply Exists_cons_tl].

Ltac simpl_st :=
  cbn [free_area mem_map memory klog slab_objs ssdfs_allocated_pages
       ssdfs_memory_leaks ssdfs_locked_pages page_leaks memory_leaks
       set_free_area set_mem_map set_memory set_klog set_allocated_pages
       set_page_leaks set_memory_leaks set_memory_leaks_total set_slab_objs
       log_err log_when free_when set_page_refcount _refcount PG_locked fst snd].

Ltac exec := repeat (exec_step; simpl_st; rewrite ?fn_upd_same; simpl_st).

Section FreePage.
Context (cfg : config).


(** C5 (as the code has it).  [ssdfs_free_page] on any page returns
    normally whatever the lock flag and the reference count are.  It
    adds only warnings and debug messages to the log: a warning when the
    count left by [ssdfs_put_page] is not exactly 1 and, in a build with
    leak accounting, a warning when the page is locked.  It drops two
    references, one in [ssdfs_put_page] and one in [__free_pages], and in
    a build with leak accounting it decrements the allocated-pages
    counter.  The frame goes back to the allocator exactly when one of
    the two drops brings the count to zero. *)
Theorem ssdfs_free_page_anomalies (p : Z) (st : kstate) :
  let r1 := s32 (_refcount (mem_map st p) - 1) in
  let r2 := s32 (r1 - 1) in
  exists st' added,
    ssdfs_free_page cfg (Addr p) st = Done tt st'
    /\ klog st' = klog st ++ added
    /\ Forall diagnostic added
    /\ (r1 <> 1 -> Exists is_warning added)
    /\ (CONFIG_SSDFS_MEMORY_LEAKS_ACCOUNTING cfg = true ->
        PG_locked (mem_map st p) = true -> Exists is_warning added)
    /\ mem_map st' p = Page r2 (PG_locked (mem_map st p))
    /\ ssdfs_allocated_pages st'
       = (if CONFIG_SSDFS_MEMORY_LEAKS_ACCOUNTING cfg
          then atomic64_dec (ssdfs_allocated_pages st)
          else ssdfs_allocated_pages st)
    /\ free_area st'
       = (if r2 =? 0 then [p] else []) ++ (if r1 =? 0 then [p] else [])
         ++ free_area st
    /\ memory st' = memory st.
Proof.
  intros r1 r2. destruct cfg as [dbg acc].
  unfold ssdfs_free_page, ssdfs_put_page, put_page, __free_pages,
    put_page_testzero, page_ref_dec_and_test, ifdef_ACCOUNTING,
    ifdef_DEBUG, SSDFS_DBG, SSDFS_WARN, deref.
  cbn [CONFIG_SSDFS_DEBUG CONFIG_SSDFS_MEMORY_LEAKS_ACCOUNTING].
  destruct dbg, acc.
  all: exec; eexists _, _; (split; [reflexivity|]).
  all: unfold log_when, free_when; simpl_st.
  all: rewrite ?set_page_refcount_same; simpl_st.
  all: rewrite ?set_page_refcount_same; simpl_st.
  all: fold r1; fold r2.
  all: split; [solve_log|].
  all: split; [case_ifs; cbn [app]; solve_diagnostic|].
  all: split; [intros Hr1; case_ifs; cbn [app]; find_warning;
               bool_hyps; exfalso; lia|].
  all: split; [intros Hacc Hl; try discriminate; rewrite Hl; cbn [app];
               find_warning|].
  all: repeat split; reflexivity.
Qed.
End FreePage.

(** C5, the claim as stated fails: a page that still has two references at
    the point of release (three on entry) is not freed.  The call warns,
    decrements the counter and drops two references; the frame does not
    return to the allocator and keeps one reference. *)
Lemma ssdfs_free_page_keeps_referenced_page :
  let cfg := Config false true in
  let st := set_mem_map (fn_upd 7 (Page 3 false)) (sample_state []) in
  exists st',
    ssdfs_free_page cfg (Addr 7) st = Done tt st'
    /\ free_area st' = []
    /\ _refcount (mem_map st' 7) = 1
    /\ map fst (klog st') = [KERN_WARNING]
    /\ ssdfs_allocated_pages st' = -1.
Proof. eexists. repeat split. Qed.

(** The regular case: a page with the two references that
    [ssdfs_alloc_page] leaves is freed, locked or not. *)
Lemma ssdfs_free_page_frees_locked_page :
  let cfg := Config false true in
  let st := set_mem_map (fn_upd 7 (Page 2 true)) (sample_state []) in
  exists st',
    ssdfs_free_page cfg (Addr 7) st = Done tt st'
    /\ free_area st' = [7]
    /\ _refcount (mem_map st' 7) = 0
    /\ map fst (klog st') = [KERN_WARNING].
Proof. eexists. repeat split. Qed.

(** ** Allocation into a pagevec *)

Lemma same_but_log_intro (st st' : kstate) :
  set_klog (fun _ => klog st) st' = st -> same_but_log st st'.
Proof. intros <-. destruct st'; repeat split. Qed.

Section AddPagevecPage.
Context (cfg : config) (name : string).

Lemma ssdfs_alloc_page_cases (gfp_mask : Z) (st : kstate) :
  (free_area st = []
   /\ ssdfs_alloc_page cfg gfp_mask st
      = Done (ERR_PTR (- ENOMEM))
             (log_err "unable to allocate memory page" st))
  \/ (exists p rest st',
        free_area st = p :: rest
        /\ ssdfs_alloc_page cfg gfp_mask st = Done (Addr p) st'
        /\ free_area st' = rest).
Proof.
  destruct cfg as [dbg acc].
  destruct (free_area st) as [|p rest] eqn:Hf.
  - left. split; [reflexivity|]. unfold_kernel. rewrite Hf. reflexivity.
  - right. exists p, rest. unfold_kernel. rewrite Hf.
    destruct (Z.land gfp_mask __GFP_ZERO =? 0), dbg, acc; simpl_state;
      eexists; repeat split.
Qed.

Lemma pagevec_space_wf (pv : pagevec) :
  pagevec_wf pv -> pagevec_space pv = PAGEVEC_SIZE - nr pv.
Proof.
  intros [Hnr _]. unfold pagevec_space, u32, PAGEVEC_SIZE in *.
  apply Z.mod_small. lia.
Qed.

Lemma pagevec_add_run (pv : pagevec) (p : pointer) (st : kstate) :
  pagevec_wf pv -> nr pv < PAGEVEC_SIZE ->
  pagevec_add pv p st
    = Done (PageVec (nr pv + 1) (<[Z.to_nat (nr pv) := p]> (pages pv))) st.
Proof.
  intros [Hnr Hlen] Hlt. unfold pagevec_add, slot_write.
  replace (Z.to_nat (nr pv) <? length (pages pv))%nat with true.
  - run. cbn [nr pages]. unfold u8, PAGEVEC_SIZE in *.
    rewrite Z.mod_small by lia. reflexivity.
  - symmetry. apply Nat.ltb_lt. rewrite Hlen. unfold PAGEVEC_SIZE in *. lia.
Qed.

Lemma ssdfs_add_pagevec_page_run (pv : pagevec) (st : kstate) :
  pagevec_wf pv ->
  exists r pv' st',
    ssdfs_add_pagevec_page cfg (Some pv) st = Done (r, pv') st'
    /\ add_outcome pv st r pv' st'.
Proof.
  intros Hwf. pose proof (pagevec_space_wf pv Hwf) as Hsp.
  unfold ssdfs_add_pagevec_page, ifdef_DEBUG, BUG_ON, SSDFS_DBG, SSDFS_ERR.
  rewrite (bool_decide_eq_false_2 (Some pv = None)) by discriminate.
  rewrite bind_run.
  replace (when (CONFIG_SSDFS_DEBUG cfg) (when false (BUG "BUG_ON(!pvec)")) st)
    with (Done tt st) by (destruct (CONFIG_SSDFS_DEBUG cfg); reflexivity).
  run. rewrite Hsp.
  destruct (Z.eqb_spec (PAGEVEC_SIZE - nr pv) 0) as [Hfull|Hroom].
  - exec. eexists _, _, _. split; [reflexivity|]. cbn.
    split; [right; split; [reflexivity|lia]|].
    split; [reflexivity|]. apply same_but_log_intro, set_klog_restore.
  - rewrite bind_run.
    destruct (ssdfs_alloc_page_cases (Z.lor GFP_KERNEL __GFP_ZERO) st)
      as [[Hf ->]|(p & rest & st' & Hf & -> & Hrest)].
    + cbn [IS_ERR_OR_NULL].
      rewrite (bool_decide_eq_false_2 (ERR_PTR (- ENOMEM) = NULL))
        by discriminate.
      exec. eexists _, _, _. split; [reflexivity|]. cbn.
      destruct Hwf as [Hnr _].
      split; [left; repeat split; [lia|assumption]|].
      split; [reflexivity|]. apply same_but_log_intro.
      destruct st; reflexivity.
    + assert (Hlt : nr pv < PAGEVEC_SIZE) by (destruct Hwf; lia).
      cbn [IS_ERR_OR_NULL]. rewrite bind_run, pagevec_add_run by auto.
      exec. destruct (CONFIG_SSDFS_DEBUG cfg); exec.
      all: eexists _, _, _; (split; [reflexivity|]); cbn.
      all: unfold log_when; simpl_st; rewrite Hf, Hrest; repeat split; auto.
Qed.

(** The count of a pagevec never exceeds [PAGEVEC_SIZE]: a call hands back
    a well-formed vector, with one page more or as it was. *)
Lemma ssdfs_add_pagevec_page_keeps_wf (pv pv' : pagevec) (r : pointer)
    (st st' : kstate) :
  pagevec_wf pv ->
  ssdfs_add_pagevec_page cfg (Some pv) st = Done (r, pv') st' ->
  pagevec_wf pv' /\ nr pv <= nr pv' <= PAGEVEC_SIZE.
Proof.
  intros Hwf Hrun.
  destruct (ssdfs_add_pagevec_page_run pv st Hwf)
    as (r0 & pv0 & st0 & Hrun0 & Hout).
  rewrite Hrun in Hrun0. injection Hrun0 as <- <- <-.
  destruct Hwf as [Hnr Hlen].
  destruct r as [|e|p]; cbn in Hout; [contradiction| |].
  - destruct Hout as (_ & -> & _). repeat split; lia || assumption.
  - destruct Hout as (Hlt & _ & ->). unfold pagevec_wf. cbn [nr pages].
    rewrite length_insert. repeat split; lia || assumption.
Qed.

(** C3.  For every invocation of [ssdfs_add_pagevec_page], and of its
    subsystem variant, on a well-formed page vector: the call returns,
    and when it fails it fails with [-ENOMEM] (the allocator had no
    frame) or with [-E2BIG] (the vector was full), these being the only
    failures; then the vector is as it was, no frame has left the
    allocator, and neither the global nor the subsystem page counter has
    moved.  On success the new page is in the vector. *)
Theorem ssdfs_add_pagevec_page_failure_modes (pv : pagevec) (st : kstate) :
  pagevec_wf pv ->
  (exists r pv' st',
     ssdfs_add_pagevec_page cfg (Some pv) st = Done (r, pv') st'
     /\ add_outcome pv st r pv' st')
  /\ (exists r pv' st',
        CHK.ssdfs_name_add_pagevec_page cfg name (Some pv) st
          = Done (r, pv') st'
        /\ add_outcome pv st r pv' st').
Proof.
  intros Hwf.
  destruct (ssdfs_add_pagevec_page_run pv st Hwf)
    as (r & pv' & st' & Hrun & Hout).
  split; [eauto|].
  unfold CHK.ssdfs_name_add_pagevec_page. rewrite bind_run, Hrun.
  cbn [fst]. unfold SSDFS_DBG.
  destruct r as [|e|p]; cbn [IS_ERR_OR_NULL negb]; [contradiction| |].
  - exec. eauto.
  - exec. eexists _, _, _. split; [reflexivity|].
    cbn in *. unfold log_when. simpl_st. assumption.
Qed.
End AddPagevecPage.

Lemma ssdfs_add_pagevec_page_failure_modes_witness :
  let cfg := Config false true in
  let full := PageVec 15 (replicate 15 (Addr 1)) in
  let st := sample_state [7] in
  pagevec_wf full
  /\ (exists r pv' st',
        ssdfs_add_pagevec_page cfg (Some full) st = Done (r, pv') st'
        /\ add_outcome full st r pv' st')
  /\ (exists r pv' st',
        CHK.ssdfs_name_add_pagevec_page cfg "page_vector" (Some full) st
          = Done (r, pv') st'
        /\ add_outcome full st r pv' st').
Proof.
  intros cfg full st.
  assert (Hwf : pagevec_wf full).
  { unfold pagevec_wf, PAGEVEC_SIZE. cbn. split; [lia|reflexivity]. }
  split; [exact Hwf|].
  exact (ssdfs_add_pagevec_page_failure_modes cfg "page_vector" full st Hwf).
Defined.

(** A full vector gets [-E2BIG], an exhausted allocator [-ENOMEM], and a
    vector with room gets the first free frame. *)
Example ssdfs_add_pagevec_page_runs :
  let cfg := Config false true in
  let full := PageVec 15 (replicate 15 (Addr 1)) in
  let room := PageVec 1 (Addr 1 :: replicate 14 NULL) in
  retval (ssdfs_add_pagevec_page cfg (Some full) (sample_state [7]))
    = Some (ERR_PTR (- E2BIG))
  /\ retval (ssdfs_add_pagevec_page cfg (Some room) (sample_state []))
    = Some (ERR_PTR (- ENOMEM))
  /\ retval (ssdfs_add_pagevec_page cfg (Some room) (sample_state [7]))
    = Some (Addr 7).
Proof. repeat split. Qed.

(** ** Null tolerance of the free operations *)

Section NullTolerance.
Context (cfg : config) (name : string).

Lemma ssdfs_pagevec_release_loop_run (k : Z) (n : nat) :
  forall (pre l : list pointer) (st : kstate),
    (n <= length l)%nat ->
    ssdfs_pagevec_release_loop cfg n (Z.of_nat (length pre))
                               (PageVec k (pre ++ l)) st
    = (free_all cfg (non_null (take n l));;
       mret (PageVec k (pre ++ replicate n NULL ++ drop n l))) st.
Proof.
  induction n as [|n IH]; intros pre l st Hn.
  - reflexivity.
  - destruct l as [|x l]; [cbn in Hn; lia|]. cbn in Hn.
    cbn [ssdfs_pagevec_release_loop]. unfold slot_read.
    cbn [pages]. rewrite Nat2Z.id, list_lookup_middle by reflexivity.
    rewrite bind_run, ret_run.
    assert (Hnext : Z.of_nat (length pre) + 1
                    = Z.of_nat (length (pre ++ [NULL]))).
    { rewrite length_app. cbn. lia. }
    assert (Hshift : forall t : list pointer,
               pre ++ NULL :: t = (pre ++ [NULL]) ++ t).
    { intros t. now rewrite <- app_assoc. }
    destruct x as [|e|a].
    + rewrite Hnext, (Hshift l), IH by lia.
      cbn [take replicate drop]. rewrite <- Hshift. reflexivity.
    + cbn [take]. unfold non_null. rewrite filter_cons_True by discriminate.
      cbn [free_all]. rewrite !bind_run.
      destruct (ssdfs_free_page cfg (ERR_PTR e) st) as [[] st1|why|on];
        [|reflexivity..].
      unfold slot_write. cbn [pages nr].
      rewrite Nat2Z.id.
      replace (length pre <? length (pre ++ ERR_PTR e :: l))%nat with true
        by (symmetry; apply Nat.ltb_lt; rewrite length_app; cbn; lia).
      rewrite bind_run, ret_run.
      replace (<[length pre := NULL]> (pre ++ ERR_PTR e :: l))
        with ((pre ++ [NULL]) ++ l)
        by (rewrite insert_app_r_alt, Nat.sub_diag, <- app_assoc by lia;
            reflexivity).
      rewrite Hnext, IH by lia.
      cbn [replicate drop]. rewrite <- Hshift. reflexivity.
    + cbn [take]. unfold non_null. rewrite filter_cons_True by discriminate.
      cbn [free_all]. rewrite !bind_run.
      destruct (ssdfs_free_page cfg (Addr a) st) as [[] st1|why|on];
        [|reflexivity..].
      unfold slot_write. cbn [pages nr].
      rewrite Nat2Z.id.
      replace (length pre <? length (pre ++ Addr a :: l))%nat with true
        by (symmetry; apply Nat.ltb_lt; rewrite length_app; cbn; lia).
      rewrite bind_run, ret_run.
      replace (<[length pre := NULL]> (pre ++ Addr a :: l))
        with ((pre ++ [NULL]) ++ l)
        by (rewrite insert_app_r_alt, Nat.sub_diag, <- app_assoc by lia;
            reflexivity).
      rewrite Hnext, IH by lia.
      cbn [replicate drop]. rewrite <- Hshift. reflexivity.
Qed.


Lemma debug_note_run (msg : string) (st : kstate) :
  ifdef_DEBUG cfg (SSDFS_DBG cfg msg) st = Done tt (debug_note cfg msg st).
Proof.
  unfold ifdef_DEBUG, SSDFS_DBG, debug_note.
  destruct (CONFIG_SSDFS_DEBUG cfg).
  - reflexivity.
  - change (when false (when false (printk KERN_DEBUG msg)) st)
      with (when false (printk KERN_DEBUG msg) st).
    apply when_printk_run.
Qed.

Lemma debug_note_same_but_log (msg : string) (st : kstate) :
  same_but_log st (debug_note cfg msg st).
Proof. repeat split. Qed.

(** C10.  The free operations tolerate null.  [ssdfs_kfree],
    [ssdfs_kvfree] and [ssdfs_free_page], and their subsystem variants,
    return on a null pointer with the state exactly as it was: nothing
    is freed and no counter changes.  [ssdfs_pagevec_release] on a null
    pagevec returns having written at most a debug message.  On a
    pagevec whose count does not exceed its array, it does exactly what
    freeing the non-null entries below the count does, in order, and
    leaves the count at 0 and those slots null: null slots are passed
    over. *)
Theorem free_operations_null_tolerant (st : kstate) :
  ssdfs_kfree cfg NULL st = Done tt st
  /\ ssdfs_kvfree cfg NULL st = Done tt st
  /\ ssdfs_free_page cfg NULL st = Done tt st
  /\ CHK.ssdfs_name_kfree cfg name NULL st = Done tt st
  /\ CHK.ssdfs_name_kvfree cfg name NULL st = Done tt st
  /\ CHK.ssdfs_name_free_page cfg name NULL st = Done tt st
  /\ ssdfs_pagevec_release cfg None st = Done None (debug_note cfg "pvec %p" st)
  /\ CHK.ssdfs_name_pagevec_release cfg name None st
     = Done None (debug_note cfg "pvec %p" st)
  /\ same_but_log st (debug_note cfg "pvec %p" st)
  /\ (forall pv : pagevec,
        let n := Z.to_nat (nr pv) in
        (n <= length (pages pv))%nat ->
        ssdfs_pagevec_release cfg (Some pv) st
        = (ifdef_DEBUG cfg (SSDFS_DBG cfg "pvec %p");;
           ifdef_DEBUG cfg (SSDFS_DBG cfg "pvec count %u");;
           free_all cfg (non_null (take n (pages pv)));;
           mret (Some (PageVec 0 (replicate n NULL ++ drop n (pages pv)))))
            st).
Proof.
  repeat split.
  - unfold ssdfs_pagevec_release. rewrite bind_run, debug_note_run.
    reflexivity.
  - unfold CHK.ssdfs_name_pagevec_release. rewrite bind_run, ret_run.
    unfold ssdfs_pagevec_release. rewrite bind_run, debug_note_run.
    reflexivity.
  - intros pv n Hn. unfold ssdfs_pagevec_release, pagevec_count.
    rewrite !bind_run. destruct (ifdef_DEBUG cfg _ st) as [[] st1|why|on];
      [|reflexivity..].
    rewrite !bind_run. destruct (ifdef_DEBUG cfg _ st1) as [[] st2|why|on];
      [|reflexivity..].
    rewrite !bind_run. fold n. destruct pv as [k slots]. cbn [pages nr] in *.
    pose proof (ssdfs_pagevec_release_loop_run k n [] slots st2 Hn) as Hloop.
    cbn [length app] in Hloop. change (Z.of_nat 0) with 0 in Hloop.
    rewrite Hloop, bind_run.
    destruct (free_all cfg _ st2) as [[] st3|why|on]; reflexivity.
Qed.

End NullTolerance.

(** A pagevec with null slots around a page: the nulls are passed over and
    the page is freed. *)
Example ssdfs_pagevec_release_skips_null_slots :
  let cfg := Config false true in
  let pv := PageVec 3 (NULL :: Addr 7 :: NULL :: replicate 12 NULL) in
  let st := set_mem_map (fn_upd 7 (Page 2 false)) (sample_state []) in
  exists st',
    ssdfs_pagevec_release cfg (Some pv) st
      = Done (Some (PageVec 0 (replicate 15 NULL))) st'
    /\ free_area st' = [7]
    /\ klog st' = [].
Proof. eexists. repeat split. Qed.

(** ** The allocate operation of the page vector *)

Lemma s64_small (c : Z) : is_s64 c -> s64 c = c.
Proof.
  unfold is_s64, s64. intros H. rewrite Z.mod_small by lia. lia.
Qed.

Lemma s64_range (c : Z) : is_s64 (s64 c).
Proof.
  unfold is_s64, s64. pose proof (Z.mod_pos_bound (c + 2 ^ 63) (2 ^ 64)). lia.
Qed.

Lemma atomic64_dec_inc (c : Z) : is_s64 c -> atomic64_dec (atomic64_inc c) = c.
Proof.
  intros H. unfold atomic64_dec, atomic64_inc, s64.
  replace ((c + 1 + 2 ^ 63) mod 2 ^ 64 - 2 ^ 63 - 1 + 2 ^ 63)
    with ((c + 1 + 2 ^ 63) mod 2 ^ 64 - 1) by lia.
  rewrite Zminus_mod_idemp_l.
  replace (c + 1 + 2 ^ 63 - 1) with (c + 2 ^ 63) by lia.
  apply (s64_small c H).
Qed.

Section Allocate.
Context (cfg : config).

Lemma alloc_then_free (gfp_mask p : Z) (rest : list Z) (st : kstate) :
  free_area st = p :: rest ->
  is_s64 (ssdfs_allocated_pages st) ->
  exists st1 st2,
    ssdfs_alloc_page cfg gfp_mask st = Done (Addr p) st1
    /\ ssdfs_free_page cfg (Addr p) st1 = Done tt st2
    /\ free_area st1 = rest
    /\ free_area st2 = free_area st
    /\ ssdfs_allocated_pages st2 = ssdfs_allocated_pages st
    /\ page_leaks st2 = page_leaks st.
Proof.
  intros Hf Hc. destruct cfg as [dbg acc].
  unfold ssdfs_alloc_page, ssdfs_get_page, get_page, page_ref_inc,
    ssdfs_free_page, ssdfs_put_page, put_page, __free_pages,
    put_page_testzero, page_ref_dec_and_test, ifdef_ACCOUNTING,
    ifdef_DEBUG, SSDFS_DBG, SSDFS_WARN, deref.
  cbn [CONFIG_SSDFS_DEBUG CONFIG_SSDFS_MEMORY_LEAKS_ACCOUNTING].
  assert (Halloc : exists m, alloc_page gfp_mask st
            = Done (Addr p)
                (set_memory (fun _ => m)
                   (set_mem_map (fn_upd p (Page 1 false))
                      (set_free_area (fun _ => rest) st)))).
  { unfold alloc_page. rewrite Hf.
    destruct (Z.land gfp_mask __GFP_ZERO =? 0); [|eauto].
    exists (memory st). destruct st; reflexivity. }
  destruct Halloc as [m Halloc].
  rewrite bind_run, Halloc.
  destruct dbg, acc; exec; eexists _, _; (split; [reflexivity|]).
  all: exec; rewrite ?set_page_refcount_same; simpl_st.
  all: change (s32 (1 + 1)) with 2; change (s32 (2 - 1)) with 1;
       change (s32 (1 - 1)) with 0; cbn [Z.eqb Z.ltb Z.leb Z.compare orb
         Pos.compare Pos.compare_cont].
  all: exec; rewrite ?set_page_refcount_same; simpl_st.
  all: change (s32 (1 - 1)) with 0; cbn [Z.eqb].
  all: split; [reflexivity|]; unfold log_when, free_when; simpl_st.
  all: rewrite ?atomic64_dec_inc by assumption; rewrite ?Hf; repeat split.
Qed.

End Allocate.

(** ** Capacity discipline of the page vector *)

Module page_vector_props.
Import page_vector.

Lemma create_wf (C : Z) (ok : bool) (v : ssdfs_page_vector) :
  ssdfs_page_vector_create C ok = inr v ->
  wf v /\ count v = 0 /\ capacity v = C /\ 1 <= C <= 255.
Proof.
  unfold ssdfs_page_vector_create.
  destruct (Z.leb_spec 1 C), (Z.leb_spec C 255), ok; cbn; try discriminate.
  intros [= <-]. unfold wf. cbn. rewrite length_replicate. lia.
Qed.

Lemma add_success (v : ssdfs_page_vector) (h : pointer) :
  wf v -> count v < capacity v ->
  exists v',
    ssdfs_page_vector_add v h = (None, v')
    /\ wf v' /\ count v' = count v + 1 /\ capacity v' = capacity v
    /\ owned v' = owned v ++ [h].
Proof.
  intros [Hc Hl] Hlt. unfold ssdfs_page_vector_add.
  destruct (Z.ltb_spec (count v) (capacity v)); [|lia].
  eexists. split; [reflexivity|]. unfold wf, owned. cbn.
  rewrite length_insert. repeat split; try lia.
  replace (Z.to_nat (count v + 1)) with (S (Z.to_nat (count v))) by lia.
  erewrite take_S_r by (apply list_lookup_insert_eq; lia).
  rewrite take_insert_ge by lia. reflexivity.
Qed.

Lemma add_full (v : ssdfs_page_vector) (h : pointer) :
  capacity v <= count v ->
  ssdfs_page_vector_add v h = (Some CapacityExceeded, v).
Proof.
  intros H. unfold ssdfs_page_vector_add.
  destruct (Z.ltb_spec (count v) (capacity v)); [lia|reflexivity].
Qed.

Lemma add_preserves (v : ssdfs_page_vector) (h : pointer) :
  wf v ->
  wf (ssdfs_page_vector_add v h).2
  /\ capacity (ssdfs_page_vector_add v h).2 = capacity v.
Proof.
  intros Hwf. destruct (Z_lt_le_dec (count v) (capacity v)) as [Hlt|Hge].
  - destruct (add_success v h Hwf Hlt) as (v' & -> & Hwf' & _ & Hcap & _).
    now split.
  - rewrite add_full by assumption. now split.
Qed.

Lemma add_all_preserves (hs : list pointer) (v : ssdfs_page_vector) :
  wf v -> wf (add_all v hs) /\ capacity (add_all v hs) = capacity v.
Proof.
  revert v. induction hs as [|h hs IH]; intros v Hwf; [now split|].
  change (add_all v (h :: hs))
    with (add_all (ssdfs_page_vector_add v h).2 hs).
  destruct (add_preserves v h Hwf) as [Hwf' Hcap].
  destruct (IH _ Hwf') as [Hwf'' Hcap']. split; [assumption|congruence].
Qed.

Lemma add_all_count (hs : list pointer) (v : ssdfs_page_vector) :
  wf v ->
  count (add_all v hs)
  = Z.min (capacity v) (count v + Z.of_nat (length hs)).
Proof.
  revert v. induction hs as [|h hs IH]; intros v Hwf.
  - cbn. destruct Hwf. lia.
  - change (add_all v (h :: hs))
      with (add_all (ssdfs_page_vector_add v h).2 hs).
    destruct (add_preserves v h Hwf) as [Hwf' Hcap].
    rewrite IH, Hcap by assumption. cbn [length].
    destruct (Z_lt_le_dec (count v) (capacity v)) as [Hlt|Hge].
    + destruct (add_success v h Hwf Hlt) as (v' & -> & _ & Hcnt & _).
      cbn [snd]. lia.
    + rewrite add_full by assumption. cbn [snd]. destruct Hwf. lia.
Qed.

(** C2.  For every page vector created with capacity [C] and every
    sequence of [add] calls on it: the count never exceeds [C]; after [C]
    calls on the fresh vector the count is [C]; and an [add] on a vector
    whose count equals its capacity fails with [CapacityExceeded] and
    hands the vector back as it was, so the count is unchanged and the
    handle has not been taken over (the handles owned are the same).
    While there is room an [add] succeeds, raises the count by one and
    takes the handle over. *)
Theorem add_respects_capacity (C : Z) (ok : bool) (v0 : ssdfs_page_vector)
    (hs : list pointer) (h : pointer) :
  ssdfs_page_vector_create C ok = inr v0 ->
  let v := add_all v0 hs in
  0 <= ssdfs_page_vector_count v <= C
  /\ capacity v = C
  /\ (Z.of_nat (length hs) = C -> ssdfs_page_vector_count v = C)
  /\ (ssdfs_page_vector_count v = C ->
      ssdfs_page_vector_add v h = (Some CapacityExceeded, v)
      /\ ssdfs_page_vector_count (ssdfs_page_vector_add v h).2
         = ssdfs_page_vector_count v
      /\ owned (ssdfs_page_vector_add v h).2 = owned v)
  /\ (ssdfs_page_vector_count v < C ->
      exists v',
        ssdfs_page_vector_add v h = (None, v')
        /\ ssdfs_page_vector_count v' = ssdfs_page_vector_count v + 1
        /\ owned v' = owned v ++ [h]).
Proof.
  intros Hcreate v.
  destruct (create_wf C ok v0 Hcreate) as (Hwf0 & Hc0 & Hcap0 & HC).
  destruct (add_all_preserves hs v0 Hwf0) as [Hwf Hcap].
  fold v in Hwf, Hcap. unfold ssdfs_page_vector_count.
  pose proof (add_all_count hs v0 Hwf0) as Hcnt. fold v in Hcnt.
  destruct Hwf as [Hrange Hlen].
  split; [lia|]. split; [congruence|]. split; [lia|]. split.
  - intros Hfull. rewrite add_full by lia. repeat split.
  - intros Hroom.
    destruct (add_success v h (conj Hrange Hlen)) as (v' & Hadd & _ & Hc & _ & Ho);
      [lia|].
    exists v'. repeat split; assumption.
Qed.

Lemma add_respects_capacity_witness :
  let hs := [Addr 1; Addr 2; Addr 3; Addr 4] in
  let v0 := PageVector 0 4 (replicate 4 NULL) in
  let v := add_all v0 hs in
  ssdfs_page_vector_create 4 true = inr v0
  /\ ssdfs_page_vector_count v = 4
  /\ ssdfs_page_vector_add v (Addr 5) = (Some CapacityExceeded, v).
Proof.
  intros hs v0 v.
  assert (Hcreate : ssdfs_page_vector_create 4 true = inr v0)
    by reflexivity.
  split; [exact Hcreate|].
  destruct (add_respects_capacity 4 true v0 hs (Addr 5) Hcreate)
    as (_ & _ & Hfill & Hfull & _).
  split; [apply Hfill; reflexivity|].
  apply Hfull, Hfill. reflexivity.
Defined.

(** The allocate operation as the design document describes it (acquire,
    then [add], then free on failure): it fails with [OutOfMemory] or with
    [CapacityExceeded] only, and then the vector is as it was, the frame
    that was acquired is back in the allocator and the page counters are
    what they were. *)
Lemma ssdfs_page_vector_allocate_failure (cfg : config)
    (array : ssdfs_page_vector) (st : kstate) :
  wf array ->
  is_s64 (ssdfs_allocated_pages st) ->
  exists r array' st',
    ssdfs_page_vector_allocate cfg array st = Done (r, array') st'
    /\ match r with
       | inl e =>
           (e = OutOfMemory /\ free_area st = []
            \/ e = CapacityExceeded /\ count array = capacity array)
           /\ array' = array
           /\ free_area st' = free_area st
           /\ ssdfs_allocated_pages st' = ssdfs_allocated_pages st
           /\ page_leaks st' = page_leaks st
       | inr page =>
           exists p, page = Addr p
                     /\ free_area st = p :: free_area st'
                     /\ owned array' = owned array ++ [page]
       end.
Proof.
  intros Hwf Hc. unfold ssdfs_page_vector_allocate. rewrite bind_run.
  destruct (free_area st) as [|p rest] eqn:Hf.
  - destruct (ssdfs_alloc_page_cases cfg (Z.lor GFP_KERNEL __GFP_ZERO) st)
      as [[_ ->]|(q & rest' & st' & Hf' & _)]; [|congruence].
    cbn [IS_ERR_OR_NULL]. rewrite ret_run. eexists _, _, _.
    split; [reflexivity|]. cbn. rewrite Hf. repeat split. now left.
  - destruct (alloc_then_free cfg (Z.lor GFP_KERNEL __GFP_ZERO) p rest st Hf Hc)
      as (st1 & st2 & -> & Hfree & Hrest & Harea & Hcnt & Hleaks).
    cbn [IS_ERR_OR_NULL].
    destruct (Z_lt_le_dec (count array) (capacity array)) as [Hlt|Hge].
    + destruct (add_success array (Addr p) Hwf Hlt)
        as (v' & -> & _ & _ & _ & Hown).
      rewrite ret_run. eexists _, _, _. split; [reflexivity|].
      exists p. rewrite Hrest. repeat split; congruence.
    + rewrite add_full by assumption. rewrite bind_run, Hfree, ret_run.
      eexists _, _, _. split; [reflexivity|]. cbn.
      destruct Hwf as [Hrange _].
      split; [right; split; [reflexivity|lia]|]. repeat split; congruence.
Qed.

End page_vector_props.

(** * Further properties of the header

    The properties below cover the functions of [ssdfs_inline.h] around
    the ones above: the slab wrappers, the reference and lock helpers, the
    filling and release of a pagevec, the per-subsystem counters, copies
    that are in range, the checksum verdict, the mount options, the page
    unit conversions, extent merging and the name hash. *)

(** ** Auxiliary facts *)

Lemma debug_only_refl (st : kstate) : debug_only st st.
Proof. exists []. split; [now rewrite app_nil_r|constructor]. Qed.

Lemma debug_only_trans (st1 st2 st3 : kstate) :
  debug_only st1 st2 -> debug_only st2 st3 -> debug_only st1 st3.
Proof.
  intros (a1 & H1 & F1) (a2 & H2 & F2). exists (a1 ++ a2).
  split; [rewrite H2, H1; now rewrite app_assoc|].
  apply Forall_app; split; assumption.
Qed.

Lemma same_but_log_refl (st : kstate) : same_but_log st st.
Proof. repeat split. Qed.

Lemma same_but_log_trans (st1 st2 st3 : kstate) :
  same_but_log st1 st2 -> same_but_log st2 st3 -> same_but_log st1 st3.
Proof.
  unfold same_but_log. intros H1 H2.
  destruct H1 as (?&?&?&?&?&?&?&?&?), H2 as (?&?&?&?&?&?&?&?&?).
  repeat split; congruence.
Qed.

Lemma counter_upd_other (f : Z -> Z) (name other : string)
    (m : gmap string Z) :
  other <> name -> counter other (counter_upd f name m) = counter other m.
Proof.
  intros H. unfold counter, counter_upd. now rewrite lookup_insert_ne.
Qed.

Lemma s32_small (c : Z) : - 2 ^ 31 <= c < 2 ^ 31 -> s32 c = c.
Proof. intros H. unfold s32. rewrite Z.mod_small by lia. lia. Qed.

Lemma s64_add_idemp (x d : Z) : s64 (s64 x + d) = s64 (x + d).
Proof.
  unfold s64. f_equal.
  replace ((x + 2 ^ 63) mod 2 ^ 64 - 2 ^ 63 + d + 2 ^ 63)
    with ((x + 2 ^ 63) mod 2 ^ 64 + d) by lia.
  rewrite Zplus_mod_idemp_l. f_equal. lia.
Qed.

Lemma u64_small (z : Z) : 0 <= z < 2 ^ 64 -> u64 z = z.
Proof. intros H. unfold u64. apply Z.mod_small, H. Qed.

Lemma ulong_small (z : Z) : 0 <= z < 2 ^ 64 -> ulong z = z.
Proof. intros H. unfold ulong, BITS_PER_LONG. apply Z.mod_small, H. Qed.

Lemma pow2_split (a b : Z) : 0 <= a <= b -> 2 ^ b = 2 ^ a * 2 ^ (b - a).
Proof. intros H. rewrite <- Z.pow_add_r by lia. f_equal. lia. Qed.

(** ** Slab wrappers: what is allocated and freed is counted once *)

Lemma remove_obj_fresh (a : Z) (l : list Z) :
  a ∉ l -> remove_obj a (a :: l) = l.
Proof.
  intros Ha. unfold remove_obj. rewrite filter_cons_False by tauto.
  induction l as [|b l IH]; [reflexivity|].
  rewrite not_elem_of_cons in Ha. destruct Ha as [Hab Hal].
  rewrite filter_cons_True by congruence. f_equal. apply IH, Hal.
Qed.

Lemma bump_allocator_contract : slab_allocation bump_allocator.
Proof.
  intros st. right. eexists _, _. split; [|reflexivity].
  assert (H : forall l x, x ∈ l -> x <= foldr Z.max 0 l).
  { induction l as [|b l IH]; intros x Hx; [inversion Hx|].
    cbn. apply elem_of_cons in Hx as [->|Hx]; [lia|].
    specialize (IH x Hx). lia. }
  intros Hin. apply H in Hin. lia.
Qed.

Section SlabWrappers.
Context (cfg : config) (name : string).

Lemma ssdfs_kmalloc_kfree (alloc : Z -> Z -> kernel pointer)
    (size flags : Z) (st : kstate) :
  slab_allocation (alloc size flags) ->
  is_s64 (ssdfs_memory_leaks st) ->
  alloc_free_balanced cfg (ssdfs_kmalloc cfg alloc size flags)
                      (ssdfs_kfree cfg) st.
Proof.
  intros Halloc Hc. unfold alloc_free_balanced, ssdfs_kmalloc.
  rewrite bind_run.
  destruct (Halloc st) as [->|(a & m & Hfresh & ->)].
  - run. exists NULL, st, st. repeat split; congruence.
  - unfold ssdfs_kfree, ssdfs_memory_leaks_increment,
      ssdfs_memory_leaks_decrement, ifdef_ACCOUNTING, SSDFS_DBG, kfree.
    cbn [deref].
    destruct (CONFIG_SSDFS_MEMORY_LEAKS_ACCOUNTING cfg).
    + exec. eexists _, _, _. split; [reflexivity|]. exec.
      split; [reflexivity|]. unfold log_when; simpl_st.
      rewrite remove_obj_fresh by assumption.
      rewrite atomic64_dec_inc by assumption.
      repeat split; congruence.
    + exec. eexists _, _, _. split; [reflexivity|]. exec.
      split; [reflexivity|]. simpl_st.
      rewrite remove_obj_fresh by assumption.
      repeat split; congruence.
Qed.

Lemma ssdfs_name_kmalloc_kfree (alloc : Z -> Z -> kernel pointer)
    (size flags : Z) (st : kstate) :
  slab_allocation (alloc size flags) ->
  is_s64 (ssdfs_memory_leaks st) ->
  is_s64 (counter name (memory_leaks st)) ->
  subsystem_alloc_free_balanced name
    (CHK.ssdfs_name_kmalloc cfg name alloc size flags)
    (CHK.ssdfs_name_kfree cfg name) st.
Proof.
  intros Halloc Hc Hn.
  unfold subsystem_alloc_free_balanced, CHK.ssdfs_name_kmalloc, ssdfs_kmalloc.
  rewrite !bind_run.
  destruct (Halloc st) as [->|(a & m & Hfresh & ->)].
  - run. exists NULL, st, st. repeat split; congruence.
  - unfold CHK.ssdfs_name_kfree, ssdfs_kfree, ssdfs_memory_leaks_increment,
      ssdfs_memory_leaks_decrement, ifdef_ACCOUNTING, SSDFS_DBG, kfree.
    cbn [deref].
    destruct (CONFIG_SSDFS_MEMORY_LEAKS_ACCOUNTING cfg).
    + exec. eexists _, _, _. split; [reflexivity|]. exec.
      split; [reflexivity|]. unfold log_when; simpl_st.
      rewrite remove_obj_fresh by assumption.
      rewrite atomic64_dec_inc by assumption.
      rewrite !counter_upd_lookup, atomic64_dec_inc by assumption.
      repeat split; try congruence.
      intros other Ho. now rewrite !counter_upd_other by assumption.
    + exec. eexists _, _, _. split; [reflexivity|]. exec.
      split; [reflexivity|]. unfold log_when; simpl_st.
      rewrite remove_obj_fresh by assumption.
      rewrite !counter_upd_lookup, atomic64_dec_inc by assumption.
      repeat split; try congruence.
      intros other Ho. now rewrite !counter_upd_other by assumption.
Qed.

(** X1.  For every slab allocator that keeps its contract and every
    state whose global counter is a 64-bit value: [ssdfs_kmalloc],
    [ssdfs_kzalloc] and [ssdfs_kcalloc] followed by [ssdfs_kfree] of the
    result, and [ssdfs_kvzalloc] followed by [ssdfs_kvfree], return
    normally; a failed allocation (null) leaves the state untouched, so
    it is not counted, and freeing the null does nothing; a successful
    one increments [ssdfs_memory_leaks] in an accounting build and leaves
    it alone otherwise; after the free the live objects and the counter
    are what they were before the allocation. *)
Theorem slab_wrappers_balanced (alloc : Z -> Z -> kernel pointer)
    (calloc : Z -> Z -> Z -> kernel pointer) (n size flags : Z)
    (st : kstate) :
  slab_allocation (alloc size flags) ->
  slab_allocation (calloc n size flags) ->
  is_s64 (ssdfs_memory_leaks st) ->
  alloc_free_balanced cfg (ssdfs_kmalloc cfg alloc size flags)
                      (ssdfs_kfree cfg) st
  /\ alloc_free_balanced cfg (ssdfs_kzalloc cfg alloc size flags)
                         (ssdfs_kfree cfg) st
  /\ alloc_free_balanced cfg (ssdfs_kvzalloc cfg alloc size flags)
                         (ssdfs_kvfree cfg) st
  /\ alloc_free_balanced cfg (ssdfs_kcalloc cfg calloc n size flags)
                         (ssdfs_kfree cfg) st.
Proof.
  intros Ha Hc Hs. repeat split.
  - apply ssdfs_kmalloc_kfree; assumption.
  - apply (ssdfs_kmalloc_kfree alloc); assumption.
  - apply (ssdfs_kmalloc_kfree alloc); assumption.
  - apply (ssdfs_kmalloc_kfree (calloc n)); assumption.
Qed.

(** X2.  The same round trip for the wrappers that
    [SSDFS_MEMORY_LEAKS_CHECKER_FNS(name)] generates: a failed allocation
    leaves the state untouched; a successful one increments
    [ssdfs_<name>_memory_leaks], in every build; after
    [ssdfs_<name>_kfree] (or [ssdfs_<name>_kvfree] for the [kvzalloc]
    variant) the live objects, the global counter and the counter of
    [name] are what they were, and the counter of no other subsystem has
    moved. *)
Theorem subsystem_slab_wrappers_balanced (alloc : Z -> Z -> kernel pointer)
    (calloc : Z -> Z -> Z -> kernel pointer) (n size flags : Z)
    (st : kstate) :
  slab_allocation (alloc size flags) ->
  slab_allocation (calloc n size flags) ->
  is_s64 (ssdfs_memory_leaks st) ->
  is_s64 (counter name (memory_leaks st)) ->
  subsystem_alloc_free_balanced name
    (CHK.ssdfs_name_kmalloc cfg name alloc size flags)
    (CHK.ssdfs_name_kfree cfg name) st
  /\ subsystem_alloc_free_balanced name
       (CHK.ssdfs_name_kzalloc cfg name alloc size flags)
       (CHK.ssdfs_name_kfree cfg name) st
  /\ subsystem_alloc_free_balanced name
       (CHK.ssdfs_name_kvzalloc cfg name alloc size flags)
       (CHK.ssdfs_name_kvfree cfg name) st
  /\ subsystem_alloc_free_balanced name
       (CHK.ssdfs_name_kcalloc cfg name calloc n size flags)
       (CHK.ssdfs_name_kfree cfg name) st.
Proof.
  intros Ha Hc Hs Hn. repeat split.
  - apply ssdfs_name_kmalloc_kfree; assumption.
  - apply (ssdfs_name_kmalloc_kfree alloc); assumption.
  - apply (ssdfs_name_kmalloc_kfree alloc); assumption.
  - apply (ssdfs_name_kmalloc_kfree (calloc n)); assumption.
Qed.

End SlabWrappers.

Lemma slab_wrappers_balanced_witness :
  let cfg := Config false true in
  let st := sample_state [] in
  alloc_free_balanced cfg
    (ssdfs_kmalloc cfg (fun _ _ => bump_allocator) 64 GFP_KERNEL)
    (ssdfs_kfree cfg) st
  /\ alloc_free_balanced cfg
       (ssdfs_kcalloc cfg (fun _ _ _ => bump_allocator) 4 64 GFP_KERNEL)
       (ssdfs_kfree cfg) st.
Proof.
  intros cfg st.
  destruct (slab_wrappers_balanced cfg (fun _ _ => bump_allocator)
              (fun _ _ _ => bump_allocator) 4 64 GFP_KERNEL st)
    as (H1 & _ & _ & H4).
  - apply bump_allocator_contract.
  - apply bump_allocator_contract.
  - split; vm_compute; [discriminate|reflexivity].
  - split; assumption.
Defined.

Lemma subsystem_slab_wrappers_balanced_witness :
  let cfg := Config true true in
  let st := sample_state [] in
  subsystem_alloc_free_balanced "btree"
    (CHK.ssdfs_name_kmalloc cfg "btree" (fun _ _ => bump_allocator)
                            64 GFP_KERNEL)
    (CHK.ssdfs_name_kfree cfg "btree") st.
Proof.
  intros cfg st.
  destruct (subsystem_slab_wrappers_balanced cfg "btree"
              (fun _ _ => bump_allocator) (fun _ _ _ => bump_allocator)
              4 64 GFP_KERNEL st) as (H1 & _).
  - apply bump_allocator_contract.
  - apply bump_allocator_contract.
  - split; vm_compute; [discriminate|reflexivity].
  - split; vm_compute; [discriminate|reflexivity].
  - exact H1.
Defined.

(** ** References: [ssdfs_get_page] and [ssdfs_put_page] *)

Section GetPutPage.
Context (cfg : config).

(** X3.  [ssdfs_put_page] on any page returns normally.  It drops one
    reference (the count is an [int] and wraps) and touches no other
    page, no byte of memory and not the page counter; the frame goes back
    to the allocator exactly when the new count is 0; it writes a warning
    exactly when the new count is below 1, so also whenever it frees the
    frame; anything else it writes is a debug message. *)
Theorem ssdfs_put_page_result (p : Z) (st : kstate) :
  let r := s32 (_refcount (mem_map st p) - 1) in
  exists st' added,
    ssdfs_put_page cfg p st = Done tt st'
    /\ mem_map st' p = Page r (PG_locked (mem_map st p))
    /\ (forall q, q <> p -> mem_map st' q = mem_map st q)
    /\ free_area st' = (if r =? 0 then [p] else []) ++ free_area st
    /\ klog st' = klog st ++ added
    /\ Forall diagnostic added
    /\ (Exists is_warning added <-> r < 1)
    /\ memory st' = memory st
    /\ ssdfs_allocated_pages st' = ssdfs_allocated_pages st.
Proof.
  intros r.
  unfold ssdfs_put_page, put_page, put_page_testzero, page_ref_dec_and_test,
    ifdef_DEBUG, SSDFS_DBG, SSDFS_WARN.
  destruct (CONFIG_SSDFS_DEBUG cfg).
  all: exec; eexists _, _; (split; [reflexivity|]).
  all: unfold log_when, free_when; simpl_st.
  all: rewrite ?set_page_refcount_same; simpl_st; fold r.
  all: split; [reflexivity|].
  all: split; [intros q Hq; unfold set_page_refcount, fn_upd;
               destruct (Z.eqb_spec q p); congruence|].
  all: split; [reflexivity|].
  all: split; [solve_log|].
  all: destruct (Z.ltb_spec r 1); cbn [app].
  all: split; [solve_diagnostic|].
  all: split; [|split; reflexivity].
  all: split; [intros Hex|intros Hlt].
  all: try lia.
  all: try (find_warning; fail).
  all: repeat match goal with
         | H : Exists _ (_ :: _) |- _ => inversion H; clear H; subst
         | H : Exists _ [] |- _ => inversion H
         | H : is_warning _ |- _ => discriminate H
         end.
Qed.

(** X4.  On a page that has at least one reference (and fewer than
    [INT_MAX]), [ssdfs_get_page] adds one reference and
    [ssdfs_put_page] after it takes it back: every page is as it was,
    no frame went to the allocator, memory is untouched and only debug
    messages were written. *)
Theorem ssdfs_get_put_page (p : Z) (st : kstate) :
  1 <= _refcount (mem_map st p) < 2 ^ 31 - 1 ->
  exists st1 st2 added,
    ssdfs_get_page cfg p st = Done tt st1
    /\ _refcount (mem_map st1 p) = _refcount (mem_map st p) + 1
    /\ ssdfs_put_page cfg p st1 = Done tt st2
    /\ (forall q, mem_map st2 q = mem_map st q)
    /\ free_area st2 = free_area st
    /\ memory st2 = memory st
    /\ klog st2 = klog st ++ added
    /\ Forall (fun e => e.1 = KERN_DEBUG) added.
Proof.
  intros Hc.
  assert (E1 : s32 (_refcount (mem_map st p) + 1)
               = _refcount (mem_map st p) + 1) by (apply s32_small; lia).
  assert (E2 : s32 (s32 (_refcount (mem_map st p) + 1) - 1)
               = _refcount (mem_map st p)).
  { rewrite E1. replace (_refcount (mem_map st p) + 1 - 1)
      with (_refcount (mem_map st p)) by lia. apply s32_small. lia. }
  unfold ssdfs_get_page, get_page, page_ref_inc, ssdfs_put_page, put_page,
    put_page_testzero, page_ref_dec_and_test, ifdef_DEBUG, SSDFS_DBG,
    SSDFS_WARN.
  destruct (CONFIG_SSDFS_DEBUG cfg).
  all: exec; eexists _, _, _; (split; [reflexivity|]).
  all: unfold log_when; simpl_st; rewrite ?set_page_refcount_same; simpl_st.
  all: split; [exact E1|].
  all: exec; rewrite ?set_page_refcount_same; simpl_st.
  all: rewrite ?set_page_refcount_same; simpl_st.
  all: rewrite !E2.
  all: destruct (Z.eqb_spec (_refcount (mem_map st p)) 0); [lia|].
  all: destruct (Z.ltb_spec (_refcount (mem_map st p)) 1); [lia|].
  all: split; [reflexivity|].
  all: unfold log_when, free_when; simpl_st.
  all: split; [intros q; unfold set_page_refcount, fn_upd;
               destruct (Z.eqb_spec q p);
               [subst q; rewrite ?Z.eqb_refl; cbn [_refcount PG_locked];
                rewrite E2; destruct (mem_map st p); reflexivity
               |reflexivity]|].
  all: split; [reflexivity|].
  all: split; [reflexivity|].
  all: split; [solve_log|].
  all: repeat constructor.
Qed.

End GetPutPage.

Lemma ssdfs_get_put_page_witness :
  let cfg := Config true false in
  let st := set_mem_map (fn_upd 7 (Page 1 false)) (sample_state []) in
  exists st1 st2 added,
    ssdfs_get_page cfg 7 st = Done tt st1
    /\ _refcount (mem_map st1 7) = _refcount (mem_map st 7) + 1
    /\ ssdfs_put_page cfg 7 st1 = Done tt st2
    /\ (forall q, mem_map st2 q = mem_map st q)
    /\ free_area st2 = free_area st
    /\ memory st2 = memory st
    /\ klog st2 = klog st ++ added
    /\ Forall (fun e => e.1 = KERN_DEBUG) added.
Proof.
  intros cfg st. apply (ssdfs_get_put_page cfg 7 st).
  split; vm_compute; [discriminate|reflexivity].
Defined.

(** ** Page locking and its counter *)






Section LockingProps.
Context (cfg : config).




End LockingProps.


(** ** Filling and releasing a pagevec *)

Section FillRelease.
Context (cfg : config).

Lemma ssdfs_alloc_page_takes (gfp_mask p : Z) (rest : list Z) (st : kstate) :
  free_area st = p :: rest ->
  exists st',
    ssdfs_alloc_page cfg gfp_mask st = Done (Addr p) st'
    /\ free_area st' = rest
    /\ page_step cfg st st' p 2 1.
Proof.
  intros Hf. destruct cfg as [dbg acc].
  unfold ssdfs_alloc_page, ssdfs_get_page, get_page, page_ref_inc,
    ifdef_ACCOUNTING, ifdef_DEBUG, SSDFS_DBG, deref, page_step.
  cbn [CONFIG_SSDFS_DEBUG CONFIG_SSDFS_MEMORY_LEAKS_ACCOUNTING].
  assert (Halloc : exists m, alloc_page gfp_mask st
            = Done (Addr p)
                (set_memory (fun _ => m)
                   (set_mem_map (fn_upd p (Page 1 false))
                      (set_free_area (fun _ => rest) st)))).
  { unfold alloc_page. rewrite Hf.
    destruct (Z.land gfp_mask __GFP_ZERO =? 0); [|eauto].
    exists (memory st). destruct st; reflexivity. }
  destruct Halloc as [m Halloc].
  rewrite bind_run, Halloc.
  destruct dbg, acc; exec; eexists; (split; [reflexivity|]).
  all: unfold log_when; simpl_st; rewrite ?set_page_refcount_same; simpl_st.
  all: rewrite ?fn_upd_same; simpl_st.
  all: change (s32 (1 + 1)) with 2.
  all: split; [reflexivity|]; split; [reflexivity|].
  all: split; [intros q Hq; unfold set_page_refcount, fn_upd;
               destruct (Z.eqb_spec q p); congruence|].
  all: split; [first [reflexivity|unfold atomic64_inc; reflexivity]|].
  all: split; [reflexivity|].
  all: unfold debug_only; simpl_st; eexists; split;
    [solve_log|repeat constructor].
Qed.

Lemma ssdfs_free_page_releases (p : Z) (st : kstate) :
  mem_map st p = Page 2 false ->
  exists st',
    ssdfs_free_page cfg (Addr p) st = Done tt st'
    /\ free_area st' = p :: free_area st
    /\ page_step cfg st st' p 0 (-1).
Proof.
  intros Hp. destruct cfg as [dbg acc].
  unfold ssdfs_free_page, ssdfs_put_page, put_page, __free_pages,
    put_page_testzero, page_ref_dec_and_test, ifdef_ACCOUNTING,
    ifdef_DEBUG, SSDFS_DBG, SSDFS_WARN, deref, page_step.
  cbn [CONFIG_SSDFS_DEBUG CONFIG_SSDFS_MEMORY_LEAKS_ACCOUNTING].
  destruct dbg, acc.
  all: exec; rewrite ?Hp; simpl_st.
  all: exec; rewrite ?set_page_refcount_same; simpl_st.
  all: rewrite ?Hp; simpl_st.
  all: change (s32 (2 - 1)) with 1; cbn [Z.eqb Z.ltb Z.leb Z.compare orb
         Pos.compare Pos.compare_cont].
  all: exec; rewrite ?set_page_refcount_same; simpl_st.
  all: change (s32 (1 - 1)) with 0; cbn [Z.eqb].
  all: exec; eexists; (split; [reflexivity|]).
  all: unfold log_when, free_when; simpl_st.
  all: rewrite ?set_page_refcount_same; simpl_st.
  all: rewrite ?Hp; simpl_st; change (s32 (s32 (2 - 1) - 1)) with 0.
  all: split; [reflexivity|]; split; [reflexivity|].
  all: split; [intros q Hq; unfold set_page_refcount, fn_upd;
               destruct (Z.eqb_spec q p); congruence|].
  all: split; [first [reflexivity|unfold atomic64_dec; reflexivity]|].
  all: split; [reflexivity|].
  all: unfold debug_only; simpl_st; eexists; split;
    [solve_log|repeat constructor].
Qed.

Lemma ssdfs_add_pagevec_page_adds (pv : pagevec) (p : Z) (rest : list Z)
    (st : kstate) :
  pagevec_wf pv -> nr pv < PAGEVEC_SIZE -> free_area st = p :: rest ->
  exists st',
    ssdfs_add_pagevec_page cfg (Some pv) st
    = Done (Addr p,
            PageVec (nr pv + 1) (<[Z.to_nat (nr pv) := Addr p]> (pages pv)))
           st'
    /\ free_area st' = rest
    /\ page_step cfg st st' p 2 1.
Proof.
  intros Hwf Hlt Hf. pose proof (pagevec_space_wf pv Hwf) as Hsp.
  unfold ssdfs_add_pagevec_page, ifdef_DEBUG, BUG_ON, SSDFS_DBG, SSDFS_ERR.
  rewrite (bool_decide_eq_false_2 (Some pv = None)) by discriminate.
  rewrite bind_run.
  replace (when (CONFIG_SSDFS_DEBUG cfg) (when false (BUG "BUG_ON(!pvec)")) st)
    with (Done tt st) by (destruct (CONFIG_SSDFS_DEBUG cfg); reflexivity).
  run. rewrite Hsp.
  destruct (Z.eqb_spec (PAGEVEC_SIZE - nr pv) 0) as [Hfull|Hroom]; [lia|].
  destruct (ssdfs_alloc_page_takes (Z.lor GFP_KERNEL __GFP_ZERO) p rest st Hf)
    as (st1 & Hrun & Hrest & Hp & Hq & Hc & Hpl & Hlog).
  rewrite bind_run, Hrun. cbn [IS_ERR_OR_NULL].
  rewrite bind_run, pagevec_add_run by auto.
  exec. destruct (CONFIG_SSDFS_DEBUG cfg); exec.
  all: eexists; (split; [reflexivity|]).
  all: unfold page_step, log_when; simpl_st.
  all: split; [exact Hrest|]; split; [exact Hp|]; split; [exact Hq|].
  all: split; [exact Hc|]; split; [exact Hpl|].
  all: eapply debug_only_trans; [exact Hlog|].
  all: unfold debug_only; simpl_st; eexists; split;
    [solve_log|repeat constructor].
Qed.

Section Fill.
Context (slots : list pointer) (st : kstate).
Hypothesis Hslots : length slots = Z.to_nat PAGEVEC_SIZE.
Hypothesis Hnodup : NoDup (free_area st).

Lemma filled_to_next (k : nat) (pv : pagevec) (st' : kstate) :
  filled_to cfg slots st k pv st' ->
  (k < Z.to_nat PAGEVEC_SIZE)%nat ->
  (k < length (free_area st))%nat ->
  pagevec_wf pv /\ nr pv < PAGEVEC_SIZE
  /\ exists p, free_area st !! k = Some p
               /\ free_area st' = p :: drop (S k) (free_area st).
Proof.
  intros (Hpv & Hfa & _) Hcap Hk.
  destruct (proj2 (lookup_lt_is_Some (free_area st) k) Hk) as [p Hp].
  assert (Hlen : length (map Addr (take k (free_area st))) = k)
    by (rewrite length_map, length_take; lia).
  split; [|split].
  - subst pv. unfold pagevec_wf. cbn [nr pages].
    rewrite length_app, Hlen, length_drop, Hslots. unfold PAGEVEC_SIZE in *.
    lia.
  - subst pv. cbn [nr]. lia.
  - exists p. split; [exact Hp|]. rewrite Hfa. apply drop_S, Hp.
Qed.

Lemma filled_to_step (k : nat) (pv : pagevec) (p : Z) (st' st'' : kstate) :
  filled_to cfg slots st k pv st' ->
  (k < Z.to_nat PAGEVEC_SIZE)%nat ->
  free_area st !! k = Some p ->
  free_area st'' = drop (S k) (free_area st) ->
  mem_map st'' p = Page 2 false ->
  (forall q, q <> p -> mem_map st'' q = mem_map st' q) ->
  ssdfs_allocated_pages st''
  = (if CONFIG_SSDFS_MEMORY_LEAKS_ACCOUNTING cfg
     then s64 (ssdfs_allocated_pages st' + 1)
     else ssdfs_allocated_pages st') ->
  debug_only st' st'' ->
  filled_to cfg slots st (S k)
    (PageVec (nr pv + 1) (<[Z.to_nat (nr pv) := Addr p]> (pages pv))) st''.
Proof.
  intros (Hpv & Hfa & Hpages & Hc & Hlog) Hcap Hp Hrest Hp2 Hq Hc2 Hlog2.
  assert (Hk : (k < length (free_area st))%nat)
    by (apply lookup_lt_is_Some; eauto).
  assert (Hdrop : drop k (free_area st) = p :: drop (S k) (free_area st))
    by (apply drop_S, Hp).
  assert (Hks : (k < length slots)%nat) by lia.
  destruct (proj2 (lookup_lt_is_Some slots k) Hks) as [x Hx].
  assert (Hdrops : drop k slots = x :: drop (S k) slots)
    by (apply drop_S, Hx).
  assert (Hlen : length (map Addr (take k (free_area st))) = k)
    by (rewrite length_map, length_take; lia).
  split; [|split; [|split; [|split]]].
  - subst pv. cbn [nr pages]. f_equal; [lia|].
    rewrite Nat2Z.id. rewrite (take_S_r _ _ _ Hp).
    rewrite insert_app_r_alt by lia. rewrite Hlen, Nat.sub_diag, Hdrops.
    rewrite map_app, <- app_assoc. reflexivity.
  - exact Hrest.
  - intros q Hin. rewrite (take_S_r _ _ _ Hp) in Hin.
    apply elem_of_app in Hin as [Hin|Hin].
    + rewrite Hq; [apply Hpages, Hin|].
      intros ->. rewrite <- (take_drop k (free_area st)), Hdrop in Hnodup.
      apply NoDup_app in Hnodup as (_ & Hdisj & _).
      apply (Hdisj p Hin). left.
    + apply list_elem_of_singleton in Hin as ->. exact Hp2.
  - rewrite Hc2, Hc. destruct (CONFIG_SSDFS_MEMORY_LEAKS_ACCOUNTING cfg);
      [|reflexivity].
    rewrite s64_add_idemp. f_equal. lia.
  - eapply debug_only_trans; eassumption.
Qed.

Lemma add_pages_run (n : nat) :
  forall (k : nat) (pv : pagevec) (st' : kstate),
    filled_to cfg slots st k pv st' ->
    (k + n <= Z.to_nat PAGEVEC_SIZE)%nat ->
    (k + n <= length (free_area st))%nat ->
    exists pv1 st1,
      add_pages cfg n pv st' = Done pv1 st1
      /\ filled_to cfg slots st (k + n) pv1 st1.
Proof.
  induction n as [|n IH]; intros k pv st' Hinv Hcap Hfree.
  - exists pv, st'. rewrite Nat.add_0_r. split; [reflexivity|exact Hinv].
  - destruct (filled_to_next k pv st' Hinv) as (Hwf & Hnr & p & Hp & Hfa);
      [lia|lia|].
    destruct (ssdfs_add_pagevec_page_adds pv p _ st' Hwf Hnr Hfa)
      as (st'' & Hrun & Hrest & Hp2 & Hq & Hc2 & _ & Hlog2).
    cbn [add_pages]. rewrite bind_run, Hrun. cbn [snd].
    destruct (IH (S k)
                 (PageVec (nr pv + 1)
                          (<[Z.to_nat (nr pv) := Addr p]> (pages pv)))
                 st'') as (pv1 & st1 & Hrun1 & Hinv1); try lia.
    + apply (filled_to_step k pv p st' st''); auto. lia.
    + exists pv1, st1. split; [exact Hrun1|].
      replace (k + S n)%nat with (S k + n)%nat by lia. exact Hinv1.
Qed.

End Fill.

Lemma free_all_run (ps : list Z) :
  forall st : kstate,
    NoDup ps ->
    (forall p, p ∈ ps -> mem_map st p = Page 2 false) ->
    is_s64 (ssdfs_allocated_pages st) ->
    exists st',
      free_all cfg (map Addr ps) st = Done tt st'
      /\ free_area st' = rev ps ++ free_area st
      /\ ssdfs_allocated_pages st'
         = (if CONFIG_SSDFS_MEMORY_LEAKS_ACCOUNTING cfg
            then s64 (ssdfs_allocated_pages st - Z.of_nat (length ps))
            else ssdfs_allocated_pages st)
      /\ page_leaks st' = page_leaks st
      /\ debug_only st st'.
Proof.
  induction ps as [|p ps IH]; intros st Hnd Hpages Hs.
  - exists st. split; [reflexivity|]. split; [reflexivity|].
    split; [|split; [reflexivity|apply debug_only_refl]].
    destruct (CONFIG_SSDFS_MEMORY_LEAKS_ACCOUNTING cfg); [|reflexivity].
    cbn [length]. rewrite Z.sub_0_r. symmetry. apply s64_small, Hs.
  - apply NoDup_cons in Hnd as [Hnotin Hnd].
    destruct (ssdfs_free_page_releases p st)
      as (st1 & Hrun & Hfa & Hp & Hq & Hc & Hpl & Hlog).
    { apply Hpages. left. }
    destruct (IH st1 Hnd) as (st2 & Hrun2 & Hfa2 & Hc2 & Hpl2 & Hlog2).
    { intros q Hin. rewrite Hq by (intros ->; contradiction).
      apply Hpages. now right. }
    { rewrite Hc. destruct (CONFIG_SSDFS_MEMORY_LEAKS_ACCOUNTING cfg);
        [apply s64_range|exact Hs]. }
    exists st2. cbn [map free_all]. rewrite bind_run, Hrun.
    split; [exact Hrun2|]. split.
    + rewrite Hfa2, Hfa. cbn [rev]. now rewrite <- app_assoc.
    + split; [|split; [congruence|eapply debug_only_trans; eassumption]].
      rewrite Hc2, Hc. destruct (CONFIG_SSDFS_MEMORY_LEAKS_ACCOUNTING cfg);
        [|reflexivity].
      rewrite <- Z.add_opp_r, s64_add_idemp. f_equal. cbn [length]. lia.
Qed.

Lemma ssdfs_pagevec_release_run (pv : pagevec) (st : kstate) :
  (Z.to_nat (nr pv) <= length (pages pv))%nat ->
  ssdfs_pagevec_release cfg (Some pv) st
  = (free_all cfg (non_null (take (Z.to_nat (nr pv)) (pages pv)));;
     mret (Some (PageVec 0 (replicate (Z.to_nat (nr pv)) NULL
                            ++ drop (Z.to_nat (nr pv)) (pages pv)))))
      (debug_note cfg "pvec count %u" (debug_note cfg "pvec %p" st)).
Proof.
  intros Hn. unfold ssdfs_pagevec_release, pagevec_count.
  rewrite bind_run, debug_note_run, bind_run, debug_note_run.
  destruct pv as [k slots]. cbn [pages nr] in *.
  pose proof (ssdfs_pagevec_release_loop_run cfg k (Z.to_nat k) [] slots
                (debug_note cfg "pvec count %u" (debug_note cfg "pvec %p" st))
                Hn) as Hloop.
  cbn [length app] in Hloop. change (Z.of_nat 0) with 0 in Hloop.
  rewrite bind_run, Hloop, !bind_run.
  destruct (free_all cfg _ _) as [[] st3|why|on]; reflexivity.
Qed.

Lemma non_null_addrs (ps : list Z) : non_null (map Addr ps) = map Addr ps.
Proof.
  unfold non_null. induction ps as [|p ps IH]; [reflexivity|].
  cbn [map]. rewrite filter_cons_True by discriminate. now rewrite IH.
Qed.

Lemma debug_note_debug_only (msg : string) (st : kstate) :
  debug_only st (debug_note cfg msg st).
Proof.
  unfold debug_only, debug_note, log_when. simpl_st. eexists.
  split; [reflexivity|]. destruct (CONFIG_SSDFS_DEBUG cfg); repeat constructor.
Qed.

(** X7.  Filling a pagevec and releasing it gives everything back.  From
    an empty pagevec (count 0, [PAGEVEC_SIZE] slots) and an allocator that
    holds at least [n] distinct frames, [n <= PAGEVEC_SIZE] calls of
    [ssdfs_add_pagevec_page] all succeed: the vector then holds the first
    [n] frames of the allocator, in order, and the allocator the rest.
    [ssdfs_pagevec_release] on that vector returns the vector with count
    0 and those [n] slots null; every frame is back in the allocator (in
    the reverse order), [ssdfs_allocated_pages] has the value it started
    with, and nothing but debug messages was written: no warning, no
    error. *)
Theorem pagevec_fill_then_release (n : nat) (slots : list pointer)
    (st : kstate) :
  length slots = Z.to_nat PAGEVEC_SIZE ->
  (n <= Z.to_nat PAGEVEC_SIZE)%nat ->
  (n <= length (free_area st))%nat ->
  NoDup (free_area st) ->
  is_s64 (ssdfs_allocated_pages st) ->
  exists pv1 st1 st2,
    add_pages cfg n (PageVec 0 slots) st = Done pv1 st1
    /\ pv1 = PageVec (Z.of_nat n)
                     (map Addr (take n (free_area st)) ++ drop n slots)
    /\ free_area st1 = drop n (free_area st)
    /\ ssdfs_pagevec_release cfg (Some pv1) st1
       = Done (Some (PageVec 0 (replicate n NULL ++ drop n slots))) st2
    /\ free_area st2 = rev (take n (free_area st)) ++ drop n (free_area st)
    /\ ssdfs_allocated_pages st2 = ssdfs_allocated_pages st
    /\ debug_only st st2.
Proof.
  intros Hslots Hn Hfree Hnd Hs.
  destruct (add_pages_run slots st Hslots Hnd n 0 (PageVec 0 slots) st)
    as (pv1 & st1 & Hrun & Hpv & Hfa & Hpages & Hc & Hlog); try lia.
  { split; [reflexivity|]. split; [reflexivity|].
    split; [intros p Hin; cbn in Hin; inversion Hin|].
    split; [|apply debug_only_refl].
    destruct (CONFIG_SSDFS_MEMORY_LEAKS_ACCOUNTING cfg); [|reflexivity].
    rewrite Z.add_0_r. symmetry. apply s64_small, Hs. }
  cbn [Nat.add] in *.
  assert (Hlen : length (map Addr (take n (free_area st))) = n)
    by (rewrite length_map, length_take; lia).
  exists pv1, st1.
  set (st1' := debug_note cfg "pvec count %u" (debug_note cfg "pvec %p" st1)).
  destruct (free_all_run (take n (free_area st)) st1')
    as (st2 & Hrun2 & Hfa2 & Hc2 & _ & Hlog2).
  { rewrite <- (take_drop n (free_area st)) in Hnd.
    apply NoDup_app in Hnd as (Hnd & _). exact Hnd. }
  { exact Hpages. }
  { change (ssdfs_allocated_pages st1') with (ssdfs_allocated_pages st1).
    rewrite Hc. destruct (CONFIG_SSDFS_MEMORY_LEAKS_ACCOUNTING cfg);
      [apply s64_range|exact Hs]. }
  exists st2. split; [exact Hrun|]. split; [exact Hpv|]. split; [exact Hfa|].
  split; [|split; [|split]].
  - rewrite ssdfs_pagevec_release_run
      by (subst pv1; cbn [nr pages]; rewrite Nat2Z.id, length_app, Hlen; lia).
    subst pv1. cbn [nr pages]. rewrite Nat2Z.id.
    rewrite take_app_length' by (symmetry; exact Hlen).
    rewrite drop_app_length' by (symmetry; exact Hlen).
    rewrite non_null_addrs. fold st1'. rewrite bind_run, Hrun2. reflexivity.
  - rewrite Hfa2. change (free_area st1') with (free_area st1).
    now rewrite Hfa.
  - rewrite Hc2. change (ssdfs_allocated_pages st1')
      with (ssdfs_allocated_pages st1). rewrite Hc.
    destruct (CONFIG_SSDFS_MEMORY_LEAKS_ACCOUNTING cfg); [|reflexivity].
    rewrite <- Z.add_opp_r, s64_add_idemp, length_take.
    replace (ssdfs_allocated_pages st + Z.of_nat n
             + - Z.of_nat (n `min` length (free_area st)))
      with (ssdfs_allocated_pages st) by lia.
    apply s64_small, Hs.
  - eapply debug_only_trans; [exact Hlog|].
    eapply debug_only_trans; [|exact Hlog2].
    eapply debug_only_trans; apply debug_note_debug_only.
Qed.

(** X8.  Releasing a pagevec twice is safe.  When
    [ssdfs_pagevec_release] returns on a pagevec whose count does not
    exceed its array, the vector it hands back has count 0, the slots
    below the old count null and the other slots as they were; and a
    second [ssdfs_pagevec_release] on that vector returns it unchanged
    and changes nothing but the log, to which it adds debug messages at
    most: no page is freed twice. *)
Theorem ssdfs_pagevec_release_twice (pv pv' : pagevec) (st st' : kstate) :
  (Z.to_nat (nr pv) <= length (pages pv))%nat ->
  ssdfs_pagevec_release cfg (Some pv) st = Done (Some pv') st' ->
  pv' = PageVec 0 (replicate (Z.to_nat (nr pv)) NULL
                   ++ drop (Z.to_nat (nr pv)) (pages pv))
  /\ length (pages pv') = length (pages pv)
  /\ exists st'',
       ssdfs_pagevec_release cfg (Some pv') st' = Done (Some pv') st''
       /\ same_but_log st' st''
       /\ debug_only st' st''.
Proof.
  intros Hn Hrun. rewrite ssdfs_pagevec_release_run in Hrun by exact Hn.
  rewrite bind_run in Hrun.
  destruct (free_all cfg _ _) as [[] st1|why|on]; [|discriminate..].
  rewrite ret_run in Hrun. injection Hrun as <- <-.
  split; [reflexivity|]. cbn [pages nr]. split.
  - rewrite length_app, length_replicate, length_drop. lia.
  - rewrite ssdfs_pagevec_release_run by (cbn; lia).
    cbn [nr pages Z.to_nat take replicate drop app].
    change (non_null []) with (@nil pointer). cbn [free_all].
    eexists. split; [reflexivity|].
    split.
    + repeat split.
    + eapply debug_only_trans; apply debug_note_debug_only.
Qed.

End FillRelease.

(** ** Per-subsystem page counters *)

Section SubsystemPages.
Context (cfg : config) (name : string).

(** X9.  The page counter of a subsystem is balanced.  When the
    allocator holds a frame, [ssdfs_<name>_alloc_page] returns it and
    increments [ssdfs_<name>_page_leaks]; [ssdfs_<name>_free_page] on that
    page then gives the frame back to the allocator with no reference
    left, and the counter of [name], the counters of the other
    subsystems and [ssdfs_allocated_pages] are what they were before the
    allocation; only debug messages were written. *)
Theorem subsystem_page_counter_balanced (gfp_mask p : Z) (rest : list Z)
    (st : kstate) :
  free_area st = p :: rest ->
  is_s64 (ssdfs_allocated_pages st) ->
  is_s64 (counter name (page_leaks st)) ->
  exists st1 st2,
    CHK.ssdfs_name_alloc_page cfg name gfp_mask st = Done (Addr p) st1
    /\ counter name (page_leaks st1)
       = atomic64_inc (counter name (page_leaks st))
    /\ CHK.ssdfs_name_free_page cfg name (Addr p) st1 = Done tt st2
    /\ free_area st2 = free_area st
    /\ mem_map st2 p = Page 0 false
    /\ counter name (page_leaks st2) = counter name (page_leaks st)
    /\ (forall other, other <> name ->
        counter other (page_leaks st2) = counter other (page_leaks st))
    /\ ssdfs_allocated_pages st2 = ssdfs_allocated_pages st
    /\ debug_only st st2.
Proof.
  intros Hf Hs Hn.
  assert (Halloc : exists st1,
            CHK.ssdfs_name_alloc_page cfg name gfp_mask st = Done (Addr p) st1
            /\ free_area st1 = rest
            /\ mem_map st1 p = Page 2 false
            /\ ssdfs_allocated_pages st1
               = (if CONFIG_SSDFS_MEMORY_LEAKS_ACCOUNTING cfg
                  then s64 (ssdfs_allocated_pages st + 1)
                  else ssdfs_allocated_pages st)
            /\ page_leaks st1 = counter_upd atomic64_inc name (page_leaks st)
            /\ debug_only st st1).
  { destruct (ssdfs_alloc_page_takes cfg gfp_mask p rest st Hf)
      as (sta & Hrun & Hrest & Hp & Hq & Hc & Hpl & Hlog).
    unfold CHK.ssdfs_name_alloc_page, SSDFS_DBG.
    rewrite bind_run, Hrun. cbn [IS_ERR_OR_NULL negb].
    exec. eexists. split; [reflexivity|].
    unfold log_when. simpl_st. rewrite Hpl.
    repeat (split; [assumption || reflexivity|]).
    eapply debug_only_trans; [exact Hlog|].
    unfold debug_only. simpl_st. eexists. split; [solve_log|].
    destruct (CONFIG_SSDFS_DEBUG cfg); repeat constructor. }
  destruct Halloc as (st1 & Hrun1 & Hrest & Hp & Hc & Hpl & Hlog).
  assert (Hfree : exists st2,
            CHK.ssdfs_name_free_page cfg name (Addr p) st1 = Done tt st2
            /\ free_area st2 = p :: free_area st1
            /\ mem_map st2 p = Page 0 false
            /\ ssdfs_allocated_pages st2
               = (if CONFIG_SSDFS_MEMORY_LEAKS_ACCOUNTING cfg
                  then s64 (ssdfs_allocated_pages st1 + -1)
                  else ssdfs_allocated_pages st1)
            /\ page_leaks st2
               = counter_upd atomic64_dec name (page_leaks st1)
            /\ debug_only st1 st2).
  { unfold CHK.ssdfs_name_free_page, SSDFS_DBG. exec.
    match goal with
    | |- context [ssdfs_free_page cfg (Addr p) ?s] => set (stb := s)
    end.
    destruct (ssdfs_free_page_releases cfg p stb)
      as (st2 & Hrun2 & Hfa2 & Hp2 & Hq2 & Hc2 & Hpl2 & Hlog2).
    { exact Hp. }
    exists st2. split; [exact Hrun2|].
    repeat (split; [assumption|]).
    eapply debug_only_trans; [|exact Hlog2].
    unfold debug_only, stb, log_when. simpl_st. eexists. split; [solve_log|].
    destruct (CONFIG_SSDFS_DEBUG cfg); repeat constructor. }
  destruct Hfree as (st2 & Hrun2 & Hfa2 & Hp2 & Hc2 & Hpl2 & Hlog2).
  exists st1, st2.
  split; [exact Hrun1|].
  split; [rewrite Hpl; apply counter_upd_lookup|].
  split; [exact Hrun2|].
  split; [rewrite Hfa2, Hrest; now rewrite Hf|].
  split; [exact Hp2|].
  rewrite Hpl2, Hpl.
  split; [rewrite !counter_upd_lookup; now apply atomic64_dec_inc|].
  split; [intros other Ho; now rewrite !counter_upd_other by assumption|].
  split; [|eapply debug_only_trans; eassumption].
  rewrite Hc2, Hc.
  destruct (CONFIG_SSDFS_MEMORY_LEAKS_ACCOUNTING cfg); [|reflexivity].
  rewrite s64_add_idemp. replace (ssdfs_allocated_pages st + 1 + -1)
    with (ssdfs_allocated_pages st) by lia. apply s64_small, Hs.
Qed.

Lemma page_leaks_set_refl (st : kstate) :
  page_leaks_set name (counter name (page_leaks st)) st st.
Proof.
  split; [reflexivity|]. split; [reflexivity|].
  split; [repeat split|apply debug_only_refl].
Qed.

Lemma page_leaks_set_step (f : Z -> Z) (msg : string) (c : Z)
    (st st' : kstate) :
  page_leaks_set name c
    (log_when (CONFIG_SSDFS_DEBUG cfg) KERN_DEBUG msg
       (set_page_leaks (counter_upd f name) st)) st' ->
  page_leaks_set name c st st'.
Proof.
  intros (Hc & Ho & Hsame & Hlog). split; [exact Hc|]. split.
  - intros other Hne. rewrite (Ho other Hne). unfold log_when. simpl_st.
    now apply counter_upd_other.
  - split.
    + destruct Hsame as (?&?&?&?&?&?&?&?&?). repeat split; assumption.
    + eapply debug_only_trans; [|exact Hlog].
      unfold debug_only, log_when. simpl_st. eexists. split; [reflexivity|].
      destruct (CONFIG_SSDFS_DEBUG cfg); repeat constructor.
Qed.

Lemma ssdfs_name_pagevec_release_loop_run (k : Z) (n : nat) :
  forall (pre l : list pointer) (st : kstate),
    (n <= length l)%nat ->
    is_s64 (counter name (page_leaks st)) ->
    exists st',
      CHK.ssdfs_name_pagevec_release_loop cfg name n (Z.of_nat (length pre))
        (PageVec k (pre ++ l)) st = Done tt st'
      /\ page_leaks_set name
           (s64 (counter name (page_leaks st)
                 - Z.of_nat (length (non_null (take n l)))))
           st st'.
Proof.
  induction n as [|n IH]; intros pre l st Hn Hs.
  - exists st. split; [reflexivity|]. cbn [take non_null length].
    change (non_null []) with (@nil pointer). cbn [length].
    rewrite Z.sub_0_r, s64_small by exact Hs. apply page_leaks_set_refl.
  - destruct l as [|x l]; [cbn in Hn; lia|]. cbn in Hn.
    cbn [CHK.ssdfs_name_pagevec_release_loop]. unfold slot_read.
    cbn [pages]. rewrite Nat2Z.id, list_lookup_middle by reflexivity.
    rewrite bind_run, ret_run.
    assert (Hnext : Z.of_nat (length pre) + 1
                    = Z.of_nat (length (pre ++ [x]))).
    { rewrite length_app. cbn. lia. }
    assert (Hshift : pre ++ x :: l = (pre ++ [x]) ++ l)
      by now rewrite <- app_assoc.
    rewrite Hnext, Hshift.
    assert (Hstep : forall st0,
              st0 = log_when (CONFIG_SSDFS_DEBUG cfg) KERN_DEBUG
                      "page %p, allocated_pages %lld"
                      (set_page_leaks (counter_upd atomic64_dec name) st) ->
              x <> NULL ->
              exists st',
                CHK.ssdfs_name_pagevec_release_loop cfg name n
                  (Z.of_nat (length (pre ++ [x])))
                  (PageVec k ((pre ++ [x]) ++ l)) st0 = Done tt st'
                /\ page_leaks_set name
                     (s64 (counter name (page_leaks st)
                           - Z.of_nat (length (non_null (take (S n) (x :: l))))))
                     st st').
    { intros st0 -> Hx.
      destruct (IH (pre ++ [x]) l
                  (log_when (CONFIG_SSDFS_DEBUG cfg) KERN_DEBUG
                     "page %p, allocated_pages %lld"
                     (set_page_leaks (counter_upd atomic64_dec name) st)))
        as (st' & Hrun & Hset); [lia| |].
      { unfold log_when. simpl_st. rewrite counter_upd_lookup.
        apply s64_range. }
      exists st'. split; [exact Hrun|].
      eapply page_leaks_set_step.
      cbn [take]. unfold non_null at 1. rewrite filter_cons_True by exact Hx.
      fold (non_null (take n l)). cbn [length].
      revert Hset. unfold log_when at 1. simpl_st.
      rewrite counter_upd_lookup. unfold atomic64_dec.
      rewrite <- Z.add_opp_r, s64_add_idemp.
      replace (counter name (page_leaks st) - 1
               + - Z.of_nat (length (non_null (take n l))))
        with (counter name (page_leaks st)
              - Z.of_nat (S (length (non_null (take n l))))) by lia.
      exact (fun H => H). }
    destruct x as [|e|a].
    + destruct (IH (pre ++ [NULL]) l st) as (st' & Hrun & Hset); [lia|exact Hs|].
      exists st'. split; [exact Hrun|].
      cbn [take]. unfold non_null at 1.
      rewrite filter_cons_False by (intros H; apply H; reflexivity).
      exact Hset.
    + unfold SSDFS_DBG. exec. apply Hstep; [reflexivity|discriminate].
    + unfold SSDFS_DBG. exec. apply Hstep; [reflexivity|discriminate].
Qed.

(** X10.  How the wrappers of a subsystem move its page counter.  On a
    non-null page [ssdfs_<name>_account_page] increments
    [ssdfs_<name>_page_leaks] and [ssdfs_<name>_forget_page] decrements
    it, so the second undoes the first.  [ssdfs_<name>_pagevec_release]
    first decrements it once for every non-null slot below the count of
    the vector, and from the state this leaves it does what
    [ssdfs_pagevec_release] does.  The counting touches neither the
    counter of another subsystem nor a page, a byte or the allocator, and
    writes debug messages only. *)
Theorem subsystem_page_accounting (pv : pagevec) (page : pointer)
    (st : kstate) :
  let c := counter name (page_leaks st) in
  let live := non_null (take (Z.to_nat (nr pv)) (pages pv)) in
  (Z.to_nat (nr pv) <= length (pages pv))%nat ->
  is_s64 c ->
  page <> NULL ->
  (exists st1 st2,
     CHK.ssdfs_name_account_page cfg name page st = Done tt st1
     /\ page_leaks_set name (atomic64_inc c) st st1
     /\ CHK.ssdfs_name_forget_page cfg name page st1 = Done tt st2
     /\ page_leaks_set name c st st2)
  /\ (exists st',
        CHK.ssdfs_name_forget_page cfg name page st = Done tt st'
        /\ page_leaks_set name (atomic64_dec c) st st')
  /\ (exists st',
        CHK.ssdfs_name_pagevec_release cfg name (Some pv) st
        = ssdfs_pagevec_release cfg (Some pv) st'
        /\ page_leaks_set name (s64 (c - Z.of_nat (length live))) st st').
Proof.
  intros c live Hn Hs Hpage.
  assert (Hdbg : forall st0 f,
            page_leaks_set name (f (counter name (page_leaks st0))) st0
              (log_when (CONFIG_SSDFS_DEBUG cfg) KERN_DEBUG
                 "page %p, allocated_pages %lld"
                 (set_page_leaks (counter_upd f name) st0))).
  { intros st0 f. unfold log_when. split; [|split; [|split]]; simpl_st.
    - apply counter_upd_lookup.
    - intros other Hne. now apply counter_upd_other.
    - repeat split.
    - unfold debug_only. simpl_st. eexists. split; [reflexivity|].
      destruct (CONFIG_SSDFS_DEBUG cfg); repeat constructor. }
  split; [|split].
  - unfold CHK.ssdfs_name_account_page, CHK.ssdfs_name_forget_page, SSDFS_DBG.
    destruct page as [|e|a]; [contradiction| |].
    all: exec; eexists _, _; (split; [reflexivity|]).
    all: split; [apply Hdbg|]; exec; (split; [reflexivity|]).
    all: unfold page_leaks_set, debug_only, log_when; simpl_st.
    all: split; [rewrite !counter_upd_lookup; apply atomic64_dec_inc, Hs|].
    all: split; [intros other Hne;
                 now rewrite !counter_upd_other by assumption|].
    all: split; [repeat split|].
    all: eexists; split; [solve_log|].
    all: destruct (CONFIG_SSDFS_DEBUG cfg); repeat constructor.
  - unfold CHK.ssdfs_name_forget_page, SSDFS_DBG.
    destruct page as [|e|a]; [contradiction| |].
    all: exec; eexists; (split; [reflexivity|]); apply Hdbg.
  - unfold CHK.ssdfs_name_pagevec_release, pagevec_count.
    destruct pv as [k slots]. cbn [nr pages] in *.
    destruct (ssdfs_name_pagevec_release_loop_run k (Z.to_nat k) [] slots st
                Hn Hs) as (st' & Hrun & Hset).
    cbn [length app] in Hrun. change (Z.of_nat 0) with 0 in Hrun.
    exists st'. rewrite bind_run, Hrun. split; [reflexivity|exact Hset].
Qed.

End SubsystemPages.

Lemma pagevec_fill_then_release_witness :
  let cfg := Config false true in
  let slots := replicate 15 NULL in
  let st := sample_state [7; 8; 9] in
  exists pv1 st1 st2,
    add_pages cfg 2 (PageVec 0 slots) st = Done pv1 st1
    /\ pv1 = PageVec 2 (Addr 7 :: Addr 8 :: replicate 13 NULL)
    /\ free_area st1 = [9]
    /\ ssdfs_pagevec_release cfg (Some pv1) st1
       = Done (Some (PageVec 0 slots)) st2
    /\ free_area st2 = [8; 7; 9]
    /\ ssdfs_allocated_pages st2 = 0
    /\ debug_only st st2.
Proof.
  intros cfg slots st.
  apply (pagevec_fill_then_release cfg 2 slots st).
  - reflexivity.
  - vm_compute. repeat constructor.
  - vm_compute. repeat constructor.
  - apply (bool_decide_unpack _). vm_compute. exact I.
  - split; vm_compute; [discriminate|reflexivity].
Defined.

Lemma ssdfs_pagevec_release_twice_witness :
  let cfg := Config false true in
  let pv := PageVec 1 (Addr 7 :: replicate 14 NULL) in
  let st := set_mem_map (fn_upd 7 (Page 2 false)) (sample_state []) in
  match ssdfs_pagevec_release cfg (Some pv) st with
  | Done (Some pv') st' =>
      pv' = PageVec 0 (replicate 15 NULL)
      /\ exists st'',
           ssdfs_pagevec_release cfg (Some pv') st' = Done (Some pv') st''
           /\ same_but_log st' st''
  | _ => False
  end.
Proof.
  intros cfg pv st.
  destruct (ssdfs_pagevec_release cfg (Some pv) st) as [[pv'|] st'|why|on] eqn:H.
  - destruct (ssdfs_pagevec_release_twice cfg pv pv' st st')
      as (Hpv & _ & st'' & Hrun & Hsame & _).
    + vm_compute. repeat constructor.
    + exact H.
    + split; [exact Hpv|]. exists st''. split; assumption.
  - vm_compute in H. discriminate H.
  - vm_compute in H. discriminate H.
  - vm_compute in H. discriminate H.
Defined.

Lemma subsystem_page_counter_balanced_witness :
  let cfg := Config true true in
  let st := sample_state [7; 8] in
  exists st1 st2,
    CHK.ssdfs_name_alloc_page cfg "peb" GFP_KERNEL st = Done (Addr 7) st1
    /\ counter "peb" (page_leaks st1) = 1
    /\ CHK.ssdfs_name_free_page cfg "peb" (Addr 7) st1 = Done tt st2
    /\ free_area st2 = [7; 8]
    /\ counter "peb" (page_leaks st2) = 0
    /\ ssdfs_allocated_pages st2 = 0.
Proof.
  intros cfg st.
  destruct (subsystem_page_counter_balanced cfg "peb" GFP_KERNEL 7 [8] st)
    as (st1 & st2 & H1 & H2 & H3 & H4 & _ & H6 & _ & H8 & _).
  - reflexivity.
  - split; vm_compute; [discriminate|reflexivity].
  - split; vm_compute; [discriminate|reflexivity].
  - exists st1, st2. repeat split; assumption.
Defined.

Lemma subsystem_page_accounting_witness :
  let cfg := Config false true in
  let pv := PageVec 3 (Addr 7 :: NULL :: Addr 9 :: replicate 12 NULL) in
  let st := sample_state [] in
  exists st',
    CHK.ssdfs_name_pagevec_release cfg "peb" (Some pv) st
    = ssdfs_pagevec_release cfg (Some pv) st'
    /\ page_leaks_set "peb" (s64 (0 - 2)) st st'.
Proof.
  intros cfg pv st.
  destruct (subsystem_page_accounting cfg "peb" pv (Addr 7) st)
    as (_ & _ & H).
  - vm_compute. repeat constructor.
  - split; vm_compute; [discriminate|reflexivity].
  - discriminate.
  - exact H.
Defined.

(** ** Filling and releasing a pagevec through a subsystem's wrappers *)

Section SubsystemFill.
Context (cfg : config) (name : string).

Lemma ssdfs_name_add_pagevec_page_adds (pv : pagevec) (p : Z)
    (rest : list Z) (st : kstate) :
  pagevec_wf pv -> nr pv < PAGEVEC_SIZE -> free_area st = p :: rest ->
  exists st',
    CHK.ssdfs_name_add_pagevec_page cfg name (Some pv) st
    = Done (Addr p,
            PageVec (nr pv + 1) (<[Z.to_nat (nr pv) := Addr p]> (pages pv)))
           st'
    /\ free_area st' = rest
    /\ mem_map st' p = Page 2 false
    /\ (forall q, q <> p -> mem_map st' q = mem_map st q)
    /\ ssdfs_allocated_pages st'
       = (if CONFIG_SSDFS_MEMORY_LEAKS_ACCOUNTING cfg
          then s64 (ssdfs_allocated_pages st + 1)
          else ssdfs_allocated_pages st)
    /\ page_leaks st' = counter_upd atomic64_inc name (page_leaks st)
    /\ debug_only st st'.
Proof.
  intros Hwf Hnr Hf.
  destruct (ssdfs_add_pagevec_page_adds cfg pv p rest st Hwf Hnr Hf)
    as (st1 & Hrun & Hrest & Hp & Hq & Hc & Hpl & Hlog).
  unfold CHK.ssdfs_name_add_pagevec_page, SSDFS_DBG.
  rewrite bind_run, Hrun. cbn [fst IS_ERR_OR_NULL negb].
  exec. eexists. split; [reflexivity|].
  unfold log_when. simpl_st. rewrite Hpl.
  repeat (split; [assumption || reflexivity|]).
  eapply debug_only_trans; [exact Hlog|].
  unfold debug_only. simpl_st. eexists. split; [solve_log|].
  destruct (CONFIG_SSDFS_DEBUG cfg); repeat constructor.
Qed.

Lemma add_pages_of_run (slots : list pointer) (st : kstate) (n : nat) :
  length slots = Z.to_nat PAGEVEC_SIZE ->
  NoDup (free_area st) ->
  forall (k : nat) (pv : pagevec) (st' : kstate),
    filled_to_of cfg name slots st k pv st' ->
    (k + n <= Z.to_nat PAGEVEC_SIZE)%nat ->
    (k + n <= length (free_area st))%nat ->
    exists pv1 st1,
      add_pages_of cfg name n pv st' = Done pv1 st1
      /\ filled_to_of cfg name slots st (k + n) pv1 st1.
Proof.
  intros Hslots Hnodup.
  induction n as [|n IH]; intros k pv st' Hinv Hcap Hfree.
  - exists pv, st'. rewrite Nat.add_0_r. split; [reflexivity|exact Hinv].
  - destruct Hinv as (Hinv & Hn & Ho).
    destruct (filled_to_next cfg slots st Hslots k pv st' Hinv)
      as (Hwf & Hnr & p & Hp & Hfa); [lia|lia|].
    destruct (ssdfs_name_add_pagevec_page_adds pv p _ st' Hwf Hnr Hfa)
      as (st'' & Hrun & Hrest & Hp2 & Hq & Hc2 & Hpl & Hlog2).
    cbn [add_pages_of]. rewrite bind_run, Hrun. cbn [snd].
    destruct (IH (S k)
                 (PageVec (nr pv + 1)
                          (<[Z.to_nat (nr pv) := Addr p]> (pages pv)))
                 st'') as (pv1 & st1 & Hrun1 & Hinv1); try lia.
    + split; [|split].
      * apply (filled_to_step cfg slots st Hslots Hnodup k pv p st' st'');
          auto. lia.
      * rewrite Hpl, counter_upd_lookup, Hn. unfold atomic64_inc.
        rewrite s64_add_idemp. f_equal. lia.
      * intros other Hne. rewrite Hpl, counter_upd_other by assumption.
        apply Ho, Hne.
    + exists pv1, st1. split; [exact Hrun1|].
      replace (k + S n)%nat with (S k + n)%nat by lia. exact Hinv1.
Qed.

(** X22.  The leak counter of a subsystem is back where it started once
    everything the subsystem added to a pagevec is released.  From an
    empty pagevec and an allocator that holds at least [n] distinct
    frames, [n <= PAGEVEC_SIZE] calls of [ssdfs_<name>_add_pagevec_page]
    all succeed and leave [ssdfs_<name>_page_leaks] up by [n];
    [ssdfs_<name>_pagevec_release] on the vector they filled empties it,
    gives every frame back to the allocator, and leaves the counter of
    [name], the counters of the other subsystems and
    [ssdfs_allocated_pages] with the values they started with; nothing
    but debug messages was written. *)
Theorem subsystem_pagevec_fill_then_release (n : nat) (slots : list pointer)
    (st : kstate) :
  length slots = Z.to_nat PAGEVEC_SIZE ->
  (n <= Z.to_nat PAGEVEC_SIZE)%nat ->
  (n <= length (free_area st))%nat ->
  NoDup (free_area st) ->
  is_s64 (ssdfs_allocated_pages st) ->
  is_s64 (counter name (page_leaks st)) ->
  exists pv1 st1 st2,
    add_pages_of cfg name n (PageVec 0 slots) st = Done pv1 st1
    /\ pv1 = PageVec (Z.of_nat n)
                     (map Addr (take n (free_area st)) ++ drop n slots)
    /\ counter name (page_leaks st1)
       = s64 (counter name (page_leaks st) + Z.of_nat n)
    /\ CHK.ssdfs_name_pagevec_release cfg name (Some pv1) st1
       = Done (Some (PageVec 0 (replicate n NULL ++ drop n slots))) st2
    /\ free_area st2 = rev (take n (free_area st)) ++ drop n (free_area st)
    /\ ssdfs_allocated_pages st2 = ssdfs_allocated_pages st
    /\ counter name (page_leaks st2) = counter name (page_leaks st)
    /\ (forall other, other <> name ->
        counter other (page_leaks st2) = counter other (page_leaks st))
    /\ debug_only st st2.
Proof.
  intros Hslots Hn Hfree Hnd Hs Hcn.
  destruct (add_pages_of_run slots st n Hslots Hnd 0 (PageVec 0 slots) st)
    as (pv1 & st1 & Hrun & (Hpv & Hfa & Hpages & Hc & Hlog) & Hcnt & Hoth);
    try lia.
  { split; [|split].
    - split; [reflexivity|]. split; [reflexivity|].
      split; [intros p Hin; cbn in Hin; inversion Hin|].
      split; [|apply debug_only_refl].
      destruct (CONFIG_SSDFS_MEMORY_LEAKS_ACCOUNTING cfg); [|reflexivity].
      rewrite Z.add_0_r. symmetry. apply s64_small, Hs.
    - rewrite Z.add_0_r. symmetry. apply s64_small, Hcn.
    - reflexivity. }
  cbn [Nat.add] in *.
  assert (Hlen : length (map Addr (take n (free_area st))) = n)
    by (rewrite length_map, length_take; lia).
  assert (Hnpv : (Z.to_nat (nr pv1) <= length (pages pv1))%nat)
    by (subst pv1; cbn [nr pages]; rewrite Nat2Z.id, length_app, Hlen; lia).
  destruct (ssdfs_name_pagevec_release_loop_run cfg name (nr pv1)
              (Z.to_nat (nr pv1)) [] (pages pv1) st1 Hnpv)
    as (sta & Hloop & Hca & Hoa & Hsame & Hloga).
  { rewrite Hcnt. apply s64_range. }
  cbn [length app] in Hloop. change (Z.of_nat 0) with 0 in Hloop.
  destruct Hsame as (Hfa_a & Hmm_a & _ & _ & Hc_a & _).
  cbn [free_area mem_map ssdfs_allocated_pages set_page_leaks] in *.
  set (sta' := debug_note cfg "pvec count %u" (debug_note cfg "pvec %p" sta)).
  destruct (free_all_run cfg (take n (free_area st)) sta')
    as (st2 & Hrun2 & Hfa2 & Hc2 & Hpl2 & Hlog2).
  { rewrite <- (take_drop n (free_area st)) in Hnd.
    apply NoDup_app in Hnd as (Hnd & _). exact Hnd. }
  { intros p Hin. change (mem_map sta') with (mem_map sta).
    rewrite Hmm_a. apply Hpages, Hin. }
  { change (ssdfs_allocated_pages sta') with (ssdfs_allocated_pages sta).
    rewrite Hc_a, Hc. destruct (CONFIG_SSDFS_MEMORY_LEAKS_ACCOUNTING cfg);
      [apply s64_range|exact Hs]. }
  assert (Hlive : non_null (take (Z.to_nat (nr pv1)) (pages pv1))
                  = map Addr (take n (free_area st))).
  { subst pv1. cbn [nr pages]. rewrite Nat2Z.id.
    rewrite take_app_length' by (symmetry; exact Hlen).
    apply non_null_addrs. }
  exists pv1, st1, st2.
  split; [exact Hrun|]. split; [exact Hpv|]. split; [exact Hcnt|].
  split; [|split; [|split; [|split; [|split]]]].
  - unfold CHK.ssdfs_name_pagevec_release, pagevec_count.
    destruct pv1 as [k1 slots1]. cbn [nr pages] in *.
    rewrite bind_run, Hloop.
    rewrite ssdfs_pagevec_release_run by exact Hnpv.
    cbn [nr pages]. rewrite Hlive. fold sta'. rewrite bind_run, Hrun2.
    injection Hpv as -> ->. rewrite Nat2Z.id.
    rewrite drop_app_length' by (symmetry; exact Hlen). reflexivity.
  - rewrite Hfa2. change (free_area sta') with (free_area sta).
    now rewrite Hfa_a, Hfa.
  - rewrite Hc2. change (ssdfs_allocated_pages sta')
      with (ssdfs_allocated_pages sta). rewrite Hc_a, Hc.
    destruct (CONFIG_SSDFS_MEMORY_LEAKS_ACCOUNTING cfg); [|reflexivity].
    rewrite <- Z.add_opp_r, s64_add_idemp, length_take.
    replace (ssdfs_allocated_pages st + Z.of_nat n
             + - Z.of_nat (n `min` length (free_area st)))
      with (ssdfs_allocated_pages st) by lia.
    apply s64_small, Hs.
  - rewrite Hpl2. change (page_leaks sta') with (page_leaks sta).
    rewrite Hca, Hcnt, Hlive, length_map, length_take.
    rewrite <- Z.add_opp_r, s64_add_idemp.
    replace (counter name (page_leaks st) + Z.of_nat n
             + - Z.of_nat (n `min` length (free_area st)))
      with (counter name (page_leaks st)) by lia.
    apply s64_small, Hcn.
  - intros other Hne. rewrite Hpl2. change (page_leaks sta')
      with (page_leaks sta). rewrite Hoa by assumption. apply Hoth, Hne.
  - eapply debug_only_trans; [exact Hlog|].
    eapply debug_only_trans; [exact Hloga|].
    eapply debug_only_trans; [|exact Hlog2].
    eapply debug_only_trans; apply debug_note_debug_only.
Qed.

End SubsystemFill.

Lemma subsystem_pagevec_fill_then_release_witness :
  let cfg := Config true true in
  let slots := replicate 15 NULL in
  let st := sample_state [7; 8; 9] in
  exists pv1 st1 st2,
    add_pages_of cfg "peb" 2 (PageVec 0 slots) st = Done pv1 st1
    /\ counter "peb" (page_leaks st1) = 2
    /\ CHK.ssdfs_name_pagevec_release cfg "peb" (Some pv1) st1
       = Done (Some (PageVec 0 slots)) st2
    /\ free_area st2 = [8; 7; 9]
    /\ ssdfs_allocated_pages st2 = 0
    /\ counter "peb" (page_leaks st2) = 0.
Proof.
  intros cfg slots st.
  destruct (subsystem_pagevec_fill_then_release cfg "peb" 2 slots st)
    as (pv1 & st1 & st2 & H1 & _ & H3 & H4 & H5 & H6 & H7 & _).
  - reflexivity.
  - vm_compute. repeat constructor.
  - vm_compute. repeat constructor.
  - apply (bool_decide_unpack _). vm_compute. exact I.
  - split; vm_compute; [discriminate|reflexivity].
  - split; vm_compute; [discriminate|reflexivity].
  - exists pv1, st1, st2. repeat split; assumption.
Defined.

(** ** Copies and fills that are in range *)

Lemma memcpy_bytes_copied (n : nat) :
  forall (dst src : Z) (m : Z -> Z),
    ranges_apart dst src (Z.of_nat n) ->
    copied m (memcpy_bytes dst src n m) dst src (Z.of_nat n).
Proof.
  induction n as [|n IH]; intros dst src m Hd.
  - split; [intros i Hi; cbn in Hi; lia|reflexivity].
  - cbn [memcpy_bytes].
    destruct (IH (dst + 1) (src + 1) (fn_upd dst (m src) m)) as [Hin Hout].
    { unfold ranges_apart in *. lia. }
    split.
    + intros i Hi. destruct (Z.eq_dec i 0) as [->|Hi0].
      * rewrite !Z.add_0_r, Hout by lia. apply fn_upd_same.
      * replace (dst + i) with (dst + 1 + (i - 1)) by lia.
        rewrite Hin by lia. rewrite fn_upd_other by (unfold ranges_apart in Hd; lia).
        f_equal. lia.
    + intros a Ha. rewrite Hout by lia. apply fn_upd_other. lia.
Qed.

Lemma memcpy_copied (dst src n : Z) (m : Z -> Z) :
  0 <= n -> ranges_apart dst src n -> copied m (memcpy dst src n m) dst src n.
Proof.
  intros Hn Hd. unfold memcpy.
  rewrite <- (Z2Nat.id n) at 2 by lia. apply memcpy_bytes_copied.
  now rewrite Z2Nat.id by lia.
Qed.

Lemma memmove_copied (dst src n : Z) (m : Z -> Z) :
  copied m (memmove dst src n m) dst src n.
Proof.
  unfold memmove. split.
  - intros i Hi. destruct (Z.leb_spec dst (dst + i)); [|lia].
    destruct (Z.ltb_spec (dst + i) (dst + n)); [|lia]. cbn. f_equal. lia.
  - intros a Ha. destruct (Z.leb_spec dst a); [|reflexivity].
    destruct (Z.ltb_spec a (dst + n)); [lia|reflexivity].
Qed.

Lemma memset_filled (dst v n : Z) (m : Z -> Z) :
  filled m (memset dst v n m) dst (u8 v) n.
Proof.
  unfold memset. split.
  - intros i Hi. destruct (Z.leb_spec dst (dst + i)); [|lia].
    destruct (Z.ltb_spec (dst + i) (dst + n)); [|lia]. reflexivity.
  - intros a Ha. destruct (Z.leb_spec dst a); [|reflexivity].
    destruct (Z.ltb_spec a (dst + n)); [lia|reflexivity].
Qed.

Section BoundedCopySuccess.
Context (cfg : config).

Lemma checked_range_passes (report : string -> kernel unit)
    (dst_off dst_size src_off src_size size : Z) (f : (Z -> Z) -> Z -> Z)
    (st : kstate) :
  0 <= src_off -> 0 <= dst_off -> 0 <= size ->
  src_off + size <= src_size < 2 ^ 32 ->
  dst_off + size <= dst_size < 2 ^ 32 ->
  exists st',
    checked_range cfg report dst_off dst_size src_off src_size size
      (modify (set_memory f);; mret 0) st = Done 0 st'
    /\ memory st' = f (memory st)
    /\ same_but_memory_and_log st st'.
Proof.
  intros Hs Hd Hn Hsrc Hdst. unfold checked_range, SSDFS_DBG.
  destruct (CONFIG_SSDFS_DEBUG cfg).
  - rewrite !u32_small by lia.
    destruct (Z.ltb_spec src_size (src_off + size)); [lia|].
    destruct (Z.ltb_spec dst_size (dst_off + size)); [lia|].
    eexists. split; [reflexivity|]. split; [reflexivity|]. repeat split.
  - eexists. split; [reflexivity|]. split; [reflexivity|]. repeat split.
Qed.

Lemma checked_dst_range_passes (dst_off dst_size size : Z)
    (f : (Z -> Z) -> Z -> Z) (st : kstate) :
  0 <= dst_off -> 0 <= size -> dst_off + size <= dst_size < 2 ^ 32 ->
  exists st',
    checked_dst_range cfg dst_off dst_size size
      (modify (set_memory f);; mret 0) st = Done 0 st'
    /\ memory st' = f (memory st)
    /\ same_but_memory_and_log st st'.
Proof.
  intros Hd Hn Hdst. unfold checked_dst_range, SSDFS_DBG.
  destruct (CONFIG_SSDFS_DEBUG cfg).
  - rewrite !u32_small by lia.
    destruct (Z.ltb_spec dst_size (dst_off + size)); [lia|].
    eexists. split; [reflexivity|]. split; [reflexivity|]. repeat split.
  - eexists. split; [reflexivity|]. split; [reflexivity|]. repeat split.
Qed.

(** X11.  A copy that is in range copies, in every build.  For offsets
    and a length that are not negative, with [src_off + size <= src_size]
    and [dst_off + size <= dst_size] (sizes below [2 ^ 32]): [ssdfs_memcpy],
    [ssdfs_memcpy_page], [ssdfs_memcpy_from_page], [ssdfs_memcpy_to_page]
    and [ssdfs_memmove_page] (which copies with [memcpy_page]) on ranges
    that do not overlap, and [ssdfs_memmove] on any two ranges, return 0;
    afterwards the [size] bytes of the destination hold what the source
    held before the call, and every byte outside the destination range
    is as it was, as are pages, allocator and counters. *)
Theorem bounded_copy_in_range
    (dst dst_off dst_size src src_off src_size size : Z) (st : kstate) :
  0 <= src_off -> 0 <= dst_off -> 0 <= size ->
  src_off + size <= src_size < 2 ^ 32 ->
  dst_off + size <= dst_size < 2 ^ 32 ->
  (ranges_apart (dst + dst_off) (src + src_off) size ->
   copy_done (ssdfs_memcpy cfg dst dst_off dst_size src src_off src_size
                           size st)
             st (dst + dst_off) (src + src_off) size)
  /\ (ranges_apart (page_address dst + dst_off) (page_address src + src_off) size ->
      copy_done (ssdfs_memcpy_page cfg dst dst_off dst_size src src_off
                                   src_size size st)
                st (page_address dst + dst_off) (page_address src + src_off)
                size
      /\ copy_done (ssdfs_memmove_page cfg dst dst_off dst_size src src_off
                                       src_size size st)
                   st (page_address dst + dst_off)
                   (page_address src + src_off) size)
  /\ (ranges_apart (dst + dst_off) (page_address src + src_off) size ->
      copy_done (ssdfs_memcpy_from_page cfg dst dst_off dst_size src src_off
                                        src_size size st)
                st (dst + dst_off) (page_address src + src_off) size)
  /\ (ranges_apart (page_address dst + dst_off) (src + src_off) size ->
      copy_done (ssdfs_memcpy_to_page cfg dst dst_off dst_size src src_off
                                      src_size size st)
                st (page_address dst + dst_off) (src + src_off) size)
  /\ copy_done (ssdfs_memmove cfg dst dst_off dst_size src src_off src_size
                              size st)
               st (dst + dst_off) (src + src_off) size.
Proof.
  intros Hs Hd Hn Hsrc Hdst.
  assert (Hcopy : forall report d s,
            ranges_apart d s size ->
            copy_done (checked_range cfg report dst_off dst_size src_off
                         src_size size
                         (modify (set_memory (memcpy d s size));; mret 0) st)
                      st d s size).
  { intros report d s Hdis.
    destruct (checked_range_passes report dst_off dst_size src_off src_size
                size (memcpy d s size) st) as (st' & Hrun & Hmem & Hsame);
      try assumption.
    exists st'. split; [exact Hrun|]. split; [|exact Hsame].
    rewrite Hmem. now apply memcpy_copied. }
  repeat split; intros; try (apply Hcopy; assumption).
  destruct (checked_range_passes SSDFS_ERR dst_off dst_size src_off src_size
              size (memmove (dst + dst_off) (src + src_off) size) st)
    as (st' & Hrun & Hmem & Hsame); try assumption.
  exists st'. split; [exact Hrun|]. split; [|exact Hsame].
  rewrite Hmem. apply memmove_copied.
Qed.

(** X12.  A fill that is in range fills, in every build.  For an offset
    and a length that are not negative with
    [dst_off + set_size <= dst_size < 2 ^ 32], [ssdfs_memset_page]
    returns 0 and sets the [set_size] bytes at [dst_off] of the page to
    the low byte of [value], [ssdfs_memzero_page] returns 0 and sets
    them to 0; every other byte is as it was, as are pages, allocator
    and counters. *)
Theorem bounded_fill_in_range (page dst_off dst_size value set_size : Z)
    (st : kstate) :
  0 <= dst_off -> 0 <= set_size -> dst_off + set_size <= dst_size < 2 ^ 32 ->
  fill_done (ssdfs_memset_page cfg page dst_off dst_size value set_size st)
            st (page_address page + dst_off) (u8 value) set_size
  /\ fill_done (ssdfs_memzero_page cfg page dst_off dst_size set_size st)
               st (page_address page + dst_off) 0 set_size.
Proof.
  intros Hd Hn Hdst. split.
  - destruct (checked_dst_range_passes dst_off dst_size set_size
                (memset (page_address page + dst_off) value set_size) st)
      as (st' & Hrun & Hmem & Hsame); try assumption.
    exists st'. split; [exact Hrun|]. split; [|exact Hsame].
    rewrite Hmem. apply memset_filled.
  - destruct (checked_dst_range_passes dst_off dst_size set_size
                (memset (page_address page + dst_off) 0 set_size) st)
      as (st' & Hrun & Hmem & Hsame); try assumption.
    exists st'. split; [exact Hrun|]. split; [|exact Hsame].
    rewrite Hmem. apply (memset_filled _ 0).
Qed.

End BoundedCopySuccess.

Lemma bounded_copy_in_range_witness :
  let cfg := Config true false in
  let st := sample_state [] in
  copy_done (ssdfs_memcpy cfg 100 2 8 200 0 4 4 st) st 102 200 4
  /\ copy_done (ssdfs_memmove cfg 100 2 8 100 0 8 4 st) st 102 100 4.
Proof.
  intros cfg st.
  destruct (bounded_copy_in_range cfg 100 2 8 200 0 4 4 st)
    as (H1 & _); try lia.
  destruct (bounded_copy_in_range cfg 100 2 8 100 0 8 4 st)
    as (_ & _ & _ & _ & H5); try lia.
  split; [|exact H5]. apply H1. unfold ranges_apart. lia.
Defined.

Lemma bounded_fill_in_range_witness :
  let cfg := Config true false in
  let st := sample_state [] in
  fill_done (ssdfs_memset_page cfg 3 16 4096 511 8 st) st
            (page_address 3 + 16) 255 8
  /\ fill_done (ssdfs_memzero_page cfg 3 16 4096 8 st) st
               (page_address 3 + 16) 0 8.
Proof.
  intros cfg st. apply (bounded_fill_in_range cfg 3 16 4096 511 8 st); lia.
Defined.

(** ** The verdict of the checksum check *)

Section ChecksumVerdict.
Context (cfg : config) (CRC : Z).

(** X13.  On every record, buffer and buffer size, [is_csum_valid]
    returns true exactly when the declared length fits in the buffer, the
    flags contain [SSDFS_CRC32] and the stored checksum equals the CRC32
    of the declared length of the buffer read with the checksum field of
    the record as 0; for a record whose checksum field lies outside the
    bytes covered that is the CRC32 of the buffer as it is.  The record
    that memory holds after the call is the one it held before; a true
    verdict leaves every byte and everything else in the state as it was,
    a false one has written an error to the log.  The CRC32 compared with
    is a 32-bit value. *)
Theorem is_csum_valid_iff (check a sz : Z) (st : kstate) :
  let chk := metadata_check_at (memory st) check in
  exists b st',
    is_csum_valid cfg CRC (Addr check) (Addr a) sz st = Done b st'
    /\ (b = true <->
        bytes chk <= sz /\ Z.land (flags chk) CRC <> 0
        /\ csum chk = covered_crc (memory st) check a)
    /\ (csum_outside check a (bytes chk) ->
        covered_crc (memory st) check a = crc_of (memory st) a (bytes chk))
    /\ metadata_check_at (memory st') check = chk
    /\ (b = true ->
        set_memory (fun _ => memory st) st' = st
        /\ bytes_kept (memory st) (memory st') check)
    /\ (b = false -> exists msg, klog st' = klog st ++ msg
                                 /\ Exists (fun e => e.1 = KERN_ERR) msg)
    /\ is_u32 (covered_crc (memory st) check a).
Proof.
  intros chk. rewrite is_csum_valid_run. cbv zeta. fold chk.
  assert (Hcrc := covered_crc_u32 (memory st) check a).
  assert (Hout := covered_crc_outside (memory st) check a). fold chk in Hout.
  destruct (Z.ltb_spec sz (bytes chk)); cbn [orb].
  { eexists _, _. split; [reflexivity|].
    split; [split; [discriminate|intros (? & ? & ?); lia]|].
    split; [exact Hout|]. split; [reflexivity|].
    split; [discriminate|]. split; [|exact Hcrc].
    intros _. eexists. unfold log_err. simpl_st.
    split; [rewrite <- app_assoc; reflexivity|]. repeat constructor. }
  destruct (Z.eqb_spec (Z.land (flags chk) CRC) 0).
  { eexists _, _. split; [reflexivity|].
    split; [split; [discriminate|intros (? & ? & ?); lia]|].
    split; [exact Hout|]. split; [reflexivity|].
    split; [discriminate|]. split; [|exact Hcrc].
    intros _. eexists. unfold log_err. simpl_st.
    split; [rewrite <- app_assoc; reflexivity|]. repeat constructor. }
  assert (Hrec := with_csum_record check 0 (covered_crc (memory st) check a) st).
  assert (Hkept := with_csum_bytes_kept check 0
                     (covered_crc (memory st) check a) st).
  assert (Hrest := with_csum_restore check 0 (covered_crc (memory st) check a)
                     (csum chk) st).
  change (get_le32 (memory st) (csum_of check)) with (csum chk) in Hrec, Hkept.
  destruct (Z.eqb_spec (csum chk) (covered_crc (memory st) check a)).
  - eexists _, _. split; [reflexivity|].
    split; [split; [intros _; repeat split; assumption|reflexivity]|].
    split; [exact Hout|]. split; [exact Hrec|].
    split; [intros _; split; assumption|]. split; [discriminate|exact Hcrc].
  - eexists _, _. split; [reflexivity|].
    split; [split; [discriminate|intros (? & ? & ?); contradiction]|].
    split; [exact Hout|]. split; [exact Hrec|].
    split; [discriminate|]. split; [|exact Hcrc].
    intros _. eexists. unfold log_err, with_csum. simpl_st.
    split; [reflexivity|]. repeat constructor.
Qed.

End ChecksumVerdict.

(** ** Mount options *)

Lemma SSDFS_MOUNT_bit (opt : mount_opt) :
  SSDFS_MOUNT opt = 2 ^ mount_opt_bit opt /\ 0 <= mount_opt_bit opt.
Proof. destruct opt; split; try reflexivity; cbn; lia. Qed.

Lemma mount_opt_bit_inj (opt opt' : mount_opt) :
  mount_opt_bit opt' = mount_opt_bit opt -> opt' = opt.
Proof. destruct opt, opt'; cbn; intros H; congruence. Qed.

(** X14.  Each mount option has a bit of its own.  For every option
    word [o] and option [opt]: after [ssdfs_set_opt(o, opt)],
    [ssdfs_test_opt(o, opt)] is not zero; after [ssdfs_clear_opt(o, opt)]
    it is zero; and neither changes what [ssdfs_test_opt] gives for any
    other option. *)
Theorem mount_options_independent (o : Z) (opt opt' : mount_opt) :
  ssdfs_test_opt (ssdfs_set_opt o opt) opt <> 0
  /\ ssdfs_test_opt (ssdfs_clear_opt o opt) opt = 0
  /\ (opt' <> opt ->
      ssdfs_test_opt (ssdfs_set_opt o opt) opt' = ssdfs_test_opt o opt'
      /\ ssdfs_test_opt (ssdfs_clear_opt o opt) opt' = ssdfs_test_opt o opt').
Proof.
  unfold ssdfs_test_opt, ssdfs_set_opt, ssdfs_clear_opt.
  destruct (SSDFS_MOUNT_bit opt) as (Hopt & Hk).
  destruct (SSDFS_MOUNT_bit opt') as (Hopt' & Hk').
  set (k := mount_opt_bit opt) in *. set (k' := mount_opt_bit opt') in *.
  split; [|split].
  - intros H. apply (f_equal (fun z => Z.testbit z k)) in H.
    rewrite Z.land_spec, Z.lor_spec, Hopt, Z.pow2_bits_true, Z.bits_0 in H
      by lia.
    rewrite orb_true_r in H. discriminate.
  - rewrite <- Z.land_assoc, Z.land_comm with (a := Z.lnot _), Z.land_lnot_diag.
    apply Z.land_0_r.
  - intros Hne.
    assert (Hkk : k' <> k) by (intros H; apply Hne, mount_opt_bit_inj, H).
    split; apply Z.bits_inj'; intros n Hn.
    + rewrite !Z.land_spec, Z.lor_spec, Hopt, Hopt'.
      destruct (Z.eq_dec n k') as [->|Hnk].
      * rewrite (Z.pow2_bits_false k k') by lia. now rewrite orb_false_r.
      * rewrite (Z.pow2_bits_false k' n) by lia. now rewrite !andb_false_r.
    + rewrite !Z.land_spec, Z.lnot_spec, Hopt, Hopt' by lia.
      destruct (Z.eq_dec n k') as [->|Hnk].
      * rewrite (Z.pow2_bits_false k k') by lia. cbn. now rewrite andb_true_r.
      * rewrite (Z.pow2_bits_false k' n) by lia. now rewrite !andb_false_r.
Qed.

(** ** Physical pages and memory pages *)

Lemma shl_ulong (index k : Z) :
  0 <= index -> 0 <= k -> index * 2 ^ k < 2 ^ 64 ->
  ulong (Z.shiftl index k) = index * 2 ^ k.
Proof.
  intros Hi Hk Hlt. rewrite Z.shiftl_mul_pow2 by lia.
  apply ulong_small. split; [|exact Hlt].
  apply Z.mul_nonneg_nonneg; [lia|]. apply Z.pow_nonneg. lia.
Qed.

Section PageUnitsProps.
Context (fsi : ssdfs_fs_info).


Lemma phys_to_mem_cases (index : Z) :
  0 <= index -> 0 <= (log_pagesize fsi) < 64 ->
  (PAGE_SHIFT <= (log_pagesize fsi) -> index * 2 ^ ((log_pagesize fsi) - PAGE_SHIFT) < 2 ^ 64 ->
   ssdfs_phys_page_to_mem_page fsi index = index * 2 ^ ((log_pagesize fsi) - PAGE_SHIFT))
  /\ ((log_pagesize fsi) <= PAGE_SHIFT ->
      ssdfs_phys_page_to_mem_page fsi index = index / 2 ^ (PAGE_SHIFT - (log_pagesize fsi))).
Proof.
  intros Hi Hl. unfold ssdfs_phys_page_to_mem_page, PAGE_SHIFT in *.
  split; intros Hcase.
  - intros Hlt. destruct (Z.eqb_spec (log_pagesize fsi) 12) as [->|Hne].
    + change (2 ^ (12 - 12)) with 1. lia.
    + destruct (Z.ltb_spec 12 (log_pagesize fsi)); [|lia]. apply shl_ulong; lia.
  - destruct (Z.eqb_spec (log_pagesize fsi) 12) as [->|Hne].
    + change (2 ^ (12 - 12)) with 1. now rewrite Z.div_1_r.
    + destruct (Z.ltb_spec 12 (log_pagesize fsi)); [lia|]. apply Z.shiftr_div_pow2. lia.
Qed.

Lemma mem_to_phys_cases (index : Z) :
  0 <= index -> 0 <= (log_pagesize fsi) < 64 ->
  (PAGE_SHIFT <= (log_pagesize fsi) ->
   ssdfs_mem_page_to_phys_page fsi index = index / 2 ^ ((log_pagesize fsi) - PAGE_SHIFT))
  /\ ((log_pagesize fsi) <= PAGE_SHIFT -> index * 2 ^ (PAGE_SHIFT - (log_pagesize fsi)) < 2 ^ 64 ->
      ssdfs_mem_page_to_phys_page fsi index = index * 2 ^ (PAGE_SHIFT - (log_pagesize fsi))).
Proof.
  intros Hi Hl. unfold ssdfs_mem_page_to_phys_page, PAGE_SHIFT in *.
  split; intros Hcase.
  - destruct (Z.eqb_spec (log_pagesize fsi) 12) as [->|Hne].
    + change (2 ^ (12 - 12)) with 1. now rewrite Z.div_1_r.
    + destruct (Z.ltb_spec 12 (log_pagesize fsi)); [|lia]. apply Z.shiftr_div_pow2. lia.
  - intros Hlt. destruct (Z.eqb_spec (log_pagesize fsi) 12) as [->|Hne].
    + change (2 ^ (12 - 12)) with 1. lia.
    + destruct (Z.ltb_spec 12 (log_pagesize fsi)); [lia|]. apply shl_ulong; lia.
Qed.

(** X15.  The page index conversions go by the byte offset.  For a
    page size of [2 ^ log_pagesize] bytes and an index whose byte offset
    fits in an [unsigned long]: [ssdfs_phys_page_to_mem_page] gives the
    index of the memory page that holds the first byte of the physical
    page, [index * 2 ^ log_pagesize / PAGE_SIZE], and
    [ssdfs_mem_page_to_phys_page] the index of the physical page that
    holds the first byte of the memory page,
    [index * PAGE_SIZE / 2 ^ log_pagesize]. *)
Theorem page_index_conversion_by_bytes (index : Z) :
  0 <= index -> 0 <= (log_pagesize fsi) < BITS_PER_LONG ->
  (index * 2 ^ (log_pagesize fsi) < 2 ^ BITS_PER_LONG ->
   ssdfs_phys_page_to_mem_page fsi index = index * 2 ^ (log_pagesize fsi) / PAGE_SIZE)
  /\ (index * PAGE_SIZE < 2 ^ BITS_PER_LONG ->
      ssdfs_mem_page_to_phys_page fsi index = index * PAGE_SIZE / 2 ^ (log_pagesize fsi)).
Proof.
  unfold BITS_PER_LONG, PAGE_SIZE. intros Hi Hl.
  destruct (phys_to_mem_cases index Hi Hl) as [Hup Hdown].
  destruct (mem_to_phys_cases index Hi Hl) as [Hdown' Hup'].
  unfold PAGE_SHIFT in *.
  destruct (Z.le_gt_cases 12 (log_pagesize fsi)) as [Hge|Hlt].
  - pose proof (pow2_split 12 (log_pagesize fsi) ltac:(lia)) as Hsplit.
    assert (0 < 2 ^ ((log_pagesize fsi) - 12)) by (apply Z.pow_pos_nonneg; lia).
    split; intros Hfit.
    + rewrite Hup by nia. rewrite Hsplit.
      replace (index * (2 ^ 12 * 2 ^ ((log_pagesize fsi) - 12)))
        with (index * 2 ^ ((log_pagesize fsi) - 12) * 2 ^ 12) by lia.
      now rewrite Z.div_mul by lia.
    + rewrite Hdown' by lia. rewrite Hsplit.
      rewrite Z.mul_comm, Z.div_mul_cancel_l; lia.
  - pose proof (pow2_split (log_pagesize fsi) 12 ltac:(lia)) as Hsplit.
    assert (0 < 2 ^ (12 - (log_pagesize fsi))) by (apply Z.pow_pos_nonneg; lia).
    assert (0 < 2 ^ (log_pagesize fsi)) by (apply Z.pow_pos_nonneg; lia).
    split; intros Hfit.
    + rewrite Hdown by lia. rewrite Hsplit.
      rewrite Z.mul_comm, Z.div_mul_cancel_l; lia.
    + rewrite Hup' by nia. rewrite Hsplit.
      replace (index * (2 ^ (log_pagesize fsi) * 2 ^ (12 - (log_pagesize fsi))))
        with (index * 2 ^ (12 - (log_pagesize fsi)) * 2 ^ (log_pagesize fsi)) by lia.
      now rewrite Z.div_mul by lia.
Qed.


(** X17.  [ssdfs_write_offset_to_mem_page_index] for a [u16] start page
    and a [u32] write offset: the result is always below [2 ^ 20], since
    the byte offset is kept in a [u32]; and when the byte offset of the
    log's first memory page plus the write offset fits in 32 bits, the
    result is the index of that first memory page plus
    [write_offset / PAGE_SIZE]. *)
Theorem write_offset_mem_page_index (start_page write_offset : Z) :
  0 <= start_page < 2 ^ 16 -> 0 <= write_offset < 2 ^ 32 ->
  0 <= (log_pagesize fsi) < BITS_PER_LONG ->
  let first := ssdfs_phys_page_to_mem_page fsi start_page in
  let index := ssdfs_write_offset_to_mem_page_index fsi start_page write_offset
  in
  0 <= index < 2 ^ 20
  /\ (first * PAGE_SIZE + write_offset < 2 ^ 32 ->
      index = first + write_offset / PAGE_SIZE).
Proof.
  intros Hs Hw Hl first index.
  assert (Hfirst : 0 <= first).
  { unfold first, ssdfs_phys_page_to_mem_page, ulong.
    repeat case_match.
    - lia.
    - apply Z.mod_pos_bound. reflexivity.
    - apply Z.shiftr_nonneg. lia. }
  unfold index, ssdfs_write_offset_to_mem_page_index, SSDFS_BYTES2MEMPAGE,
    SSDFS_MEMPAGE2BYTES, PAGE_SHIFT, PAGE_SIZE. fold first.
  split.
  - set (x := u32 (ulong _)).
    assert (0 <= x < 2 ^ 32) by (apply Z.mod_pos_bound; reflexivity).
    rewrite ulong_small by lia. rewrite Z.shiftr_div_pow2 by lia.
    split; [apply Z.div_pos; lia|]. apply Z.div_lt_upper_bound; lia.
  - intros Hfit. change PAGE_SHIFT with 12 in Hfit.
    rewrite (u32_small first) by lia.
    rewrite (ulong_small first) by lia.
    rewrite shl_ulong by lia.
    rewrite (ulong_small (first * 2 ^ 12 + write_offset)) by lia.
    rewrite u32_small by lia. rewrite ulong_small by lia.
    rewrite Z.shiftr_div_pow2 by lia.
    now rewrite Z.div_add_l by lia.
Qed.

End PageUnitsProps.

Section PageCountProps.
Context (cfg : config) (fsi : ssdfs_fs_info).

Lemma guard_run (b : bool) (why : string) (st : kstate) :
  ifdef_DEBUG cfg (BUG_ON b why) st
  = if CONFIG_SSDFS_DEBUG cfg && b then Oops why else Done tt st.
Proof.
  unfold ifdef_DEBUG, BUG_ON, when, BUG.
  destruct (CONFIG_SSDFS_DEBUG cfg), b; reflexivity.
Qed.

Lemma ssdfs_phys_page_to_mem_page_count_run (n : Z) (st : kstate) :
  is_u32 (pagesize fsi) -> is_u32 n ->
  ssdfs_phys_page_to_mem_page_count cfg fsi n st
  = let exact := pagesize fsi * n / PAGE_SIZE in
    if CONFIG_SSDFS_DEBUG cfg && (U32_MAX <=? exact)
    then Oops "BUG_ON(mem_page_count >= U32_MAX)"
    else Done (u32 exact) st.
Proof.
  unfold is_u32. intros Hp Hn. unfold ssdfs_phys_page_to_mem_page_count.
  rewrite (u64_small (pagesize fsi)) by lia.
  rewrite u64_small by nia.
  rewrite Z.shiftr_div_pow2 by (unfold PAGE_SHIFT; lia).
  rewrite bind_run, guard_run. fold PAGE_SIZE. cbv zeta.
  destruct (_ && _); reflexivity.
Qed.

Lemma ssdfs_mem_page_to_phys_page_count_run (n : Z) (st : kstate) :
  0 <= log_pagesize fsi < 64 -> is_u32 n ->
  ssdfs_mem_page_to_phys_page_count cfg fsi n st
  = let exact := PAGE_SIZE * n / 2 ^ log_pagesize fsi in
    if CONFIG_SSDFS_DEBUG cfg && (U32_MAX <=? exact)
    then Oops "BUG_ON(phys_page_count >= U32_MAX)"
    else Done (u32 exact) st.
Proof.
  unfold is_u32. intros Hp Hn. unfold ssdfs_mem_page_to_phys_page_count.
  rewrite (u64_small PAGE_SIZE) by (cbv; split; congruence).
  rewrite u64_small by (unfold PAGE_SIZE, PAGE_SHIFT; lia).
  rewrite Z.shiftr_div_pow2 by lia.
  rewrite bind_run, guard_run. cbv zeta.
  destruct (_ && _); reflexivity.
Qed.

(** X18.  The page count conversions and their guard.  For a 32-bit
    page size and count and a shift count [log_pagesize] below the 64
    bits of the shifted value, the products in [u64] never overflow:
    [ssdfs_phys_page_to_mem_page_count] returns
    [pagesize * count / PAGE_SIZE] and
    [ssdfs_mem_page_to_phys_page_count] returns
    [PAGE_SIZE * count / 2 ^ log_pagesize] whenever that value is below
    [U32_MAX].  When it is [U32_MAX] or more, a debug build stops at the
    [BUG_ON], and a build without it returns the value truncated to 32
    bits. *)
Theorem page_count_conversion_guard (n : Z) (st : kstate) :
  is_u32 (pagesize fsi) -> is_u32 n -> 0 <= log_pagesize fsi < 64 ->
  let to_mem := pagesize fsi * n / PAGE_SIZE in
  let to_phys := PAGE_SIZE * n / 2 ^ log_pagesize fsi in
  (to_mem < U32_MAX ->
   ssdfs_phys_page_to_mem_page_count cfg fsi n st = Done to_mem st)
  /\ (to_phys < U32_MAX ->
      ssdfs_mem_page_to_phys_page_count cfg fsi n st = Done to_phys st)
  /\ (CONFIG_SSDFS_DEBUG cfg = true ->
      (U32_MAX <= to_mem ->
       ssdfs_phys_page_to_mem_page_count cfg fsi n st
       = Oops "BUG_ON(mem_page_count >= U32_MAX)")
      /\ (U32_MAX <= to_phys ->
          ssdfs_mem_page_to_phys_page_count cfg fsi n st
          = Oops "BUG_ON(phys_page_count >= U32_MAX)"))
  /\ (CONFIG_SSDFS_DEBUG cfg = false ->
      ssdfs_phys_page_to_mem_page_count cfg fsi n st
      = Done (to_mem mod 2 ^ 32) st
      /\ ssdfs_mem_page_to_phys_page_count cfg fsi n st
         = Done (to_phys mod 2 ^ 32) st).
Proof.
  intros Hp Hn Hl to_mem to_phys.
  rewrite ssdfs_phys_page_to_mem_page_count_run by assumption.
  rewrite ssdfs_mem_page_to_phys_page_count_run by assumption.
  cbv zeta. fold to_mem to_phys.
  assert (0 <= to_mem).
  { apply Z.div_pos; [|reflexivity]. unfold is_u32 in *. nia. }
  assert (0 <= to_phys).
  { apply Z.div_pos; [|apply Z.pow_pos_nonneg; lia].
    unfold is_u32, PAGE_SIZE, PAGE_SHIFT in *. lia. }
  unfold U32_MAX.
  repeat split.
  - intros Hlt. destruct (Z.leb_spec (2 ^ 32 - 1) to_mem); [lia|].
    rewrite andb_false_r, u32_small by lia. reflexivity.
  - intros Hlt. destruct (Z.leb_spec (2 ^ 32 - 1) to_phys); [lia|].
    rewrite andb_false_r, u32_small by lia. reflexivity.
  - intros Hge. rewrite H1. destruct (Z.leb_spec (2 ^ 32 - 1) to_mem); [|lia].
    reflexivity.
  - intros Hge. rewrite H1. destruct (Z.leb_spec (2 ^ 32 - 1) to_phys); [|lia].
    reflexivity.
  - rewrite H1. reflexivity.
  - rewrite H1. reflexivity.
Qed.

(** X19.  Round trip of the page count conversions.  For a page size
    of [2 ^ log_pagesize] bytes, in every build: when physical pages are
    at least as large as memory pages, a count of physical pages
    converted to memory pages and back is the same count; when they are
    at most as large, a count of memory pages converted to physical pages
    and back is the same count (as long as the converted count is below
    [U32_MAX]). *)
Theorem page_count_round_trip (n : Z) (st : kstate) :
  0 <= n -> 0 <= log_pagesize fsi < 32 ->
  pagesize fsi = 2 ^ log_pagesize fsi ->
  (PAGE_SHIFT <= log_pagesize fsi ->
   let m := n * 2 ^ (log_pagesize fsi - PAGE_SHIFT) in
   m < U32_MAX ->
   ssdfs_phys_page_to_mem_page_count cfg fsi n st = Done m st
   /\ ssdfs_mem_page_to_phys_page_count cfg fsi m st = Done n st)
  /\ (log_pagesize fsi <= PAGE_SHIFT ->
      let m := n * 2 ^ (PAGE_SHIFT - log_pagesize fsi) in
      m < U32_MAX ->
      ssdfs_mem_page_to_phys_page_count cfg fsi n st = Done m st
      /\ ssdfs_phys_page_to_mem_page_count cfg fsi m st = Done n st).
Proof.
  intros Hn Hl Hps.
  assert (Hpsu : is_u32 (pagesize fsi)).
  { rewrite Hps. unfold is_u32. split; [apply Z.pow_nonneg; lia|].
    apply Z.pow_lt_mono_r; lia. }
  split; intros Hcase m Hm; unfold U32_MAX, PAGE_SHIFT in *.
  - assert (0 < 2 ^ (log_pagesize fsi - 12)) by (apply Z.pow_pos_nonneg; lia).
    assert (Hsplit := pow2_split 12 (log_pagesize fsi) ltac:(lia)).
    assert (Hnm : n <= m) by (unfold m; nia).
    assert (E1 : pagesize fsi * n / PAGE_SIZE = m).
    { rewrite Hps, Hsplit. unfold PAGE_SIZE, PAGE_SHIFT.
      replace (2 ^ 12 * 2 ^ (log_pagesize fsi - 12) * n)
        with (m * 2 ^ 12) by (unfold m; lia).
      apply Z.div_mul. lia. }
    assert (E2 : PAGE_SIZE * m / 2 ^ log_pagesize fsi = n).
    { rewrite Hsplit. unfold PAGE_SIZE, PAGE_SHIFT.
      replace (2 ^ 12 * m) with (n * (2 ^ 12 * 2 ^ (log_pagesize fsi - 12)))
        by (unfold m; lia).
      apply Z.div_mul. lia. }
    rewrite ssdfs_phys_page_to_mem_page_count_run by (unfold is_u32; auto; lia).
    rewrite ssdfs_mem_page_to_phys_page_count_run by (unfold is_u32; lia).
    cbv zeta. rewrite E1, E2. unfold U32_MAX.
    destruct (Z.leb_spec (2 ^ 32 - 1) m); [lia|].
    destruct (Z.leb_spec (2 ^ 32 - 1) n); [lia|].
    rewrite !andb_false_r, !u32_small by lia. split; reflexivity.
  - assert (0 < 2 ^ (12 - log_pagesize fsi)) by (apply Z.pow_pos_nonneg; lia).
    assert (0 < 2 ^ log_pagesize fsi) by (apply Z.pow_pos_nonneg; lia).
    assert (Hsplit := pow2_split (log_pagesize fsi) 12 ltac:(lia)).
    assert (Hnm : n <= m) by (unfold m; nia).
    assert (E1 : PAGE_SIZE * n / 2 ^ log_pagesize fsi = m).
    { unfold PAGE_SIZE, PAGE_SHIFT. rewrite Hsplit.
      replace (2 ^ log_pagesize fsi * 2 ^ (12 - log_pagesize fsi) * n)
        with (m * 2 ^ log_pagesize fsi) by (unfold m; lia).
      apply Z.div_mul. lia. }
    assert (E2 : pagesize fsi * m / PAGE_SIZE = n).
    { rewrite Hps. unfold PAGE_SIZE, PAGE_SHIFT.
      replace (2 ^ log_pagesize fsi * m) with (n * 2 ^ 12)
        by (unfold m; rewrite Hsplit; lia).
      apply Z.div_mul. lia. }
    rewrite ssdfs_phys_page_to_mem_page_count_run by (unfold is_u32; auto; lia).
    rewrite ssdfs_mem_page_to_phys_page_count_run by (unfold is_u32; lia).
    cbv zeta. rewrite E1, E2. unfold U32_MAX.
    destruct (Z.leb_spec (2 ^ 32 - 1) m); [lia|].
    destruct (Z.leb_spec (2 ^ 32 - 1) n); [lia|].
    rewrite !andb_false_r, !u32_small by lia. split; reflexivity.
Qed.

End PageCountProps.

Lemma page_index_conversion_by_bytes_witness :
  let fsi := FsInfo 14 16384 in
  ssdfs_phys_page_to_mem_page fsi 5 = 5 * 2 ^ 14 / PAGE_SIZE
  /\ ssdfs_mem_page_to_phys_page fsi 20 = 20 * PAGE_SIZE / 2 ^ 14.
Proof.
  intros fsi.
  destruct (page_index_conversion_by_bytes fsi 5) as [H1 _];
    [lia|vm_compute; split; [discriminate|reflexivity]|].
  destruct (page_index_conversion_by_bytes fsi 20) as [_ H2];
    [lia|vm_compute; split; [discriminate|reflexivity]|].
  split; [apply H1|apply H2]; vm_compute; reflexivity.
Defined.


Lemma write_offset_mem_page_index_witness :
  let fsi := FsInfo 14 16384 in
  ssdfs_write_offset_to_mem_page_index fsi 2 10000
  = ssdfs_phys_page_to_mem_page fsi 2 + 10000 / PAGE_SIZE.
Proof.
  intros fsi.
  destruct (write_offset_mem_page_index fsi 2 10000) as [_ H].
  - lia.
  - lia.
  - vm_compute. split; [discriminate|reflexivity].
  - apply H. vm_compute. reflexivity.
Defined.

Lemma page_count_conversion_guard_witness :
  let fsi := FsInfo 14 16384 in
  let st := sample_state [] in
  ssdfs_phys_page_to_mem_page_count (Config true false) fsi 3 st
  = Done (16384 * 3 / PAGE_SIZE) st
  /\ ssdfs_mem_page_to_phys_page_count (Config true false) fsi 12 st
     = Done (PAGE_SIZE * 12 / 2 ^ 14) st
  /\ ssdfs_phys_page_to_mem_page_count (Config true false) fsi (2 ^ 32 - 1) st
     = Oops "BUG_ON(mem_page_count >= U32_MAX)".
Proof.
  intros fsi st.
  destruct (page_count_conversion_guard (Config true false) fsi 3 st)
    as (H1 & _); try (vm_compute; split; [discriminate|reflexivity]).
  destruct (page_count_conversion_guard (Config true false) fsi 12 st)
    as (_ & H2 & _); try (vm_compute; split; [discriminate|reflexivity]).
  destruct (page_count_conversion_guard (Config true false) fsi (2 ^ 32 - 1) st)
    as (_ & _ & H3 & _); try (vm_compute; split; [discriminate|reflexivity]).
  split; [|split].
  - apply H1. vm_compute. reflexivity.
  - apply H2. vm_compute. reflexivity.
  - apply H3; [reflexivity|]. vm_compute. discriminate.
Defined.

Lemma page_count_round_trip_witness :
  let fsi := FsInfo 14 16384 in
  let st := sample_state [] in
  ssdfs_phys_page_to_mem_page_count (Config true false) fsi 3 st = Done 12 st
  /\ ssdfs_mem_page_to_phys_page_count (Config true false) fsi 12 st
     = Done 3 st.
Proof.
  intros fsi st.
  destruct (page_count_round_trip (Config true false) fsi 3 st) as [H _].
  - lia.
  - vm_compute. split; [discriminate|reflexivity].
  - reflexivity.
  - apply H; [vm_compute; discriminate|vm_compute; reflexivity].
Defined.

(** ** Pages of one extent *)

Lemma can_be_merged_into_extent_run (page1 page2 : cached_page)
    (ino1 ino2 : Z) (st : kstate) :
  host_i_ino page1 = Some ino1 -> host_i_ino page2 = Some ino2 ->
  0 <= page_index page1 < 2 ^ 64 -> 0 <= page_index page2 < 2 ^ 64 ->
  can_be_merged_into_extent page1 page2 st
  = Done (eqb (PG_checked page1) (PG_checked page2) && (ino1 =? ino2)
          && (Z.abs (page_index page1 - page_index page2) =? 1)) st.
Proof.
  intros H1 H2 Hi1 Hi2. unfold can_be_merged_into_extent, PageChecked.
  rewrite H1, H2. run. cbv zeta. do 2 f_equal; [f_equal|].
  - destruct (PG_checked page1), (PG_checked page2); reflexivity.
  - destruct (Z.leb_spec (page_index page2) (page_index page1));
      rewrite ulong_small by lia; f_equal; lia.
Qed.

(** X20.  For two pages that have a mapping,
    [can_be_merged_into_extent] returns true exactly when both have the
    same [PG_checked] flag, belong to the same inode and their indices
    differ by exactly one.  The answer does not depend on the order of
    the two pages, and no page can be merged with itself.  The state is
    left as it was. *)
Theorem can_be_merged_into_extent_iff (page1 page2 : cached_page)
    (ino1 ino2 : Z) (st : kstate) :
  host_i_ino page1 = Some ino1 -> host_i_ino page2 = Some ino2 ->
  0 <= page_index page1 < 2 ^ BITS_PER_LONG ->
  0 <= page_index page2 < 2 ^ BITS_PER_LONG ->
  exists b,
    can_be_merged_into_extent page1 page2 st = Done b st
    /\ can_be_merged_into_extent page2 page1 st = Done b st
    /\ (b = true <-> mergeable page1 page2)
    /\ can_be_merged_into_extent page1 page1 st = Done false st.
Proof.
  unfold BITS_PER_LONG. intros H1 H2 Hi1 Hi2.
  rewrite (can_be_merged_into_extent_run page1 page2 ino1 ino2) by assumption.
  rewrite (can_be_merged_into_extent_run page2 page1 ino2 ino1) by assumption.
  rewrite (can_be_merged_into_extent_run page1 page1 ino1 ino1) by assumption.
  eexists. split; [reflexivity|]. split; [|split].
  - do 2 f_equal; [f_equal|].
    + destruct (PG_checked page1), (PG_checked page2); reflexivity.
    + apply Z.eqb_sym.
    + f_equal. lia.
  - unfold mergeable. rewrite H1, H2, !andb_true_iff, eqb_true_iff.
    rewrite !Z.eqb_eq. split.
    + intros [[Hc ->] Hd]. repeat split; [assumption|lia].
    + intros (Hc & [= ->] & Hd). repeat split; [assumption|lia].
  - rewrite Z.sub_diag. now rewrite andb_false_r.
Qed.

Lemma can_be_merged_into_extent_iff_witness :
  let page1 := CachedPage (Some 12) 4 true in
  let page2 := CachedPage (Some 12) 5 true in
  let st := sample_state [] in
  can_be_merged_into_extent page1 page2 st = Done true st
  /\ can_be_merged_into_extent page2 page1 st = Done true st
  /\ mergeable page1 page2.
Proof.
  intros page1 page2 st.
  destruct (can_be_merged_into_extent_iff page1 page2 12 12 st)
    as (b & H1 & H2 & Hiff & _).
  - reflexivity.
  - reflexivity.
  - vm_compute. split; [discriminate|reflexivity].
  - vm_compute. split; [discriminate|reflexivity].
  - assert (Hm : mergeable page1 page2).
    { split; [reflexivity|]. split; [reflexivity|]. right. reflexivity. }
    apply Hiff in Hm. subst b. repeat split; try assumption.
    right. reflexivity.
Defined.

(** ** The name hash *)

Lemma read_bytes_S (m : Z -> Z) (a : Z) (n : nat) :
  read_bytes m a (S n) = m a :: read_bytes m (a + 1) n.
Proof.
  unfold read_bytes. cbn [seq map]. rewrite Z.add_0_r. f_equal.
  rewrite <- seq_shift, map_map. apply map_ext. intros j. f_equal. lia.
Qed.

Lemma symbol_steps_cons (a b : Z) (t : list Z) :
  symbol_steps (a :: b :: t) = Z.abs (a - b) * a + symbol_steps (b :: t).
Proof. reflexivity. Qed.

Section NameHashProps.
Context (cfg : config).
Context (full_name_hash : list Z -> Z) (SSDFS_NAME_HASH : Z -> Z -> Z).

Lemma ssdfs_generate_name_hash_loop_run (a : Z) (n : nat) :
  forall (i h : Z) (st : kstate),
  is_u32 h ->
  exists st',
    ssdfs_generate_name_hash_loop cfg n i a h st
    = Done (u32 (h + symbol_steps (map u8 (read_bytes (memory st)
                                                      (a + (i - 1)) (S n)))))
           st'
    /\ same_but_log st st'.
Proof.
  induction n as [|n IH]; intros i h st Hh.
  - exists st. split; [|apply same_but_log_refl].
    cbn [ssdfs_generate_name_hash_loop read_bytes seq map symbol_steps].
    rewrite ret_run, Z.add_0_r, u32_small by exact Hh. reflexivity.
  - cbn [ssdfs_generate_name_hash_loop]. unfold get_state at 1.
    rewrite bind_run. cbv zeta. rewrite bind_run, debug_note_run.
    set (s1 := u8 (memory st (a + (i - 1)))).
    set (s2 := u8 (memory st (a + i))).
    set (diff := if s2 <? s1 then u32 (s1 - s2) else u32 (s2 - s1)).
    destruct (IH (i + 1) (u32 (h + u32 (diff * s1)))
                 (debug_note cfg
                    "hash32_hi %x, symbol1 %x, symbol2 %x, index %d, diff %u"
                    st)) as (st' & -> & Hsame).
    { apply Z.mod_pos_bound. reflexivity. }
    exists st'. split.
    + f_equal.
      change (memory (debug_note cfg _ st)) with (memory st).
      replace (a + (i + 1 - 1)) with (a + i) by lia.
      rewrite (read_bytes_S _ (a + (i - 1)) (S n)).
      replace (a + (i - 1) + 1) with (a + i) by lia.
      rewrite (read_bytes_S _ (a + i) n) at 2.
      cbn [map]. rewrite symbol_steps_cons.
      change (u8 (memory st (a + i)) :: map u8 (read_bytes (memory st) (a + i + 1) n))
        with (map u8 (memory st (a + i) :: read_bytes (memory st) (a + i + 1) n)).
      rewrite <- (read_bytes_S (memory st) (a + i) n).
      fold s1 s2.
      assert (Hdiff : diff = Z.abs (s1 - s2)).
      { pose proof (u8_range (memory st (a + (i - 1)))).
        pose proof (u8_range (memory st (a + i))).
        unfold diff. fold s1 s2 in H, H0.
        destruct (Z.ltb_spec s2 s1); rewrite u32_small by lia; lia. }
      rewrite <- Hdiff.
      set (rest := symbol_steps _).
      unfold u32. rewrite Zplus_mod_idemp_l.
      replace (h + (diff * s1) mod 2 ^ 32 + rest)
        with ((diff * s1) mod 2 ^ 32 + (h + rest)) by lia.
      rewrite Zplus_mod_idemp_l. f_equal. lia.
    + eapply same_but_log_trans; [|exact Hsame]. apply debug_note_same_but_log.
Qed.

Lemma name_hash_entry_run (a : Z) (st : kstate) :
  ifdef_DEBUG cfg (
    BUG_ON (bool_decide (Addr a = NULL)) "BUG_ON(!name)";;
    SSDFS_DBG cfg "name %s, len %zu, inline_name_max_len %zu") st
  = Done tt (debug_note cfg "name %s, len %zu, inline_name_max_len %zu" st).
Proof.
  rewrite <- debug_note_run. unfold ifdef_DEBUG.
  destruct (CONFIG_SSDFS_DEBUG cfg); reflexivity.
Qed.

(** X21.  The value of [__ssdfs_generate_name_hash] for a name of fewer
    than [2 ^ 31] bytes.  It returns normally and changes nothing but the
    log.  For a length of 0 it writes an error and returns [U64_MAX].
    For a name that is not longer than the inline maximum it returns
    [SSDFS_NAME_HASH(lo, hi)] where [lo] is [full_name_hash] of the whole
    name and [hi] is, modulo [2 ^ 32], the length plus the sum over every
    pair of neighbouring bytes of their distance times the first of the
    two.  For a longer name [lo] is [full_name_hash] of the first
    [inline_name_max_len] bytes and [hi] is [full_name_hash] of the
    rest. *)
Theorem ssdfs_generate_name_hash_value (a len max : Z) (st : kstate) :
  0 <= len < 2 ^ 31 -> 0 <= max ->
  exists h st',
    __ssdfs_generate_name_hash cfg full_name_hash SSDFS_NAME_HASH
                               (Addr a) len max st = Done h st'
    /\ same_but_log st st'
    /\ (len = 0 ->
        h = U64_MAX
        /\ st' = log_err "invalid len %zu"
                   (debug_note cfg
                      "name %s, len %zu, inline_name_max_len %zu" st))
    /\ (0 < len <= max ->
        h = SSDFS_NAME_HASH
              (u32 (full_name_hash (read_bytes (memory st) a (Z.to_nat len))))
              (u32 (len + symbol_steps (name_bytes (memory st) a len))))
    /\ (max < len ->
        h = SSDFS_NAME_HASH
              (u32 (full_name_hash (read_bytes (memory st) a (Z.to_nat max))))
              (u32 (full_name_hash
                      (read_bytes (memory st) (a + max)
                                  (Z.to_nat (len - max)))))).
Proof.
  intros Hlen Hmax. unfold __ssdfs_generate_name_hash.
  rewrite bind_run, name_hash_entry_run.
  set (st0 := debug_note cfg _ st).
  assert (Hst0 : same_but_log st st0) by apply debug_note_same_but_log.
  destruct (Z.eqb_spec len 0) as [->|Hne].
  - unfold SSDFS_ERR. rewrite bind_run, printk_run, ret_run.
    eexists _, _. split; [reflexivity|].
    split; [|split; [|split]]; [| |intros; lia|intros; lia].
    + eapply same_but_log_trans; [exact Hst0|]. repeat split.
    + intros _. split; reflexivity.
  - cbv zeta. cbn [deref]. rewrite bind_run, ret_run.
    unfold get_state at 1. rewrite bind_run.
    change (memory st0) with (memory st).
    destruct (Z.leb_spec len max) as [Hle|Hgt].
    + rewrite Z.min_l by lia. rewrite (u32_small len) by lia.
      destruct (ssdfs_generate_name_hash_loop_run a (Z.to_nat (len - 1)) 1 len
                  st0) as (st1 & Hloop & Hsame1); [unfold is_u32; lia|].
      rewrite bind_run, Hloop, bind_run, debug_note_run, ret_run.
      eexists _, _. split; [reflexivity|].
      split; [|split; [|split]]; [|intros; lia| |intros; lia].
      * eapply same_but_log_trans; [exact Hst0|].
        eapply same_but_log_trans; [exact Hsame1|].
        apply debug_note_same_but_log.
      * intros _. unfold name_bytes.
        change (memory st0) with (memory st).
        replace (a + (1 - 1)) with a by lia.
        replace (S (Z.to_nat (len - 1))) with (Z.to_nat len) by lia.
        reflexivity.
    + rewrite Z.min_r by lia. rewrite (u32_small max), (u32_small (len - max))
        by lia.
      rewrite bind_run, ret_run, bind_run, debug_note_run, ret_run.
      eexists _, _. split; [reflexivity|].
      split; [|split; [|split]]; [|intros; lia|intros; lia|intros _; reflexivity].
      eapply same_but_log_trans; [exact Hst0|].
      apply debug_note_same_but_log.
Qed.

End NameHashProps.

Lemma ssdfs_generate_name_hash_value_witness :
  let cfg := Config false false in
  let st := sample_state [] in
  exists h st',
    __ssdfs_generate_name_hash cfg (fun l => foldr Z.add 0 l)
      (fun lo hi => lo * 2 ^ 32 + hi) (Addr 97) 3 12 st = Done h st'
    /\ h = (97 + 98 + 99) * 2 ^ 32 + (3 + 97 + 98).
Proof.
  intros cfg st.
  destruct (ssdfs_generate_name_hash_value cfg (fun l => foldr Z.add 0 l)
              (fun lo hi => lo * 2 ^ 32 + hi) 97 3 12 st)
    as (h & st' & Hrun & _ & _ & Hshort & _); [lia|lia|].
  exists h, st'. split; [exact Hrun|].
  rewrite Hshort by lia. vm_compute. reflexivity.
Defined.
